(** * Statistics: a shallow embedding of [dataManipulation.py]

    The library draws boxplots and scatterplots with pygame.  This file
    embeds its numeric core (quartiles, whisker search, tick intervals,
    least squares), its data model and its draw pipeline, and proves what
    the code does.

    Numbers.  Python's numbers are embedded as exact rationals ([Q]):
    comparisons, index arithmetic and control flow are those of the
    source, and the arithmetic is the one Python performs on ints and
    Fractions.  Where rounding changes what the code does it is modelled
    apart: [Float] rounds every operation to the nearest double, and
    [decimultiple_from] takes the value of [math.floor(math.log10(x))]
    as an argument ([floor_log10] is the exact integer logarithm).
    Errors.  An exception is a value of [exn]; a function that may raise
    returns [result A].  Drawing.  pygame calls append a command to a log
    that survives a later exception. *)

From Stdlib Require Import String.
From Stdlib Require Import QArith Qround Qpower Qabs ZArith List Lia Lqa Bool.
From Stdlib Require Import Permutation Sorted.
Import ListNotations.

Open Scope Q_scope.

(* ================================================================== *)
(** * Python runtime *)
(* ================================================================== *)

Module Py.

(** Messages of the [ValueError]s the library raises, one per [raise]
    site, plus the one [math.log10] raises on a non-positive argument. *)
Inductive value_error : Type :=
| MaxXRequired            (* Graph.__init__ *)
| NoDataEntered           (* MultivariableDiscreteData.__init__, len(data) == 0 *)
| TooFewDimensions        (* MultivariableDiscreteData.__init__, len(data) < 2 *)
| DataLengthMismatch      (* MultivariableDiscreteData.__init__, sizes differ *)
| NotTwoDimensional       (* Scatterplot.__init__ *)
| NoValuesAboveThreshold  (* value_before_threshold *)
| XYLengthMismatch        (* linear_regression *)
| DatasetsLengthMismatch  (* sumProducts *)
| UnpackError             (* tuple unpacking of the wrong arity *)
| EmptySequence           (* max() or min() of an empty list *)
| MathDomainError.        (* math.log10 *)

Inductive exn : Type :=
| IndexError
| ZeroDivisionError
| TypeError               (* arithmetic on [None] *)
| ValueError (m : value_error).

Definition result (A : Type) : Type := (exn + A)%type.

Definition ret {A} (a : A) : result A := inr a.
Definition raise {A} (e : exn) : result A := inl e.
Definition bind {A B} (m : result A) (k : A -> result B) : result B :=
  match m with
  | inl e => inl e
  | inr a => k a
  end.

(** [x > y], [x < y] on numbers. *)
Definition Qlt_bool (x y : Q) : bool := negb (Qle_bool y x).

(** [l[i]]: a negative index counts from the end, anything outside
    [-len, len) raises [IndexError]. *)
Definition index {A} (l : list A) (i : Z) : result A :=
  let n := Z.of_nat (length l) in
  let j := (if i <? 0 then i + n else i)%Z in
  if ((0 <=? j) && (j <? n))%Z then
    match nth_error l (Z.to_nat j) with
    | Some v => ret v
    | None => raise IndexError
    end
  else raise IndexError.

(** [x / y] on numbers: true division, [ZeroDivisionError] on a zero
    divisor. *)
Definition div (x y : Q) : result Q :=
  if Qeq_bool y 0 then raise ZeroDivisionError else ret (x / y).

(** [int(x)]: truncation toward zero. *)
Definition int (x : Q) : Z := Z.quot (Qnum x) (Zpos (Qden x)).

(** [math.floor(x)]. *)
Definition floor (x : Q) : Z := Qfloor x.

(** [x % 1] on a float: the fractional part, in [0, 1). *)
Definition mod1 (x : Q) : Q := x - inject_Z (Qfloor x).

(** [sum(l)]: left fold from 0. *)
Definition sum (l : list Q) : Q := fold_left Qplus l 0.

(** [l.sort()]: a stable ascending sort. *)
Fixpoint insert (x : Q) (l : list Q) : list Q :=
  match l with
  | [] => [x]
  | y :: l' => if Qle_bool x y then x :: l else y :: insert x l'
  end.

Definition sort (l : list Q) : list Q := fold_right insert [] l.

(** [l.sort(reverse=True)]. *)
Fixpoint insert_desc (x : Q) (l : list Q) : list Q :=
  match l with
  | [] => [x]
  | y :: l' => if Qle_bool y x then x :: l else y :: insert_desc x l'
  end.

Definition sort_reverse (l : list Q) : list Q := fold_right insert_desc [] l.

(** [max(l)] and [min(l)] of a list: the first of the largest (smallest)
    elements, [ValueError] on an empty list. *)
Fixpoint list_max (l : list Q) : option Q :=
  match l with
  | [] => None
  | x :: l' => match list_max l' with
               | None => Some x
               | Some m => Some (if Qlt_bool x m then m else x)
               end
  end.

Fixpoint list_min (l : list Q) : option Q :=
  match l with
  | [] => None
  | x :: l' => match list_min l' with
               | None => Some x
               | Some m => Some (if Qlt_bool m x then m else x)
               end
  end.

Definition max (l : list Q) : result Q :=
  match list_max l with
  | Some m => ret m
  | None => raise (ValueError EmptySequence)
  end.

Definition min (l : list Q) : result Q :=
  match list_min l with
  | Some m => ret m
  | None => raise (ValueError EmptySequence)
  end.

(** A number that may be [None], used in arithmetic. *)
Definition num (o : option Q) : result Q :=
  match o with
  | Some q => ret q
  | None => raise TypeError
  end.

End Py.

Import Py.

Notation "x <- m ;; k" := (bind m (fun x => k))
  (at level 61, m at next level, right associativity).

(* ================================================================== *)
(** * Descriptive statistics *)
(* ================================================================== *)

(** [median(data)] *)
Definition median (data : list Q) : result Q :=
  let data := sort data in
  let length := Z.of_nat (List.length data) in
  if (length mod 2 =? 0)%Z then
    a <- index data (int (inject_Z length / 2 - (1#2))) ;;
    b <- index data (int (inject_Z length / 2 + (1#2))) ;;
    ret ((a + b) / 2)
  else
    index data (int (inject_Z length / 2)).

(** [class DiscreteData] *)
Record DiscreteData : Type := mkDiscreteData {
  dd_data : list Q;
  dd_label : string;
  dd_units : string;
  dd_size : nat;
  dd_median : Q
}.

(** [DiscreteData.__init__] *)
Definition DiscreteData_init (data : list Q) (label units : string)
  : result DiscreteData :=
  m <- median data ;;
  ret (mkDiscreteData data label units (List.length data) m).

(** [DiscreteData.quarterOne] *)
Definition quarterOne (self : DiscreteData) : result Q :=
  let tempData := sort (dd_data self) in
  let n := Z.of_nat (List.length tempData) in
  if Qeq_bool (mod1 (inject_Z (n - 1) / 4)) 0 then
    index tempData (int (inject_Z (n - 1) / 4 + (1#2)))
  else
    a <- index tempData (int (inject_Z (n - 1) / 4)) ;;
    b <- index tempData (int (inject_Z (n - 1) / 4) + 1) ;;
    ret ((a + b) / 2).

(** [DiscreteData.quarterThree] *)
Definition quarterThree (self : DiscreteData) : result Q :=
  let tempData := sort (dd_data self) in
  let n := Z.of_nat (List.length tempData) in
  if Qeq_bool (mod1 (inject_Z (n - 1) / 4)) 0 then
    index tempData (3 * int (inject_Z (n - 1) / 4 + (1#2)))
  else
    a <- index tempData (3 * int (inject_Z (n - 1) / 4)) ;;
    b <- index tempData (3 * int (inject_Z (n - 1) / 4) + 1) ;;
    ret ((a + b) / 2).

(** The indices the two methods read from the sorted copy of a list of
    length [n], in reading order. *)
Definition quarterOne_reads (n : Z) : list Z :=
  if Qeq_bool (mod1 (inject_Z (n - 1) / 4)) 0 then
    [int (inject_Z (n - 1) / 4 + (1#2))]
  else
    [int (inject_Z (n - 1) / 4); (int (inject_Z (n - 1) / 4) + 1)%Z].

Definition quarterThree_reads (n : Z) : list Z :=
  if Qeq_bool (mod1 (inject_Z (n - 1) / 4)) 0 then
    [(3 * int (inject_Z (n - 1) / 4 + (1#2)))%Z]
  else
    [(3 * int (inject_Z (n - 1) / 4))%Z; (3 * int (inject_Z (n - 1) / 4) + 1)%Z].

(** [DiscreteData.max], [DiscreteData.min], [DiscreteData.getValue] *)
Definition dd_max (self : DiscreteData) : result Q := Py.max (dd_data self).
Definition dd_min (self : DiscreteData) : result Q := Py.min (dd_data self).
Definition getValue (self : DiscreteData) (i : Z) : result Q :=
  index (dd_data self) i.

(** [value_before_threshold]: the [for i, value in enumerate(valuesCopy)]
    loop; [None] when it runs to the end without returning. *)
Fixpoint vbt_loop (bound : Q) (valuesCopy : list Q) (belowThreshold : bool)
    (i : Z) (rest : list Q) : option (result Q) :=
  match rest with
  | [] => None
  | value :: rest' =>
      if Qlt_bool bound value
      then Some (index valuesCopy (i - Z.b2z belowThreshold))
      else vbt_loop bound valuesCopy belowThreshold (i + 1) rest'
  end.

Definition value_before_threshold (bound : Q) (values : list Q)
    (belowThreshold : bool) : result Q :=
  let valuesCopy := sort values in
  match vbt_loop bound valuesCopy belowThreshold 0 valuesCopy with
  | Some r => r
  | None =>
      if belowThreshold then index valuesCopy (-1)
      else raise (ValueError NoValuesAboveThreshold)
  end.


(** [math.floor(math.log10(x))], as the exact integer logarithm.
    [ilog10 n] is the number of decimal digits of the integer [n >= 1],
    minus one; the quotient of two integers is then located between two
    consecutive powers of ten.  [math.log10] itself works on doubles and
    rounds: for an [x] just below a power of ten it returns the next
    integer (15.0 at 999999999999999, -1.0 at 0.3 / 3), one more than
    the value given here.  [decimultiple_from] below is the rest of
    [next_lowest_decimultiple] for any value of that first line. *)
Fixpoint ilog10_fuel (fuel : nat) (n : Z) : Z :=
  match fuel with
  | O => 0
  | S fuel' => if (n <? 10)%Z then 0 else (1 + ilog10_fuel fuel' (n / 10))%Z
  end.

Definition ilog10 (n : Z) : Z := ilog10_fuel (S (Z.to_nat (Z.log2 n))) n.

Definition floor_log10 (x : Q) : result Z :=
  if Qle_bool x 0 then raise (ValueError MathDomainError)
  else
    let e := (ilog10 (Qnum x) - ilog10 (Zpos (Qden x)))%Z in
    ret (if Qle_bool (10 ^ e) x then e else (e - 1)%Z).

(** [next_lowest_decimultiple]: the [for number in multiples] loop with
    its [break]; [decimultiple] is the value held before the loop. *)
Fixpoint first_multiple (upperBound : Q) (multiples : list Q)
    (decimultiple : Q) : Q :=
  match multiples with
  | [] => decimultiple
  | number :: rest =>
      if Qle_bool number upperBound then number
      else first_multiple upperBound rest decimultiple
  end.

Definition next_lowest_decimultiple (upperBound : Q) (multiples : list Q)
  : result Q :=
  powerOfTen <- floor_log10 upperBound ;;
  upperBound <- div upperBound (10 ^ powerOfTen) ;;
  let decimultiple := 1 in
  let multiples := sort_reverse multiples in
  let decimultiple := first_multiple upperBound multiples decimultiple in
  ret (decimultiple * 10 ^ powerOfTen).

(** [next_lowest_decimultiple] from its third line on, [powerOfTen] and
    [upperBound] being what [math.floor(math.log10(upperBound))] and
    [upperBound /= 10 ** powerOfTen] left. *)
Definition decimultiple_from (powerOfTen : Z) (upperBound : Q)
    (multiples : list Q) : Q :=
  let decimultiple := 1 in
  let multiples := sort_reverse multiples in
  let decimultiple := first_multiple upperBound multiples decimultiple in
  decimultiple * 10 ^ powerOfTen.

(** [sumProducts] *)
Definition sumProducts (dataOne dataTwo : list Q) : result Q :=
  if negb (List.length dataOne =? List.length dataTwo)%nat
  then raise (ValueError DatasetsLengthMismatch)
  else
    ret (fold_left (fun pSum ab => pSum + fst ab * snd ab)
                   (combine dataOne dataTwo) 0).

(** [linear_regression] *)
Definition linear_regression (xData yData : list Q) : result (Q * Q) :=
  if negb (List.length xData =? List.length yData)%nat
  then raise (ValueError XYLengthMismatch)
  else
    let len := inject_Z (Z.of_nat (List.length xData)) in
    sxy <- sumProducts xData yData ;;
    sxx <- sumProducts xData xData ;;
    slope <- div (len * sxy - sum xData * sum yData)
                 (len * sxx - sum xData ^ 2) ;;
    sxx' <- sumProducts xData xData ;;
    sxy' <- sumProducts xData yData ;;
    sxx'' <- sumProducts xData xData ;;
    intercept <- div (sum yData * sxx' - sum xData * sxy')
                     (len * sxx'' - sum xData ^ 2) ;;
    ret (slope, intercept).

(** The sums of the least-squares formulas as the specification writes
    them: [Sigma l] is the sum of [l], [SigmaProd l1 l2] the sum of the
    products of paired elements; the formulas for the slope and the
    intercept follow. *)
Fixpoint Sigma (l : list Q) : Q :=
  match l with
  | [] => 0
  | a :: l' => a + Sigma l'
  end.

Fixpoint SigmaProd (l1 l2 : list Q) : Q :=
  match l1, l2 with
  | a :: l1', b :: l2' => a * b + SigmaProd l1' l2'
  | _, _ => 0
  end.

(** The sum of the squared distances from [a] to the elements of [l]. *)
Fixpoint sqdist (a : Q) (l : list Q) : Q :=
  match l with
  | [] => 0
  | b :: l' => (a - b) * (a - b) + sqdist a l'
  end.

Definition count (l : list Q) : Q := inject_Z (Z.of_nat (List.length l)).

Definition spec_denominator (xs : list Q) : Q :=
  count xs * SigmaProd xs xs - Sigma xs * Sigma xs.

Definition spec_slope (xs ys : list Q) : Q :=
  (count xs * SigmaProd xs ys - Sigma xs * Sigma ys) / spec_denominator xs.

Definition spec_intercept (xs ys : list Q) : Q :=
  (Sigma ys * SigmaProd xs xs - Sigma xs * SigmaProd xs ys) / spec_denominator xs.

(** [sig_figs] is only used to print tick labels; its value is kept
    symbolic in the draw log (see [Pygame.text]). *)

(** [complementary] *)
Definition colour : Type := (Q * Q * Q)%type.

Definition complementary (c : colour) : colour :=
  let '(r, g, b) := c in (255 - r, 255 - g, 255 - b).

(** [valid_rgb_colour] on a tuple given as a list of components. *)
Definition valid_rgb_colour (c : list Q) : bool :=
  if negb (List.length c =? 3)%nat then false
  else forallb (fun n => Qle_bool 0 n && Qle_bool n 255) c.

(* ================================================================== *)
(** * Double precision *)
(* ================================================================== *)

(** The definitions above compute in exact arithmetic, as Python does on
    [int] and [Fraction] data.  On [float] data every operation rounds
    its exact result to the nearest double (IEEE 754 binary64, ties to
    even).  A double is modelled by the rational it denotes; the
    exponent range is not modelled (no overflow, no subnormals). *)
Module Float.

(** For [x > 0], the [e] with [2^e <= x < 2^(e+1)]. *)
Definition ilog2 (x : Q) : Z :=
  let e := (Z.log2 (Qnum x) - Z.log2 (Zpos (Qden x)))%Z in
  if Qle_bool (2 ^ e) x then e else (e - 1)%Z.

(** The nearest double: 53 significant bits, ties to the even one. *)
Definition round (x : Q) : Q :=
  if Qeq_bool x 0 then 0
  else
    let a := Qabs x in
    let ulp := 2 ^ (ilog2 a - 52) in
    let q := a / ulp in
    let n := Qfloor q in
    let twice_rest := 2 * (q - inject_Z n) in
    let m := if Qlt_bool twice_rest 1 then n
             else if Qlt_bool 1 twice_rest then (n + 1)%Z
             else if Z.even n then n else (n + 1)%Z in
    (if Qlt_bool x 0 then - (inject_Z m * ulp) else inject_Z m * ulp).

Definition add (x y : Q) : Q := round (x + y).
Definition sub (x y : Q) : Q := round (x - y).
Definition mul (x y : Q) : Q := round (x * y).
Definition div (x y : Q) : result Q :=
  if Qeq_bool y 0 then raise ZeroDivisionError else ret (round (x / y)).




(** [sumProducts] on floats. *)
Definition sumProducts (dataOne dataTwo : list Q) : result Q :=
  if negb (List.length dataOne =? List.length dataTwo)%nat
  then raise (ValueError DatasetsLengthMismatch)
  else
    ret (fold_left (fun pSum ab => add pSum (mul (fst ab) (snd ab)))
                   (combine dataOne dataTwo) 0).

(** [linear_regression] on floats, for either builtin [sum]; [x ** 2]
    is the square, rounded. *)
Definition linear_regression (sum : list Q -> Q) (xData yData : list Q)
  : result (Q * Q) :=
  if negb (List.length xData =? List.length yData)%nat
  then raise (ValueError XYLengthMismatch)
  else
    let len := inject_Z (Z.of_nat (List.length xData)) in
    sxy <- sumProducts xData yData ;;
    sxx <- sumProducts xData xData ;;
    slope <- div (sub (mul len sxy) (mul (sum xData) (sum yData)))
                 (sub (mul len sxx) (mul (sum xData) (sum xData))) ;;
    sxx' <- sumProducts xData xData ;;
    sxy' <- sumProducts xData yData ;;
    sxx'' <- sumProducts xData xData ;;
    intercept <- div (sub (mul (sum yData) sxx') (mul (sum xData) sxy'))
                     (sub (mul len sxx'') (mul (sum xData) (sum xData))) ;;
    ret (slope, intercept).

End Float.

(* ================================================================== *)
(** * Data model *)
(* ================================================================== *)

(** [class MultivariableDiscreteData] *)
Record MultivariableDiscreteData : Type := mkMultivariableDiscreteData {
  mdd_title : string;
  numDimensions : nat;
  mdd_data : list DiscreteData;
  numPoints : nat
}.

(** The [for i, discreteData in enumerate(data)] check of the
    constructor: raises at the first series whose size differs from
    that of [data[0]]. *)
Fixpoint check_sizes (size0 : nat) (data : list DiscreteData) : result unit :=
  match data with
  | [] => ret tt
  | discreteData :: rest =>
      if negb (dd_size discreteData =? size0)%nat
      then raise (ValueError DataLengthMismatch)
      else check_sizes size0 rest
  end.

(** [MultivariableDiscreteData.__init__] *)
Definition MultivariableDiscreteData_init (data : list DiscreteData)
    (title : string) : result MultivariableDiscreteData :=
  if (List.length data =? 0)%nat then raise (ValueError NoDataEntered)
  else if (List.length data <? 2)%nat then raise (ValueError TooFewDimensions)
  else
    d0 <- index data 0 ;;
    _ <- check_sizes (dd_size d0) data ;;
    ret (mkMultivariableDiscreteData title (List.length data) data (dd_size d0)).

(** [MultivariableDiscreteData.get_points_list] *)
Fixpoint mapM {A B} (f : A -> result B) (l : list A) : result (list B) :=
  match l with
  | [] => ret []
  | a :: l' => b <- f a ;; bs <- mapM f l' ;; ret (b :: bs)
  end.

Definition range (n : nat) : list Z := map Z.of_nat (seq 0 n).

Definition get_points_list (self : MultivariableDiscreteData)
  : result (list (list Q)) :=
  mapM (fun j =>
          mapM (fun i => d <- index (mdd_data self) i ;; getValue d j)
               (range (numDimensions self)))
       (range (numPoints self)).

(** [MultivariableDiscreteData.max], [.min], [.getData] *)
Definition mdd_max (self : MultivariableDiscreteData) (datasetNum : Z)
  : result Q :=
  d <- index (mdd_data self) datasetNum ;; dd_max d.

Definition mdd_min (self : MultivariableDiscreteData) (datasetNum : Z)
  : result Q :=
  d <- index (mdd_data self) datasetNum ;; dd_min d.

Definition mdd_getData (self : MultivariableDiscreteData) (datasetNum : Z)
  : result (list Q) :=
  d <- index (mdd_data self) datasetNum ;; ret (dd_data d).

(* ================================================================== *)
(** * The drawing surface *)
(* ================================================================== *)

Module Pygame.

(** [pygame.Surface]: only its size is read. *)
Record Surface : Type := mkSurface { get_width : Q; get_height : Q }.

(** What [draw_text] renders: a string of the chart, or
    [str(sig_figs(x, precision))] for a tick label. *)
Inductive text : Type :=
| Str (s : string)
| SigFigs (x : Q) (precision : Z).

(** One call into pygame.  A font is its size; [line] and [circle] carry
    their [width] argument (0 fills a circle). *)
Inductive cmd : Type :=
| rect (c : colour) (left top w h : Q)
| line (c : colour) (x1 y1 x2 y2 : Q) (width : Q)
| circle (c : colour) (cx cy radius : Q) (width : Q)
| blit_text (t : text) (cx cy : Q) (c : colour) (font : Z) (rotateDegrees : Z).

(** A drawing computation: it extends the log of calls made so far and
    ends with a value, with an exception, or not within the fuel given
    to its [while] loops ([None]).  The log is kept in all three cases:
    what was drawn before an exception stays drawn. *)
Definition Draw (A : Type) : Type := list cmd -> list cmd * option (result A).

Definition retD {A} (a : A) : Draw A := fun log => (log, Some (inr a)).

Definition bindD {A B} (m : Draw A) (k : A -> Draw B) : Draw B :=
  fun log =>
    match m log with
    | (log', Some (inr a)) => k a log'
    | (log', Some (inl e)) => (log', Some (inl e))
    | (log', None) => (log', None)
    end.

Definition lift {A} (r : result A) : Draw A := fun log => (log, Some r).

Definition emit (c : cmd) : Draw unit := fun log => (log ++ [c], Some (inr tt)).

Definition out_of_fuel {A} : Draw A := fun log => (log, None).

(** Ways a drawing computation can behave, whatever was drawn before:
    it only appends to the log; it raises [e]; it returns; it never
    returns. *)
Definition extends {A} (m : Draw A) : Prop :=
  forall log, exists rest, fst (m log) = log ++ rest.

Definition raises {A} (e : exn) (m : Draw A) : Prop :=
  forall log, snd (m log) = Some (inl e).

Definition completes {A} (m : Draw A) : Prop :=
  forall log, exists a, snd (m log) = Some (inr a).

Definition never_completes {A} (m : Draw A) : Prop :=
  forall log a, snd (m log) <> Some (inr a).

(** [for i, a in enumerate(l): body] *)
Fixpoint for_enumerate {A} (body : Z -> A -> Draw unit) (i : Z) (l : list A)
  : Draw unit :=
  match l with
  | [] => retD tt
  | a :: l' => bindD (body i a) (fun _ => for_enumerate body (i + 1) l')
  end.

(** [draw_text] *)
Definition draw_text (t : text) (centerPosition : Q * Q) (c : colour)
    (font : Z) (rotateDegrees : Z) : Draw unit :=
  emit (blit_text t (fst centerPosition) (snd centerPosition) c font rotateDegrees).

(** [draw_line] *)
Definition draw_line (originX originY xScale yScale slope intercept
    startX endX : Q) (c : colour) (width : Q) : Draw unit :=
  emit (line c
          (originX + xScale * startX) (originY - yScale * (intercept + slope * startX))
          (originX + xScale * endX) (originY - yScale * (intercept + slope * endX))
          width).

End Pygame.

Import Pygame.

Notation "x <~ m ;; k" := (bindD m (fun x => k))
  (at level 61, m at next level, right associativity).
Notation "m ;;; k" := (bindD m (fun _ => k))
  (at level 61, right associativity).

(* ================================================================== *)
(** * [class Graph] *)
(* ================================================================== *)

Module Graph.

(** The geometry [set_dimensions] assigns, in the order of
    [get_dimensions]; [xScale] and [originX] stay [None] on a
    categorical x axis. *)
Record Dimensions : Type := mkDimensions {
  width : Q;
  height : Q;
  effectiveX : Q;
  effectiveY : Q;
  effectiveWidth : Q;
  effectiveHeight : Q;
  graphX : Q;
  graphY : Q;
  graphWidth : Q;
  graphHeight : Q;
  xScale : option Q;
  yScale : Q;
  originX : option Q;
  originY : Q
}.

(** The attributes of a graph.  [dims = None] is [dimensionsSet = False];
    [width0], [height0] are [self.width], [self.height] as given to the
    constructor. *)
Record t : Type := mkGraph {
  maxY : Q;
  categoricalXAxis : bool;
  maxX : Q;
  minY : Q;
  minX : Q;
  xCategoricalLabels : option (list string);
  x : Q;
  y : Q;
  width0 : option Q;
  height0 : option Q;
  graphSize : Q;
  borderWidth : Q;
  bgColour : colour;
  primaryColour : colour;
  borderColour : colour;
  title : string;
  showXAxisLabel : bool;
  showYAxisLabel : bool;
  xAxisLabel : string;
  yAxisLabel : string;
  fontName : string;
  axisMarkerDensity : Q;
  dims : option Dimensions
}.

Definition with_dims (self : t) (d : Dimensions) : t :=
  mkGraph (maxY self) (categoricalXAxis self) (maxX self) (minY self)
    (minX self) (xCategoricalLabels self) (x self) (y self)
    (Some (width d)) (Some (height d)) (graphSize self) (borderWidth self)
    (bgColour self) (primaryColour self) (borderColour self) (title self)
    (showXAxisLabel self) (showYAxisLabel self) (xAxisLabel self)
    (yAxisLabel self) (fontName self) (axisMarkerDensity self) (Some d).

(** [Graph.set_dimensions] *)
Definition set_dimensions (self : t) (window : Surface) : result t :=
  let width := match width0 self with Some w => w | None => get_width window end in
  let height := match height0 self with Some h => h | None => get_height window end in
  let effectiveX := x self + borderWidth self in
  let effectiveY := y self + borderWidth self in
  let effectiveWidth := width - 2 * borderWidth self in
  let effectiveHeight := height - 2 * borderWidth self in
  let graphWidth := graphSize self * effectiveWidth in
  let graphHeight := graphSize self * effectiveHeight in
  let graphX := effectiveX + (effectiveWidth - graphWidth) / 2 in
  let graphY := effectiveY + (effectiveHeight - graphHeight) / 2 in
  xs <- (if negb (categoricalXAxis self) then
           xScale <- div graphWidth (maxX self - minX self) ;;
           ret (Some xScale, Some (graphX - xScale * minX self))
         else ret (None, None)) ;;
  yScale <- div graphHeight (maxY self - minY self) ;;
  let originY := graphY + graphHeight + yScale * minY self in
  ret (with_dims self
         (mkDimensions width height effectiveX effectiveY effectiveWidth
            effectiveHeight graphX graphY graphWidth graphHeight
            (fst xs) yScale (snd xs) originY)).

(** [Graph.__init__] *)
Definition init (maxY : Q) (categoricalXAxis : bool) (maxX minY minX : Q)
    (xCategoricalLabels : option (list string)) (x y : Q)
    (width height : option Q) (graphSize borderWidth : Q)
    (bgColour : colour) (primaryColour borderColour : option colour)
    (title : string) (showXAxisLabel showYAxisLabel : bool)
    (xAxisLabel yAxisLabel fontName : string) (axisMarkerDensity : Q)
  : result t :=
  if negb categoricalXAxis && Qeq_bool maxX 0
  then raise (ValueError MaxXRequired)
  else
    let self :=
      mkGraph maxY categoricalXAxis maxX minY minX xCategoricalLabels x y
        width height graphSize borderWidth bgColour
        (match primaryColour with Some c => c | None => complementary bgColour end)
        (match borderColour with Some c => c | None => complementary bgColour end)
        title showXAxisLabel showYAxisLabel xAxisLabel yAxisLabel fontName
        axisMarkerDensity None in
    match width, height with
    | Some _, Some _ => set_dimensions self (mkSurface 0 0)
    | _, _ => ret self
    end.

(** [Graph.get_origin] *)
Definition get_origin (self : t) : option (option Q * Q) :=
  match dims self with
  | Some d => Some (originX d, originY d)
  | None => None
  end.

(** Where the draw methods put a data value: [originX + v * xScale] in
    [Scatterplot.draw], [originY - v * yScale] there and in
    [drawBoxplot]. *)
Definition pixelX (originX xScale v : Q) : Q := originX + v * xScale.
Definition pixelY (originY yScale v : Q) : Q := originY - v * yScale.

(** [Graph.drawBorderAndBackground] *)
Definition drawBorderAndBackground (self : t) (d : Dimensions) : Draw unit :=
  emit (rect (borderColour self) (x self) (y self) (width d) (height d)) ;;;
  emit (rect (bgColour self) (effectiveX d) (effectiveY d)
          (effectiveWidth d) (effectiveHeight d)).

(** The [while labelNum * xAxisLabelSpacing <= self.graphWidth] loop. *)
Fixpoint x_marks (fuel : nat) (self : t) (d : Dimensions)
    (axisMarkLength deltaXAxisLabel xAxisLabelSpacing : Q)
    (axisMarkerFont : Z) (labelNum : Q) : Draw unit :=
  match fuel with
  | O => out_of_fuel
  | S fuel' =>
      if Qle_bool (labelNum * xAxisLabelSpacing) (graphWidth d) then
        let markPosition := graphX d + labelNum * xAxisLabelSpacing in
        emit (line (primaryColour self)
                markPosition (graphY d + graphHeight d - axisMarkLength)
                markPosition (graphY d + graphHeight d + axisMarkLength) 1) ;;;
        draw_text (SigFigs (labelNum * deltaXAxisLabel + minX self) 2)
          (markPosition,
           graphY d + graphHeight d + (effectiveHeight d - graphHeight d) / 6)
          (primaryColour self) axisMarkerFont 0 ;;;
        (if Qle_bool ((labelNum + (1#2)) * xAxisLabelSpacing) (graphWidth d) then
           emit (line (primaryColour self)
                   (markPosition + (1#2) * xAxisLabelSpacing)
                   (graphY d + graphHeight d - axisMarkLength / 2)
                   (markPosition + (1#2) * xAxisLabelSpacing)
                   (graphY d + graphHeight d + axisMarkLength / 2) 1)
         else retD tt) ;;;
        x_marks fuel' self d axisMarkLength deltaXAxisLabel xAxisLabelSpacing
          axisMarkerFont (labelNum + 1)
      else retD tt
  end.

(** The [while labelNum * yAxisLabelSpacing <= self.graphHeight] loop. *)
Fixpoint y_marks (fuel : nat) (self : t) (d : Dimensions)
    (axisMarkLength deltaYAxisLabel yAxisLabelSpacing : Q)
    (axisMarkerFont : Z) (labelNum : Q) : Draw unit :=
  match fuel with
  | O => out_of_fuel
  | S fuel' =>
      if Qle_bool (labelNum * yAxisLabelSpacing) (graphHeight d) then
        let markPosition := graphY d + graphHeight d - labelNum * yAxisLabelSpacing in
        emit (line (primaryColour self)
                (graphX d - axisMarkLength) markPosition
                (graphX d + axisMarkLength) markPosition 1) ;;;
        draw_text (SigFigs (labelNum * deltaYAxisLabel + minY self) 2)
          (graphX d - (effectiveWidth d - graphWidth d) / 6, markPosition)
          (primaryColour self) axisMarkerFont 0 ;;;
        (if Qle_bool ((labelNum + (1#2)) * yAxisLabelSpacing) (graphHeight d) then
           emit (line (primaryColour self)
                   (graphX d - axisMarkLength / 2)
                   (markPosition - (1#2) * yAxisLabelSpacing)
                   (graphX d + axisMarkLength / 2)
                   (markPosition - (1#2) * yAxisLabelSpacing) 1)
         else retD tt) ;;;
        y_marks fuel' self d axisMarkLength deltaYAxisLabel yAxisLabelSpacing
          axisMarkerFont (labelNum + 1)
      else retD tt
  end.

(** The part of [Graph.draw] up to the axis labels: fonts, border and
    background, the two axes, the title and the axis labels. *)
Definition draw_frame (self : t) (d : Dimensions) : Draw unit :=
  let axisLabelFont := int ((1#2) * (effectiveHeight d - graphHeight d) / 2) in
  let titleFont := int ((4#5) * (effectiveHeight d - graphHeight d) / 2) in
  drawBorderAndBackground self d ;;;
  emit (line (primaryColour self)
          (graphX d) (graphY d + graphHeight d)
          (graphX d + graphWidth d) (graphY d + graphHeight d) 1) ;;;
  emit (line (primaryColour self)
          (graphX d) (graphY d + graphHeight d)
          (graphX d) (graphY d) 1) ;;;
  draw_text (Str (title self))
    (effectiveX d + effectiveWidth d / 2,
     effectiveY d + (effectiveHeight d - graphHeight d) / 4)
    (primaryColour self) titleFont 0 ;;;
  (if showXAxisLabel self then
     draw_text (Str (xAxisLabel self))
       (graphX d + graphWidth d / 2,
        graphY d + graphHeight d + (7#20) * (effectiveHeight d - graphHeight d))
       (primaryColour self) axisLabelFont 0
   else retD tt) ;;;
  (if showYAxisLabel self then
     draw_text (Str (yAxisLabel self))
       (graphX d - (7#20) * (effectiveWidth d - graphWidth d),
        graphY d + graphHeight d / 2)
       (primaryColour self) axisLabelFont 90
   else retD tt).

(** The calls [draw_frame] makes, in order. *)
Definition frame_cmds (self : t) (d : Dimensions) : list cmd :=
  fst (draw_frame self d []).

(** The axis marks of [Graph.draw]: x marks (category labels or numbered
    ticks), then y marks. *)
Definition draw_marks (fuel : nat) (self : t) (d : Dimensions) : Draw unit :=
  let axisMarkerFont := int ((7#20) * (effectiveHeight d - graphHeight d) / 2) in
  let axisMarkLength := (1#200) * (graphHeight d + graphWidth d) in
  (match categoricalXAxis self, xCategoricalLabels self with
   | true, Some labels =>
       deltaLabel <~ lift (div (graphWidth d)
                             (inject_Z (Z.of_nat (List.length labels)))) ;;
       for_enumerate
         (fun i label =>
            draw_text (Str label)
              (graphX d + (inject_Z i + (1#2)) * deltaLabel,
               graphY d + graphHeight d + (effectiveHeight d - graphHeight d) / 6)
              (primaryColour self) axisMarkerFont 0)
         0 labels
   | _, _ =>
       let approxNumXAxisLabels := floor (axisMarkerDensity self * graphWidth d) in
       r <~ lift (div (maxX self - minX self) (inject_Z approxNumXAxisLabels)) ;;
       deltaXAxisLabel <~ lift (next_lowest_decimultiple r [1; 2; 5]) ;;
       xScale <~ lift (num (xScale d)) ;;
       let xAxisLabelSpacing := xScale * deltaXAxisLabel in
       x_marks fuel self d axisMarkLength deltaXAxisLabel xAxisLabelSpacing
         axisMarkerFont 0
   end) ;;;
  let approxNumYAxisLabels := floor (axisMarkerDensity self * graphHeight d) in
  r <~ lift (div (maxY self - minY self) (inject_Z approxNumYAxisLabels)) ;;
  deltaYAxisLabel <~ lift (next_lowest_decimultiple r [1; 2; 5]) ;;
  let yAxisLabelSpacing := yScale d * deltaYAxisLabel in
  y_marks fuel self d axisMarkLength deltaYAxisLabel yAxisLabelSpacing
    axisMarkerFont 0.

(** [Graph.draw]; returns the graph with its dimensions set. *)
Definition draw (fuel : nat) (self : t) (window : Surface)
  : Draw (t * Dimensions) :=
  self <~ (match dims self with
           | None => lift (set_dimensions self window)
           | Some _ => retD self
           end) ;;
  match dims self with
  | None => lift (raise TypeError)
  | Some d =>
      draw_frame self d ;;;
      draw_marks fuel self d ;;;
      retD (self, d)
  end.

End Graph.

(* ================================================================== *)
(** * [class BoxplotGraph] *)
(* ================================================================== *)

Module BoxplotGraph.

Record t : Type := mkBoxplotGraph {
  graph : Graph.t;
  data : list DiscreteData;
  numDatasets : nat;
  colours : list (option colour)
}.

Definition colour_eqb (a b : colour) : bool :=
  let '(r1, g1, b1) := a in
  let '(r2, g2, b2) := b in
  Qeq_bool r1 r2 && Qeq_bool g1 g2 && Qeq_bool b1 b2.

(** [BoxplotGraph.__init__] *)
Definition init (data : list DiscreteData) (maxY minY : option Q)
    (xCategroicalLabels : option (list string)) (x y : Q)
    (width height : option Q) (borderWidth graphSize : Q) (title : string)
    (showXAxisLabel showYAxisLabel : bool) (xAxisLabel yAxisLabel : string)
    (bgColour : colour) (primaryColour : option colour)
    (colours : option (list (option colour))) (borderColour : option colour)
    (fontName : string) (axisMarkerDensity : Q) : result t :=
  let numDatasets := List.length data in
  maxY <- (match maxY with
           | Some m => ret m
           | None => ms <- mapM dd_max data ;; Py.max ms
           end) ;;
  minY <- (match minY with
           | Some m => ret m
           | None => ms <- mapM dd_min data ;; Py.min ms
           end) ;;
  let xCategoricalLabels :=
    match xCategroicalLabels with
    | Some l => l
    | None => map dd_label data
    end in
  let primary :=
    match primaryColour with Some c => c | None => complementary bgColour end in
  let primary := if colour_eqb primary (0, 0, 0) then (100, 100, 100) else primary in
  let colours :=
    match colours with
    | Some cs => cs
    | None => repeat (Some primary) numDatasets
    end in
  let borderColour :=
    match borderColour with Some c => Some c | None => primaryColour end in
  g <- Graph.init maxY true 0 minY 0 (Some xCategoricalLabels) x y width height
         graphSize borderWidth bgColour (Some primary) borderColour title
         showXAxisLabel showYAxisLabel xAxisLabel yAxisLabel fontName
         axisMarkerDensity ;;
  ret (mkBoxplotGraph g data numDatasets colours).

(** The values [drawBoxplot] computes before it draws: median, quartiles,
    whisker ends and outliers. *)
Record Values : Type := mkValues {
  medianValue : Q;
  q1 : Q;
  q3 : Q;
  lowerBound : Q;
  upperBound : Q;
  outliers : list Q
}.

(** The two whisker searches of [drawBoxplot], lower first. *)
Definition whisker_bounds (values : list Q) (quarterOne quarterThree : Q)
  : result (Q * Q) :=
  let iqr := quarterThree - quarterOne in
  lowerBound <- value_before_threshold (quarterOne - (3#2) * iqr) values false ;;
  upperBound <- value_before_threshold (quarterThree + (3#2) * iqr) values true ;;
  ret (lowerBound, upperBound).

(** The outlier loop of [drawBoxplot]. *)
Definition find_outliers (values : list Q) (lowerBound upperBound : Q) : list Q :=
  filter (fun dataPoint =>
            Qlt_bool dataPoint lowerBound || Qlt_bool upperBound dataPoint)
         values.

Definition get_values (data : DiscreteData) : result Values :=
  let medianValue := dd_median data in
  quarterOne <- quarterOne data ;;
  quarterThree <- quarterThree data ;;
  bounds <- whisker_bounds (dd_data data) quarterOne quarterThree ;;
  let lowerBound := fst bounds in
  let upperBound := snd bounds in
  let outliers := find_outliers (dd_data data) lowerBound upperBound in
  ret (mkValues medianValue quarterOne quarterThree lowerBound upperBound outliers).

(** [BoxplotGraph.drawBoxplot] *)
Definition drawBoxplot (data : DiscreteData) (x originY scale width : Q)
    (colour lineColour : colour) : Draw unit :=
  v <~ lift (get_values data) ;;
  let quarterOne := q1 v in
  let quarterThree := q3 v in
  (* box *)
  emit (rect lineColour x (originY - quarterThree * scale) width
          ((quarterThree - quarterOne) * scale)) ;;;
  emit (rect colour (x + 2) (originY - quarterThree * scale + 2) (width - 4)
          ((quarterThree - quarterOne) * scale - 4)) ;;;
  (* median line *)
  emit (line lineColour x (originY - medianValue v * scale)
          (x + width - 2) (originY - medianValue v * scale) 3) ;;;
  (* tail lines *)
  emit (line lineColour (x + width / 2) (originY - quarterOne * scale)
          (x + width / 2) (originY - lowerBound v * scale) 1) ;;;
  emit (line lineColour (x + width / 2) (originY - quarterThree * scale)
          (x + width / 2) (originY - upperBound v * scale) 1) ;;;
  (* tail caps *)
  emit (line lineColour (x + width / 3) (originY - lowerBound v * scale)
          (x + 2 * width / 3) (originY - lowerBound v * scale) 1) ;;;
  emit (line lineColour (x + width / 3) (originY - upperBound v * scale)
          (x + 2 * width / 3) (originY - upperBound v * scale) 1) ;;;
  (* outliers *)
  for_enumerate
    (fun _ value =>
       emit (circle colour (x + width / 2) (originY - value * scale)
               (width * (1#20)) 0) ;;;
       emit (circle lineColour (x + width / 2) (originY - value * scale)
               (width * (1#20)) 1))
    0 (outliers v).

(** [BoxplotGraph.draw] after its call to [super().draw]: one box per
    dataset. *)
Definition draw_boxes (self : t) (g : Graph.t) (d : Graph.Dimensions) : Draw t :=
  boxWidth <~ lift (div (Graph.graphWidth d)
                      (inject_Z (Z.of_nat (numDatasets self)))) ;;
  let boxProportion := 9#10 in
  for_enumerate
    (fun i dataset =>
       let boxX := Graph.graphX d
                   + (inject_Z i + (1#2) * (1 - boxProportion)) * boxWidth in
       ci <~ lift (index (colours self) i) ;;
       let colour := match ci with Some c => c | None => (100, 100, 100) end in
       let lineColour :=
         let '(r, g, b) := colour in ((0 + r) / 2, (0 + g) / 2, (0 + b) / 2) in
       drawBoxplot dataset boxX (Graph.originY d) (Graph.yScale d)
         (boxWidth * boxProportion) colour lineColour)
    0 (data self) ;;;
  retD (mkBoxplotGraph g (data self) (numDatasets self) (colours self)).

(** [BoxplotGraph.draw] *)
Definition draw (fuel : nat) (self : t) (window : Surface) : Draw t :=
  gd <~ Graph.draw fuel (graph self) window ;;
  draw_boxes self (fst gd) (snd gd).

End BoxplotGraph.

(* ================================================================== *)
(** * [class Scatterplot] *)
(* ================================================================== *)

Module Scatterplot.

Record t : Type := mkScatterplot {
  graph : Graph.t;
  datasets : list MultivariableDiscreteData;
  numDatasets : nat;
  colours : list colour;
  bestFitLines : list bool;
  mainBestFitLine : bool;
  pointSizes : list (option Q)
}.

(** The dimension check at the head of [Scatterplot.__init__]. *)
Fixpoint check_dimensions (data : list MultivariableDiscreteData) : result unit :=
  match data with
  | [] => ret tt
  | dataset :: rest =>
      if negb (numDimensions dataset =? 2)%nat
      then raise (ValueError NotTwoDimensional)
      else check_dimensions rest
  end.

(** [Scatterplot.__init__] *)
Definition init (data : list MultivariableDiscreteData)
    (maxY maxX minY minX : option Q) (x y : Q) (width height : option Q)
    (graphSize borderWidth : Q) (bgColour : colour)
    (primaryColour borderColour : option colour)
    (colours : option (list colour)) (title : string)
    (showXAxisLabel showYAxisLabel : bool) (xAxisLabel yAxisLabel : string)
    (fontName : string) (axisMarkerDensity : Q)
    (bestFitLines : option (list bool)) (mainBestFitLine : bool)
    (pointSizes : option (list (option Q))) : result t :=
  _ <- check_dimensions data ;;
  let numDatasets := List.length data in
  maxX <- (match maxX with
           | Some m => ret m
           | None => ms <- mapM (fun d => mdd_max d 0) data ;; Py.max ms
           end) ;;
  maxY <- (match maxY with
           | Some m => ret m
           | None => ms <- mapM (fun d => mdd_max d 1) data ;; Py.max ms
           end) ;;
  minX <- (match minX with
           | Some m => ret m
           | None => ms <- mapM (fun d => mdd_min d 0) data ;; Py.min ms
           end) ;;
  minY <- (match minY with
           | Some m => ret m
           | None => ms <- mapM (fun d => mdd_min d 1) data ;; Py.min ms
           end) ;;
  let primary :=
    match primaryColour with Some c => c | None => complementary bgColour end in
  let border := match borderColour with Some c => c | None => primary end in
  let colours :=
    match colours with Some cs => cs | None => repeat primary numDatasets end in
  xAxisLabel <- (if String.eqb xAxisLabel EmptyString then
                   d <- index data 0 ;; s <- index (mdd_data d) 0 ;; ret (dd_label s)
                 else ret xAxisLabel) ;;
  yAxisLabel <- (if String.eqb yAxisLabel EmptyString then
                   d <- index data 0 ;; s <- index (mdd_data d) 1 ;; ret (dd_label s)
                 else ret yAxisLabel) ;;
  let bestFitLines :=
    match bestFitLines with Some l => l | None => repeat false numDatasets end in
  let pointSizes :=
    match pointSizes with Some l => l | None => repeat None numDatasets end in
  g <- Graph.init maxY false maxX minY minX None x y width height graphSize
         borderWidth bgColour (Some primary) (Some border) title
         showXAxisLabel showYAxisLabel xAxisLabel yAxisLabel fontName
         axisMarkerDensity ;;
  ret (mkScatterplot g data numDatasets colours bestFitLines mainBestFitLine
         pointSizes).

(** [Scatterplot.draw] after its call to [super().draw]: the points and
    the best-fit lines.  The [print] calls of the best-fit lines write to
    standard output, not to the surface; they are left out. *)
Definition draw_points (self : t) (g : Graph.t) (d : Graph.Dimensions) : Draw t :=
  let defaultPointSize := (7#1000) * (Graph.graphWidth d + Graph.graphHeight d) in
  for_enumerate
    (fun i dataset =>
       colour <~ lift (index (colours self) i) ;;
       ps <~ lift (index (pointSizes self) i) ;;
       let pointSize := match ps with Some s => s | None => defaultPointSize end in
       points <~ lift (get_points_list dataset) ;;
       for_enumerate
         (fun _ point =>
            match point with
            | [xPointVal; yPointVal] =>
                originX <~ lift (num (Graph.originX d)) ;;
                xScale <~ lift (num (Graph.xScale d)) ;;
                emit (circle colour
                        (Graph.pixelX originX xScale xPointVal)
                        (Graph.pixelY (Graph.originY d) (Graph.yScale d) yPointVal)
                        pointSize 0)
            | _ => lift (raise (ValueError UnpackError))
            end)
         0 points ;;;
       fit <~ lift (index (bestFitLines self) i) ;;
       if (fit : bool) then
         xData <~ lift (mdd_getData dataset 0) ;;
         yData <~ lift (mdd_getData dataset 1) ;;
         si <~ lift (linear_regression xData yData) ;;
         startX <~ lift (mdd_min dataset 0) ;;
         endX <~ lift (mdd_max dataset 0) ;;
         originX <~ lift (num (Graph.originX d)) ;;
         xScale <~ lift (num (Graph.xScale d)) ;;
         draw_line originX (Graph.originY d) xScale (Graph.yScale d)
           (fst si) (snd si) startX endX colour 1
       else retD tt)
    0 (datasets self) ;;;
  (if mainBestFitLine self then
     xData <~ lift (mapM (fun dataset => mdd_getData dataset 0) (datasets self)) ;;
     yData <~ lift (mapM (fun dataset => mdd_getData dataset 1) (datasets self)) ;;
     let xData := concat xData in
     let yData := concat yData in
     si <~ lift (linear_regression xData yData) ;;
     startX <~ lift (Py.min xData) ;;
     endX <~ lift (Py.max xData) ;;
     originX <~ lift (num (Graph.originX d)) ;;
     xScale <~ lift (num (Graph.xScale d)) ;;
     draw_line originX (Graph.originY d) xScale (Graph.yScale d)
       (fst si) (snd si) startX endX (Graph.primaryColour g) 1
   else retD tt) ;;;
  retD (mkScatterplot g (datasets self) (numDatasets self) (colours self)
          (bestFitLines self) (mainBestFitLine self) (pointSizes self)).

(** [Scatterplot.draw] *)
Definition draw (fuel : nat) (self : t) (window : Surface) : Draw t :=
  gd <~ Graph.draw fuel (graph self) window ;;
  draw_points self (fst gd) (snd gd).

End Scatterplot.

(* ================================================================== *)
(** * Auxiliary definitions *)
(* ================================================================== *)

(** How many elements of [l] are at most [v]. *)
Definition count_le (v : Q) (l : list Q) : nat :=
  List.length (filter (fun a => Qle_bool a v) l).

(** The sum of the squared vertical distances from the points
    [(x, y)] to the line [y = intercept + slope * x]. *)
Fixpoint sse (xs ys : list Q) (slope intercept : Q) : Q :=
  match xs, ys with
  | x :: xs', y :: ys' =>
      (y - (intercept + slope * x)) * (y - (intercept + slope * x))
      + sse xs' ys' slope intercept
  | _, _ => 0
  end.

(** A drawing computation that ends, with a value or an exception,
    within the fuel it was given. *)
Definition terminates {A} (m : Draw A) : Prop :=
  forall log, snd (m log) <> None.

(** A drawing computation with [while] loops that ends as soon as it
    is given enough fuel. *)
Definition eventually_terminates {A} (m : nat -> Draw A) : Prop :=
  exists fuel0, forall fuel, (fuel0 <= fuel)%nat -> terminates (m fuel).

(** ** Setters

    The [ValueError]s of [set_colours], one constructor per [raise]. *)
Inductive setter_error : Type :=
| WrongNumberOfArguments
| NotAColour (i : nat).    (* "Element i is not a colour." *)

(** The validation loop of [set_colours]: raises at the first tuple that
    [valid_rgb_colour] refuses. *)
Fixpoint check_colours (i : nat) (colours : list (list Q)) : setter_error + unit :=
  match colours with
  | [] => inr tt
  | c :: rest =>
      if negb (valid_rgb_colour c) then inl (NotAColour i)
      else check_colours (S i) rest
  end.

(** A tuple of three components as a colour. *)
Definition as_colour (c : list Q) : option colour :=
  match c with
  | [r; g; b] => Some (r, g, b)
  | _ => None
  end.

(** [BoxplotGraph.set_colours] *)
Definition boxplot_set_colours (self : BoxplotGraph.t) (colours : list (list Q))
  : setter_error + BoxplotGraph.t :=
  if negb (List.length colours =? BoxplotGraph.numDatasets self)%nat
  then inl WrongNumberOfArguments
  else
    match check_colours 0 colours with
    | inl e => inl e
    | inr _ =>
        inr (BoxplotGraph.mkBoxplotGraph (BoxplotGraph.graph self)
               (BoxplotGraph.data self) (BoxplotGraph.numDatasets self)
               (map as_colour colours))
    end.

(** The colour a call into pygame is given, and whether it passes
    [valid_rgb_colour]. *)
Definition cmd_colour (c : Pygame.cmd) : colour :=
  match c with
  | Pygame.rect c _ _ _ _ => c
  | Pygame.line c _ _ _ _ _ => c
  | Pygame.circle c _ _ _ _ => c
  | Pygame.blit_text _ _ _ c _ _ => c
  end.

Definition valid_colour (c : colour) : Prop :=
  let '(r, g, b) := c in valid_rgb_colour [r; g; b] = true.

(** A drawing computation that only adds calls satisfying [P] to the
    log. *)
Definition emits_only {A} (P : Pygame.cmd -> Prop) (m : Pygame.Draw A) : Prop :=
  forall log, exists cmds, fst (m log) = log ++ cmds /\ Forall P cmds.




(** An ordinate at most [slack] pixels outside the rows of the plot
    area, and an abscissa inside its columns. *)
Definition in_rows (d : Graph.Dimensions) (slack y : Q) : Prop :=
  Graph.graphY d - slack <= y /\ y <= Graph.graphY d + Graph.graphHeight d + slack.

Definition in_columns (d : Graph.Dimensions) (x : Q) : Prop :=
  Graph.graphX d <= x /\ x <= Graph.graphX d + Graph.graphWidth d.

(** A call made for a box, placed by the plot area: both ends of a line
    and the centre of a circle are inside its rows, both horizontal
    edges of a rectangle at most 2 pixels outside. *)
Definition box_cmd_placed (d : Graph.Dimensions) (k : Pygame.cmd) : Prop :=
  match k with
  | Pygame.rect _ _ top _ h => in_rows d 2 top /\ in_rows d 2 (top + h)
  | Pygame.line _ _ y1 _ y2 _ => in_rows d 0 y1 /\ in_rows d 0 y2
  | Pygame.circle _ _ cy _ _ => in_rows d 0 cy
  | Pygame.blit_text _ _ _ _ _ _ => False
  end.

(** A call made for the points of a scatterplot: a circle is centred
    inside the plot area; the other calls are the best-fit lines. *)
Definition point_cmd_placed (d : Graph.Dimensions) (k : Pygame.cmd) : Prop :=
  match k with
  | Pygame.circle _ cx cy _ _ => in_columns d cx /\ in_rows d 0 cy
  | Pygame.line _ _ _ _ _ _ => True
  | _ => False
  end.

(** Two outcomes agree: the same exception, or equal numbers. *)
Definition result_eq (r1 r2 : result Q) : Prop :=
  match r1, r2 with
  | inr a, inr b => a == b
  | inl e1, inl e2 => e1 = e2
  | _, _ => False
  end.

(* ================================================================== *)
(** * Sample charts *)
(* ================================================================== *)

Module Sample.

Definition white : colour := (255, 255, 255).

Definition series (data : list Q) (m : Q) : DiscreteData :=
  mkDiscreteData data EmptyString EmptyString (List.length data) m.

(** A boxplot of the given series on a [w] by [h] rectangle at the
    origin, no border, every other argument at its default. *)
Definition boxplot (data : list DiscreteData) (maxY minY : option Q) (w h : Q)
  : result BoxplotGraph.t :=
  BoxplotGraph.init data maxY minY None 0 0 (Some w) (Some h) 0 (3#4)
    EmptyString true true EmptyString EmptyString white None None None
    EmptyString (1#125).

(** A scatterplot of the points (1,2), (2,4), (3,6) on a [w] by [h]
    rectangle at the origin, no border, no best-fit line. *)
Definition scatterplot (w h : Q) : result Scatterplot.t :=
  m <- MultivariableDiscreteData_init
         [series [1; 2; 3] 2; series [2; 4; 6] 4] EmptyString ;;
  Scatterplot.init [m] None None None None 0 0 (Some w) (Some h) (3#4) 0
    white None None None EmptyString true true EmptyString EmptyString
    EmptyString (1#125) None false None.

Definition window : Surface := mkSurface 0 0.

End Sample.

(* ================================================================== *)
(** * Properties: the Python runtime *)
(* ================================================================== *)

Section PyFacts.

Lemma Qlt_bool_iff a b : Qlt_bool a b = true <-> a < b.
Proof.
  unfold Qlt_bool. rewrite negb_true_iff. split; intro H.
  - apply Qnot_le_lt. intro Hle. apply Qle_bool_iff in Hle. congruence.
  - destruct (Qle_bool b a) eqn:E; [|reflexivity].
    apply Qle_bool_iff in E. exfalso. exact (Qlt_not_le _ _ H E).
Qed.

Lemma Qlt_bool_false a b : Qlt_bool a b = false <-> b <= a.
Proof. unfold Qlt_bool. rewrite negb_false_iff. apply Qle_bool_iff. Qed.

Lemma Qle_bool_false a b : Qle_bool a b = false <-> b < a.
Proof.
  split; intro H.
  - apply Qnot_le_lt. intro Hle. apply Qle_bool_iff in Hle. congruence.
  - destruct (Qle_bool a b) eqn:E; [|reflexivity].
    apply Qle_bool_iff in E. exfalso. exact (Qlt_not_le _ _ H E).
Qed.

(** ** Sorting *)

Lemma insert_perm a l : Permutation (a :: l) (insert a l).
Proof.
  induction l as [|b l IH]; simpl.
  - apply Permutation_refl.
  - destruct (Qle_bool a b).
    + apply Permutation_refl.
    + apply perm_trans with (b :: a :: l).
      * apply perm_swap.
      * apply perm_skip. exact IH.
Qed.

Lemma sort_perm l : Permutation l (sort l).
Proof.
  induction l as [|a l IH]; simpl.
  - apply perm_nil.
  - apply perm_trans with (a :: sort l).
    + apply perm_skip. exact IH.
    + apply insert_perm.
Qed.

Lemma sort_length l : List.length (sort l) = List.length l.
Proof. symmetry. apply Permutation_length, sort_perm. Qed.

Lemma sort_In a l : In a (sort l) <-> In a l.
Proof.
  split; intro H.
  - eapply Permutation_in; [apply Permutation_sym, sort_perm | exact H].
  - eapply Permutation_in; [apply sort_perm | exact H].
Qed.

Lemma insert_sorted a l :
  StronglySorted Qle l -> StronglySorted Qle (insert a l).
Proof.
  induction 1 as [|b l Hs IH Hb]; simpl.
  - constructor; constructor.
  - destruct (Qle_bool a b) eqn:E.
    + apply Qle_bool_iff in E.
      constructor.
      * constructor; assumption.
      * constructor; [exact E|].
        rewrite Forall_forall in *. intros c Hc.
        eapply Qle_trans; [exact E | apply Hb, Hc].
    + apply Qle_bool_false in E.
      constructor; [exact IH|].
      rewrite Forall_forall in *. intros c Hc.
      apply (Permutation_in _ (Permutation_sym (insert_perm a l))) in Hc.
      destruct Hc as [<-|Hc]; [apply Qlt_le_weak, E | apply Hb, Hc].
Qed.

Lemma sort_sorted l : StronglySorted Qle (sort l).
Proof.
  induction l as [|a l IH]; simpl.
  - constructor.
  - apply insert_sorted, IH.
Qed.

(** In a sorted list the element at a lower index is the smaller one. *)
Lemma sorted_nth_le l :
  StronglySorted Qle l ->
  forall i j, (i <= j < List.length l)%nat -> nth i l 0 <= nth j l 0.
Proof.
  induction 1 as [|a l Hs IH Ha]; intros i j Hij; simpl in *.
  - lia.
  - destruct i as [|i], j as [|j]; try lia.
    + apply Qle_refl.
    + rewrite Forall_forall in Ha. apply Ha, nth_In. lia.
    + apply IH. lia.
Qed.

(** ** Indexing *)

Lemma index_nat {A} (l : list A) (i : nat) (d : A) :
  (i < List.length l)%nat -> index l (Z.of_nat i) = inr (nth i l d).
Proof.
  intro H. unfold index.
  replace (Z.of_nat i <? 0)%Z with false by (symmetry; apply Z.ltb_ge; lia).
  replace ((0 <=? Z.of_nat i) && (Z.of_nat i <? Z.of_nat (List.length l)))%Z
    with true.
  2:{ symmetry. apply andb_true_iff. split; [apply Z.leb_le | apply Z.ltb_lt]; lia. }
  rewrite Nat2Z.id, (nth_error_nth' l d H). reflexivity.
Qed.

Lemma index_last {A} (l : list A) (d : A) :
  l <> [] -> index l (-1) = inr (nth (List.length l - 1) l d).
Proof.
  intro H. unfold index.
  assert (Hlen : (0 < List.length l)%nat) by (destruct l; [congruence | simpl; lia]).
  change (-1 <? 0)%Z with true. cbv iota.
  replace ((0 <=? -1 + Z.of_nat (List.length l))
           && (-1 + Z.of_nat (List.length l) <? Z.of_nat (List.length l)))%Z
    with true.
  2:{ symmetry. apply andb_true_iff. split; [apply Z.leb_le | apply Z.ltb_lt]; lia. }
  replace (Z.to_nat (-1 + Z.of_nat (List.length l))) with (List.length l - 1)%nat by lia.
  rewrite (nth_error_nth' l d); [reflexivity | lia].
Qed.

Lemma index_out_of_range {A} (l : list A) (i : Z) :
  (Z.of_nat (List.length l) <= i)%Z -> index l i = inl IndexError.
Proof.
  intro H. unfold index.
  replace (i <? 0)%Z with false by (symmetry; apply Z.ltb_ge; lia).
  replace (i <? Z.of_nat (List.length l))%Z with false
    by (symmetry; apply Z.ltb_ge; lia).
  rewrite andb_false_r. reflexivity.
Qed.

(** ** [int], [%] and [/] on the quarter rank [(n - 1) / 4] *)

Lemma int_quarter (m : Z) :
  (0 <= m)%Z -> int (inject_Z m / 4) = (m / 4)%Z.
Proof.
  intro H. unfold int. cbn.
  rewrite Z.mul_1_r. apply Z.quot_div_nonneg; lia.
Qed.

Lemma mod1_quarter (m : Z) :
  (0 <= m)%Z ->
  Qeq_bool (mod1 (inject_Z m / 4)) 0 = (m mod 4 =? 0)%Z.
Proof.
  intro H.
  destruct (m mod 4 =? 0)%Z eqn:E.
  - apply Z.eqb_eq in E. apply Qeq_bool_iff.
    unfold mod1, Qfloor, Qeq. cbn. rewrite !Z.mul_1_r.
    pose proof (Z.div_mod m 4). lia.
  - apply Z.eqb_neq in E.
    destruct (Qeq_bool (mod1 (inject_Z m / 4)) 0) eqn:E'; [|reflexivity].
    apply Qeq_bool_iff in E'. exfalso. apply E.
    revert E'. unfold mod1, Qfloor, Qeq. cbn. rewrite !Z.mul_1_r.
    pose proof (Z.div_mod m 4). lia.
Qed.

Lemma int_quarter_half (m : Z) :
  (0 <= m)%Z -> (m mod 4 = 0)%Z ->
  int (inject_Z m / 4 + (1#2)) = (m / 4)%Z.
Proof.
  intros H E. unfold int. cbn. rewrite Z.mul_1_r.
  rewrite Z.quot_div_nonneg by lia.
  pose proof (Z.div_mod m 4 ltac:(lia)) as Hm.
  symmetry. apply Z.div_unique with (r := 4%Z); lia.
Qed.

End PyFacts.

(* ================================================================== *)
(** * Properties: quartiles *)
(* ================================================================== *)

Section Quartiles.

Variable d : DiscreteData.

Let sorted := sort (dd_data d).
Let n := List.length sorted.
Let k := ((n - 1) / 4)%nat.

Hypothesis nonempty : dd_data d <> [].

Lemma quartile_n_pos : (1 <= n)%nat.
Proof.
  unfold n, sorted. rewrite sort_length.
  destruct (dd_data d); [congruence | simpl; lia].
Qed.

Lemma quartile_rank :
  (Z.of_nat n - 1)%Z = Z.of_nat (n - 1) /\
  (Z.of_nat (n - 1) / 4)%Z = Z.of_nat k /\
  ((Z.of_nat (n - 1) mod 4 =? 0)%Z = ((n - 1) mod 4 =? 0)%nat).
Proof.
  pose proof quartile_n_pos as Hn.
  split; [lia|]. split.
  - unfold k. rewrite Nat2Z.inj_div. reflexivity.
  - change 4%Z with (Z.of_nat 4). rewrite <- Nat2Z.inj_mod.
    destruct ((n - 1) mod 4 =? 0)%nat eqn:E.
    + apply Nat.eqb_eq in E. apply Z.eqb_eq. lia.
    + apply Nat.eqb_neq in E. apply Z.eqb_neq. lia.
Qed.

(** The indices the two methods read lie inside the sorted copy. *)
Lemma quartile_bounds :
  (k < n)%nat /\ (3 * k < n)%nat /\
  ((n - 1) mod 4 <> 0 -> k + 1 < n /\ 3 * k + 1 < n)%nat.
Proof.
  pose proof quartile_n_pos as Hn. unfold k.
  pose proof (Nat.div_mod_eq (n - 1) 4) as Hdm.
  pose proof (Nat.mod_upper_bound (n - 1) 4 ltac:(lia)).
  repeat split; lia.
Qed.

Lemma quarterOne_exact :
  ((n - 1) mod 4 = 0)%nat -> quarterOne d = inr (nth k sorted 0).
Proof.
  intro E. unfold quarterOne. fold sorted. fold n.
  destruct quartile_rank as (H1 & H2 & H3).
  rewrite H1, mod1_quarter, H3 by lia.
  apply Nat.eqb_eq in E. rewrite E.
  rewrite int_quarter_half, H2.
  - apply index_nat. apply quartile_bounds.
  - lia.
  - apply Z.eqb_eq. rewrite H3. exact E.
Qed.

Lemma quarterOne_average :
  ((n - 1) mod 4 <> 0)%nat ->
  quarterOne d = inr ((nth k sorted 0 + nth (k + 1) sorted 0) / 2).
Proof.
  intro E. unfold quarterOne. fold sorted. fold n.
  destruct quartile_rank as (H1 & H2 & H3).
  rewrite H1, mod1_quarter, H3 by lia.
  destruct (quartile_bounds) as (_ & _ & Hb). specialize (Hb E).
  apply Nat.eqb_neq in E. rewrite E.
  rewrite int_quarter, H2 by lia.
  rewrite (index_nat sorted k 0) by (fold n; lia). cbn [bind].
  replace (Z.of_nat k + 1)%Z with (Z.of_nat (k + 1)) by lia.
  rewrite (index_nat sorted (k + 1) 0) by (fold n; lia). reflexivity.
Qed.

Lemma quarterThree_exact :
  ((n - 1) mod 4 = 0)%nat -> quarterThree d = inr (nth (3 * k) sorted 0).
Proof.
  intro E. unfold quarterThree. fold sorted. fold n.
  destruct quartile_rank as (H1 & H2 & H3).
  rewrite H1, mod1_quarter, H3 by lia.
  apply Nat.eqb_eq in E. rewrite E.
  rewrite int_quarter_half, H2.
  - replace (3 * Z.of_nat k)%Z with (Z.of_nat (3 * k)) by lia.
    apply index_nat. apply quartile_bounds.
  - lia.
  - apply Z.eqb_eq. rewrite H3. exact E.
Qed.

Lemma quarterThree_average :
  ((n - 1) mod 4 <> 0)%nat ->
  quarterThree d = inr ((nth (3 * k) sorted 0 + nth (3 * k + 1) sorted 0) / 2).
Proof.
  intro E. unfold quarterThree. fold sorted. fold n.
  destruct quartile_rank as (H1 & H2 & H3).
  rewrite H1, mod1_quarter, H3 by lia.
  destruct (quartile_bounds) as (_ & _ & Hb). specialize (Hb E).
  apply Nat.eqb_neq in E. rewrite E.
  rewrite int_quarter, H2 by lia.
  replace (3 * Z.of_nat k)%Z with (Z.of_nat (3 * k)) by lia.
  rewrite (index_nat sorted (3 * k) 0) by (fold n; lia). cbn [bind].
  replace (Z.of_nat (3 * k) + 1)%Z with (Z.of_nat (3 * k + 1)) by lia.
  rewrite (index_nat sorted (3 * k + 1) 0) by (fold n; lia). reflexivity.
Qed.

End Quartiles.

(** What [quarterOne] and [quarterThree] return is made of the values at
    [quarterOne_reads] and [quarterThree_reads], and of nothing else. *)
Lemma quarterOne_reads_sound (d : DiscreteData) :
  let sorted := sort (dd_data d) in
  quarterOne d =
  match quarterOne_reads (Z.of_nat (List.length sorted)) with
  | [i] => index sorted i
  | [i; j] => a <- index sorted i ;; b <- index sorted j ;; ret ((a + b) / 2)
  | _ => raise IndexError
  end.
Proof.
  unfold quarterOne, quarterOne_reads.
  destruct (Qeq_bool _ 0); reflexivity.
Qed.

Lemma quarterThree_reads_sound (d : DiscreteData) :
  let sorted := sort (dd_data d) in
  quarterThree d =
  match quarterThree_reads (Z.of_nat (List.length sorted)) with
  | [i] => index sorted i
  | [i; j] => a <- index sorted i ;; b <- index sorted j ;; ret ((a + b) / 2)
  | _ => raise IndexError
  end.
Proof.
  unfold quarterThree, quarterThree_reads.
  destruct (Qeq_bool _ 0); reflexivity.
Qed.

(** C2.  On a non-empty series, with [sorted] its ascending sort, [n] its
    length and [k = floor((n - 1) / 4)]: when [(n - 1) / 4] is an integer
    [quarterOne] is [sorted[k]] and [quarterThree] is [sorted[3k]];
    otherwise [quarterOne] is the average of [sorted[k]], [sorted[k + 1]]
    and [quarterThree] the average of [sorted[3k]], [sorted[3k + 1]]. *)
Theorem quartile_rank_rule (d : DiscreteData) :
  dd_data d <> [] ->
  let sorted := sort (dd_data d) in
  let n := List.length sorted in
  let k := ((n - 1) / 4)%nat in
  Permutation (dd_data d) sorted /\ StronglySorted Qle sorted /\
  (((n - 1) mod 4 = 0)%nat ->
     quarterOne d = inr (nth k sorted 0) /\
     quarterThree d = inr (nth (3 * k) sorted 0)) /\
  (((n - 1) mod 4 <> 0)%nat ->
     quarterOne d = inr ((nth k sorted 0 + nth (k + 1) sorted 0) / 2) /\
     quarterThree d =
       inr ((nth (3 * k) sorted 0 + nth (3 * k + 1) sorted 0) / 2)).
Proof.
  intros Hne sorted n k.
  split; [apply sort_perm|]. split; [apply sort_sorted|]. split; intro E.
  - split; [apply quarterOne_exact | apply quarterThree_exact]; assumption.
  - split; [apply quarterOne_average | apply quarterThree_average]; assumption.
Qed.

Lemma quartile_rank_rule_witness :
  let d := mkDiscreteData [5; 1; 4; 2; 3] EmptyString EmptyString 5 3 in
  quarterOne d = inr 2 /\ quarterThree d = inr 4.
Proof.
  intro d.
  destruct (quartile_rank_rule d ltac:(discriminate)) as (_ & _ & H & _).
  exact (H eq_refl).
Defined.

(** C10.  On a non-empty series every index [quarterOne] and
    [quarterThree] read is inside the sorted copy, and both return a
    value: no [IndexError] is reachable, whatever the length. *)
Theorem quartiles_in_bounds (d : DiscreteData) :
  dd_data d <> [] ->
  let n := Z.of_nat (List.length (sort (dd_data d))) in
  Forall (fun i => (0 <= i < n)%Z) (quarterOne_reads n ++ quarterThree_reads n) /\
  (exists v, quarterOne d = inr v) /\
  (exists v, quarterThree d = inr v).
Proof.
  intros Hne n.
  destruct (quartile_rank d Hne) as (H1 & H2 & H3).
  destruct (quartile_bounds d Hne) as (B1 & B2 & B3).
  set (len := List.length (sort (dd_data d))) in *.
  pose proof (quartile_n_pos d Hne) as Hpos. fold len in Hpos.
  split.
  - unfold quarterOne_reads, quarterThree_reads, n. fold len.
    rewrite H1, mod1_quarter, H3 by lia.
    destruct ((len - 1) mod 4 =? 0)%nat eqn:E.
    + apply Nat.eqb_eq in E.
      rewrite int_quarter_half, H2;
        [| lia | apply Z.eqb_eq; exact H3].
      repeat constructor; lia.
    + apply Nat.eqb_neq in E. specialize (B3 E).
      rewrite int_quarter, H2 by lia.
      repeat constructor; lia.
  - destruct (Nat.eq_dec ((len - 1) mod 4) 0) as [E|E].
    + split; eexists;
        [apply quarterOne_exact | apply quarterThree_exact]; assumption.
    + split; eexists;
        [apply quarterOne_average | apply quarterThree_average]; assumption.
Qed.

Lemma quartiles_in_bounds_witness :
  let d := mkDiscreteData [7] EmptyString EmptyString 1 7 in
  (exists v, quarterOne d = inr v) /\ (exists v, quarterThree d = inr v).
Proof.
  intro d. exact (proj2 (quartiles_in_bounds d ltac:(discriminate))).
Defined.

(** C7 as stated fails: on [1..8] the first quartile is not 2 and the
    third is not 6. *)
Lemma quartiles_1_to_8_not_2_and_6 :
  exists d a b,
    DiscreteData_init [1; 2; 3; 4; 5; 6; 7; 8] EmptyString EmptyString = inr d /\
    quarterOne d = inr a /\ quarterThree d = inr b /\
    ~ a == 2 /\ ~ b == 6.
Proof.
  eexists. exists (5#2), (9#2).
  split; [reflexivity|]. split; [reflexivity|]. split; [reflexivity|].
  split; discriminate.
Qed.

(** C7, amended.  For the dataset [1..8], [(8 - 1) / 4 = 1.75] is not an
    integer, so both quartiles are averages with [k = 1]: the first is
    the average of the values at indices 1 and 2, that is 2.5, and the
    third the average of the values at indices 3 and 4, that is 4.5. *)
Theorem quartiles_1_to_8 (label units : string) :
  exists d,
    DiscreteData_init [1; 2; 3; 4; 5; 6; 7; 8] label units = inr d /\
    quarterOne d = inr ((nth 1 (dd_data d) 0 + nth 2 (dd_data d) 0) / 2) /\
    quarterOne d = inr (5#2) /\
    quarterThree d = inr ((nth 3 (dd_data d) 0 + nth 4 (dd_data d) 0) / 2) /\
    quarterThree d = inr (9#2).
Proof.
  eexists. split; [reflexivity|]. repeat split; reflexivity.
Qed.

(* ================================================================== *)
(** * Properties: the whisker search *)
(* ================================================================== *)

Section WhiskerSearch.

Variable bound : Q.

(** What the scan of [value_before_threshold] has established when it
    stops: at the first value above the bound, or at the end. *)
Lemma vbt_loop_spec (valuesCopy : list Q) (belowThreshold : bool) :
  forall rest pre,
    valuesCopy = pre ++ rest ->
    Forall (fun a => a <= bound) pre ->
    match vbt_loop bound valuesCopy belowThreshold
            (Z.of_nat (List.length pre)) rest with
    | Some r =>
        exists i, (i < List.length valuesCopy)%nat /\
          (forall j, (j < i)%nat -> nth j valuesCopy 0 <= bound) /\
          bound < nth i valuesCopy 0 /\
          r = index valuesCopy (Z.of_nat i - Z.b2z belowThreshold)
    | None => forall a, In a valuesCopy -> a <= bound
    end.
Proof.
  induction rest as [|value rest IH]; intros pre Hvc Hpre; simpl.
  - rewrite app_nil_r in Hvc. subst pre.
    rewrite Forall_forall in Hpre. exact Hpre.
  - destruct (Qlt_bool bound value) eqn:E.
    + apply Qlt_bool_iff in E.
      exists (List.length pre). subst valuesCopy. repeat split.
      * rewrite length_app. simpl. lia.
      * intros j Hj. rewrite app_nth1 by exact Hj.
        rewrite Forall_forall in Hpre. apply Hpre, nth_In, Hj.
      * rewrite nth_middle. exact E.
    + apply Qlt_bool_false in E.
      specialize (IH (pre ++ [value])).
      rewrite length_app in IH. simpl in IH.
      replace (Z.of_nat (List.length pre + 1)) with (Z.of_nat (List.length pre) + 1)%Z
        in IH by lia.
      apply IH.
      * rewrite <- app_assoc. exact Hvc.
      * apply Forall_app. split; [exact Hpre | constructor; [exact E | constructor]].
Qed.

(** Whether the scan stops does not depend on [belowThreshold]. *)
Lemma vbt_loop_none_indep vc vc' b b' i i' rest :
  vbt_loop bound vc b i rest = None ->
  vbt_loop bound vc' b' i' rest = None.
Proof.
  revert i i'. induction rest as [|a rest IH]; intros i i'; simpl; [reflexivity|].
  destruct (Qlt_bool bound a); [discriminate | apply IH].
Qed.

Variable values : list Q.

Let valuesCopy := sort values.

Lemma vbt_scan :
  match vbt_loop bound valuesCopy false 0 valuesCopy with
  | Some _ =>
      exists i, (i < List.length valuesCopy)%nat /\
        (forall j, (j < i)%nat -> nth j valuesCopy 0 <= bound) /\
        bound < nth i valuesCopy 0 /\
        forall b, vbt_loop bound valuesCopy b 0 valuesCopy
                  = Some (index valuesCopy (Z.of_nat i - Z.b2z b))
  | None =>
      (forall a, In a values -> a <= bound) /\
      forall b, vbt_loop bound valuesCopy b 0 valuesCopy = None
  end.
Proof.
  pose proof (vbt_loop_spec valuesCopy false valuesCopy [] eq_refl (Forall_nil _)) as H0.
  simpl in H0.
  destruct (vbt_loop bound valuesCopy false 0 valuesCopy) as [r|] eqn:E.
  - destruct H0 as (i & Hi & Hlow & Hhigh & _).
    exists i. repeat split; try assumption.
    intro b.
    pose proof (vbt_loop_spec valuesCopy b valuesCopy [] eq_refl (Forall_nil _)) as Hs.
    simpl in Hs.
    destruct (vbt_loop bound valuesCopy b 0 valuesCopy) as [r'|] eqn:E'.
    + destruct Hs as (i' & Hi' & Hlow' & Hhigh' & ->).
      assert (i' = i).
      { destruct (Nat.lt_trichotomy i' i) as [Hlt|[Heq|Hgt]]; [|exact Heq|].
        - exfalso. apply (Qlt_not_le _ _ Hhigh'). apply Hlow, Hlt.
        - exfalso. apply (Qlt_not_le _ _ Hhigh). apply Hlow', Hgt. }
      subst i'. reflexivity.
    + exfalso. apply (Qlt_not_le _ _ Hhigh). apply Hs, nth_In, Hi.
  - split.
    + intros a Ha. apply H0. apply sort_In, Ha.
    + intro b. exact (vbt_loop_none_indep _ _ _ _ _ _ _ E).
Qed.

(** The search from below ([belowThreshold = False]): the smallest value
    above the bound, or a [ValueError] when there is none. *)
Lemma vbt_above_found :
  (exists v, In v values /\ bound < v) ->
  exists m, value_before_threshold bound values false = inr m /\
            In m values /\ bound < m /\
            forall w, In w values -> bound < w -> m <= w.
Proof.
  intros (v & Hv & Hbv).
  unfold value_before_threshold. fold valuesCopy.
  pose proof vbt_scan as Hs.
  destruct (vbt_loop bound valuesCopy false 0 valuesCopy) as [r|] eqn:E.
  - destruct Hs as (i & Hi & Hlow & Hhigh & Hr).
    specialize (Hr false). rewrite E in Hr. injection Hr as ->.
    simpl Z.b2z. rewrite Z.sub_0_r, (index_nat valuesCopy i 0 Hi).
    exists (nth i valuesCopy 0). repeat split.
    + apply sort_In, nth_In, Hi.
    + exact Hhigh.
    + intros w Hw Hbw. apply sort_In in Hw. fold valuesCopy in Hw.
      destruct (In_nth _ _ 0 Hw) as (j & Hj & <-).
      destruct (Nat.lt_ge_cases j i) as [Hlt|Hge].
      * exfalso. apply (Qlt_not_le _ _ Hbw). apply Hlow, Hlt.
      * apply sorted_nth_le; [apply sort_sorted | lia].
  - exfalso. apply (Qlt_not_le _ _ Hbv). apply Hs, Hv.
Qed.

Lemma vbt_above_missing :
  (forall v, In v values -> v <= bound) ->
  value_before_threshold bound values false
  = inl (ValueError NoValuesAboveThreshold).
Proof.
  intro Hall. unfold value_before_threshold. fold valuesCopy.
  pose proof vbt_scan as Hs.
  destruct (vbt_loop bound valuesCopy false 0 valuesCopy) as [r|] eqn:E.
  - destruct Hs as (i & Hi & _ & Hhigh & _).
    exfalso. apply (Qlt_not_le _ _ Hhigh). apply Hall, sort_In, nth_In, Hi.
  - reflexivity.
Qed.

(** The search from above ([belowThreshold = True]): the largest value
    at or below the bound, when there is one. *)
Lemma vbt_below_found :
  (exists v, In v values /\ v <= bound) ->
  exists m, value_before_threshold bound values true = inr m /\
            In m values /\ m <= bound /\
            forall w, In w values -> w <= bound -> w <= m.
Proof.
  intros (v & Hv & Hvb).
  unfold value_before_threshold. fold valuesCopy.
  assert (Hv' : In v valuesCopy) by (apply sort_In, Hv).
  pose proof vbt_scan as Hs.
  destruct (vbt_loop bound valuesCopy false 0 valuesCopy) as [r|] eqn:E.
  - destruct Hs as (i & Hi & Hlow & Hhigh & Hr).
    rewrite (Hr true). simpl Z.b2z.
    assert (Hpos : (0 < i)%nat).
    { destruct (In_nth _ _ 0 Hv') as (j & Hj & Hjv).
      destruct i as [|i]; [|lia]. exfalso.
      apply (Qlt_not_le _ _ Hhigh). rewrite <- Hjv in Hvb.
      eapply Qle_trans; [|exact Hvb].
      apply sorted_nth_le; [apply sort_sorted | lia]. }
    replace (Z.of_nat i - 1)%Z with (Z.of_nat (i - 1)) by lia.
    rewrite (index_nat valuesCopy (i - 1) 0) by lia.
    exists (nth (i - 1) valuesCopy 0). repeat split.
    + apply sort_In, nth_In; fold valuesCopy; lia.
    + apply Hlow. lia.
    + intros w Hw Hwb. apply sort_In in Hw. fold valuesCopy in Hw.
      destruct (In_nth _ _ 0 Hw) as (j & Hj & <-).
      destruct (Nat.lt_ge_cases j i) as [Hlt|Hge].
      * apply sorted_nth_le; [apply sort_sorted | lia].
      * exfalso. apply (Qlt_not_le _ _ Hhigh).
        eapply Qle_trans; [|exact Hwb].
        apply sorted_nth_le; [apply sort_sorted | lia].
  - destruct Hs as (Hall & Hr). rewrite (Hr true).
    assert (Hne : valuesCopy <> []) by (intro H0; rewrite H0 in Hv'; exact Hv').
    rewrite (index_last valuesCopy 0 Hne).
    assert (Hlen : (0 < List.length valuesCopy)%nat)
      by (destruct valuesCopy; [congruence | simpl; lia]).
    exists (nth (List.length valuesCopy - 1) valuesCopy 0). repeat split.
    + apply sort_In, nth_In; fold valuesCopy; lia.
    + apply Hall, sort_In, nth_In; fold valuesCopy; lia.
    + intros w Hw _. apply sort_In in Hw. fold valuesCopy in Hw.
      destruct (In_nth _ _ 0 Hw) as (j & Hj & <-).
      apply sorted_nth_le; [apply sort_sorted | lia].
Qed.

(** On a non-empty list the search from above never raises: when every
    value is above the bound, index [0 - 1] wraps to the last element
    of the sorted copy. *)
Lemma vbt_below_total :
  values <> [] ->
  exists m, value_before_threshold bound values true = inr m /\ In m values.
Proof.
  intro Hne.
  assert (Hlen : (0 < List.length valuesCopy)%nat).
  { unfold valuesCopy. rewrite sort_length.
    destruct values; [congruence | simpl; lia]. }
  assert (Hne' : valuesCopy <> [])
    by (intro H0; rewrite H0 in Hlen; simpl in Hlen; lia).
  unfold value_before_threshold. fold valuesCopy.
  pose proof vbt_scan as Hs.
  destruct (vbt_loop bound valuesCopy false 0 valuesCopy) as [r|] eqn:E.
  - destruct Hs as (i & Hi & _ & _ & Hr). rewrite (Hr true). simpl Z.b2z.
    destruct i as [|i].
    + change (Z.of_nat 0 - 1)%Z with (-1)%Z.
      rewrite (index_last valuesCopy 0 Hne').
      eexists. split; [reflexivity|]. apply sort_In, nth_In; fold valuesCopy; lia.
    + replace (Z.of_nat (S i) - 1)%Z with (Z.of_nat i) by lia.
      rewrite (index_nat valuesCopy i 0) by lia.
      eexists. split; [reflexivity|]. apply sort_In, nth_In; fold valuesCopy; lia.
  - destruct Hs as (_ & Hr). rewrite (Hr true).
    rewrite (index_last valuesCopy 0 Hne').
    eexists. split; [reflexivity|]. apply sort_In, nth_In; fold valuesCopy; lia.
Qed.

Lemma vbt_above_inv m :
  value_before_threshold bound values false = inr m ->
  In m values /\ bound < m /\ forall w, In w values -> bound < w -> m <= w.
Proof.
  intro H.
  destruct (Qlt_le_dec bound m) as [Hlt|Hle].
  - assert (Hex : exists v, In v values /\ bound < v).
    { exists m. split; [|exact Hlt].
      revert H. unfold value_before_threshold. fold valuesCopy.
      pose proof vbt_scan as Hs.
      destruct (vbt_loop bound valuesCopy false 0 valuesCopy) as [r|] eqn:E;
        [|discriminate].
      destruct Hs as (i & Hi & _ & _ & Hr).
      specialize (Hr false). rewrite E in Hr. injection Hr as ->.
      simpl Z.b2z. rewrite Z.sub_0_r, (index_nat valuesCopy i 0 Hi).
      intro Hm. injection Hm as <-. apply sort_In, nth_In, Hi. }
    destruct (vbt_above_found Hex) as (m' & Hm' & Hin & Hb & Hmin).
    rewrite H in Hm'. injection Hm' as <-. repeat split; assumption.
  - exfalso. revert H. unfold value_before_threshold. fold valuesCopy.
    pose proof vbt_scan as Hs.
    destruct (vbt_loop bound valuesCopy false 0 valuesCopy) as [r|] eqn:E;
      [|discriminate].
    destruct Hs as (i & Hi & _ & Hhigh & Hr).
    specialize (Hr false). rewrite E in Hr. injection Hr as ->.
    simpl Z.b2z. rewrite Z.sub_0_r, (index_nat valuesCopy i 0 Hi).
    intro Hm. injection Hm as Hm. rewrite Hm in Hhigh.
    exact (Qlt_not_le _ _ Hhigh Hle).
Qed.

End WhiskerSearch.

Section Whiskers.

Import BoxplotGraph.

Lemma whisker_bounds_unfold (values : list Q) (quarterOne quarterThree : Q) :
  whisker_bounds values quarterOne quarterThree =
  (lowerBound <- value_before_threshold
                   (quarterOne - (3#2) * (quarterThree - quarterOne)) values false ;;
   upperBound <- value_before_threshold
                   (quarterThree + (3#2) * (quarterThree - quarterOne)) values true ;;
   ret (lowerBound, upperBound)).
Proof. reflexivity. Qed.




(** ** The whiskers of a boxplot, by the cutoffs *)

Lemma quarterOne_nonempty d a : quarterOne d = inr a -> dd_data d <> [].
Proof.
  intros H E. unfold quarterOne in H. rewrite E in H. discriminate.
Qed.

Lemma inr_inj {E A} (a b : A) : @inr E A a = inr b -> a = b.
Proof. congruence. Qed.

Lemma quartiles_ordered d a b :
  quarterOne d = inr a -> quarterThree d = inr b ->
  a <= b /\ exists m, In m (dd_data d) /\ m <= b.
Proof.
  intros Ha Hb.
  pose proof (quarterOne_nonempty d a Ha) as Hne.
  pose proof (quartile_bounds d Hne) as (B1 & B2 & B3).
  pose proof (quartile_n_pos d Hne) as Hn.
  pose proof (sort_sorted (dd_data d)) as Hs.
  pose proof (quarterOne_exact d Hne) as Q1e.
  pose proof (quarterOne_average d Hne) as Q1a.
  pose proof (quarterThree_exact d Hne) as Q3e.
  pose proof (quarterThree_average d Hne) as Q3a.
  set (sorted := sort (dd_data d)) in *.
  set (n := List.length sorted) in *.
  set (k := ((n - 1) / 4)%nat) in *.
  assert (Hm : In (nth 0 sorted 0) (dd_data d))
    by (apply sort_In, nth_In; fold sorted; fold n; lia).
  assert (H1 : nth k sorted 0 <= nth (3 * k) sorted 0)
    by (apply (sorted_nth_le sorted Hs k (3 * k)); fold n; lia).
  assert (H3 : nth 0 sorted 0 <= nth (3 * k) sorted 0)
    by (apply (sorted_nth_le sorted Hs 0 (3 * k)); fold n; lia).
  destruct (Nat.eq_dec ((n - 1) mod 4) 0) as [E|E].
  - rewrite (Q1e E) in Ha. apply inr_inj in Ha.
    rewrite (Q3e E) in Hb. apply inr_inj in Hb. subst a b.
    split; [exact H1|].
    exists (nth 0 sorted 0). split; [exact Hm | exact H3].
  - destruct (B3 E) as [B4 B5].
    rewrite (Q1a E) in Ha. apply inr_inj in Ha.
    rewrite (Q3a E) in Hb. apply inr_inj in Hb. subst a b.
    assert (H2 : nth (k + 1) sorted 0 <= nth (3 * k + 1) sorted 0)
      by (apply (sorted_nth_le sorted Hs (k + 1) (3 * k + 1)); fold n; lia).
    assert (H4 : nth 0 sorted 0 <= nth (3 * k + 1) sorted 0)
      by (apply (sorted_nth_le sorted Hs 0 (3 * k + 1)); fold n; lia).
    split.
    + unfold Qdiv. apply Qmult_le_compat_r; [lra | discriminate].
    + exists (nth 0 sorted 0). split; [exact Hm|].
      apply Qle_shift_div_l; [reflexivity | lra].
Qed.

(** In a boxplot that [drawBoxplot] can draw, the lower whisker ends on
    the smallest value above [q1 - 1.5 iqr], the upper whisker on the
    largest value at or below [q3 + 1.5 iqr], and the outliers are the
    values at or below the first cutoff or above the second. *)
Lemma boxplot_values_by_cutoffs d v :
  get_values d = inr v ->
  let lo := q1 v - (3#2) * (q3 v - q1 v) in
  let hi := q3 v + (3#2) * (q3 v - q1 v) in
  (In (lowerBound v) (dd_data d) /\ lo < lowerBound v /\
   forall w, In w (dd_data d) -> lo < w -> lowerBound v <= w) /\
  (In (upperBound v) (dd_data d) /\ upperBound v <= hi /\
   forall w, In w (dd_data d) -> w <= hi -> w <= upperBound v) /\
  (forall a, In a (outliers v) <-> In a (dd_data d) /\ (a <= lo \/ hi < a)).
Proof.
  intros H lo hi. unfold get_values in H.
  destruct (quarterOne d) as [e|a1] eqn:E1; [discriminate|].
  destruct (quarterThree d) as [e|a3] eqn:E3; [discriminate|].
  cbn [bind] in H. rewrite whisker_bounds_unfold in H.
  destruct (value_before_threshold (a1 - (3#2) * (a3 - a1)) (dd_data d) false)
    as [e|lb] eqn:El; [discriminate|].
  cbn [bind] in H.
  destruct (value_before_threshold (a3 + (3#2) * (a3 - a1)) (dd_data d) true)
    as [e|ub] eqn:Eu; [discriminate|].
  cbn [bind ret fst snd] in H. injection H as <-. cbn in lo, hi |- *.
  destruct (quartiles_ordered d a1 a3 E1 E3) as (Hord & m & Hm & Hmb).
  destruct (vbt_above_inv _ _ _ El) as (Hl1 & Hl2 & Hl3).
  assert (Hex : exists x, In x (dd_data d) /\ x <= hi).
  { exists m. split; [exact Hm|]. unfold hi. lra. }
  destruct (vbt_below_found hi (dd_data d) Hex) as (ub' & Hub & Hu1 & Hu2 & Hu3).
  unfold hi in Hub. rewrite Eu in Hub. injection Hub as <-.
  split; [repeat split; assumption|]. split; [repeat split; assumption|].
  intro a. unfold find_outliers. rewrite filter_In, orb_true_iff, !Qlt_bool_iff.
  split; intros [Hin Hout]; (split; [exact Hin|]).
  - destruct Hout as [Hout|Hout].
    + left. destruct (Qlt_le_dec lo a) as [Hgt|Hle]; [|exact Hle].
      exfalso. apply (Qlt_not_le _ _ Hout). apply Hl3; assumption.
    + right. destruct (Qlt_le_dec hi a) as [Hgt|Hle]; [exact Hgt|].
      exfalso. apply (Qlt_not_le _ _ Hout). apply Hu3; assumption.
  - destruct Hout as [Hout|Hout].
    + left. eapply Qle_lt_trans; [exact Hout | exact Hl2].
    + right. eapply Qle_lt_trans; [exact Hu2 | exact Hout].
Qed.




End Whiskers.

(* ================================================================== *)
(** * Properties: the data model *)
(* ================================================================== *)

Section DataModel.

Lemma DiscreteData_init_fields data label units d :
  DiscreteData_init data label units = inr d ->
  dd_data d = data /\ dd_size d = List.length data /\ median data = inr (dd_median d).
Proof.
  unfold DiscreteData_init. destruct (median data) as [e|m]; [discriminate|].
  cbn. intro H. injection H as <-. cbn. repeat split.
Qed.

Lemma check_sizes_ok size0 data :
  (forall s, In s data -> dd_size s = size0) -> check_sizes size0 data = inr tt.
Proof.
  induction data as [|s data IH]; intro H; simpl; [reflexivity|].
  rewrite (H s (or_introl eq_refl)), Nat.eqb_refl. simpl.
  apply IH. intros s' Hs'. apply H. right. exact Hs'.
Qed.

Lemma check_sizes_inv size0 data r :
  check_sizes size0 data = r ->
  (r = inr tt /\ forall s, In s data -> dd_size s = size0) \/
  (r = inl (ValueError DataLengthMismatch) /\
   exists s, In s data /\ dd_size s <> size0).
Proof.
  revert r. induction data as [|s data IH]; intros r H; simpl in H.
  - left. split; [symmetry; exact H | intros s []].
  - destruct (dd_size s =? size0)%nat eqn:E; simpl in H.
    + apply Nat.eqb_eq in E.
      destruct (IH r H) as [[Hr Hall]|[Hr (s' & Hs' & Hne)]].
      * left. split; [exact Hr|]. intros s' [<-|Hs']; [exact E | apply Hall, Hs'].
      * right. split; [exact Hr|]. exists s'. split; [right; exact Hs' | exact Hne].
    + apply Nat.eqb_neq in E. right. split; [symmetry; exact H|].
      exists s. split; [left; reflexivity | exact E].
Qed.

(** C9.  [MultivariableDiscreteData] refuses fewer than two series
    ([ValueError]: no data for none, too few dimensions for one) and
    two or more series whose sizes differ ([ValueError]: data length
    mismatch); otherwise it is built, with [numDimensions] the number of
    series and [numPoints] the size they share. *)
Theorem MultivariableDiscreteData_init_spec (data : list DiscreteData)
    (title : string) :
  (List.length data = 0%nat ->
     MultivariableDiscreteData_init data title = inl (ValueError NoDataEntered)) /\
  (List.length data = 1%nat ->
     MultivariableDiscreteData_init data title = inl (ValueError TooFewDimensions)) /\
  ((2 <= List.length data)%nat ->
   (exists a b, In a data /\ In b data /\ dd_size a <> dd_size b) ->
     MultivariableDiscreteData_init data title
     = inl (ValueError DataLengthMismatch)) /\
  ((2 <= List.length data)%nat ->
   (forall a b, In a data -> In b data -> dd_size a = dd_size b) ->
     exists m, MultivariableDiscreteData_init data title = inr m) /\
  (forall m,
     MultivariableDiscreteData_init data title = inr m ->
     (2 <= List.length data)%nat /\
     numDimensions m = List.length data /\ mdd_data m = data /\
     forall s, In s data -> dd_size s = numPoints m).
Proof.
  unfold MultivariableDiscreteData_init.
  destruct data as [|d0 [|d1 rest]].
  - repeat split; simpl; try discriminate; try lia.
  - repeat split; simpl; try discriminate; try lia.
  - set (l := d0 :: d1 :: rest).
    assert (Hlen : (2 <= List.length l)%nat) by (simpl; lia).
    change (List.length l =? 0)%nat with false.
    change (List.length l <? 2)%nat with false.
    change (index l 0) with (@inr exn _ d0). cbn [bind].
    split; [simpl; discriminate|]. split; [simpl; discriminate|].
    destruct (check_sizes_inv (dd_size d0) l _ eq_refl)
      as [[Hr Hall]|[Hr (s & Hs & Hne)]]; rewrite Hr; cbn [bind ret].
    + split.
      { intros _ (a & b & Ha & Hb & Hab). exfalso. apply Hab.
        rewrite (Hall a Ha), (Hall b Hb). reflexivity. }
      split; [intros _ _; eexists; reflexivity|].
      intros m Hm. injection Hm as <-. cbn.
      split; [exact Hlen|]. split; [reflexivity|]. split; [reflexivity|].
      exact Hall.
    + split; [reflexivity|].
      split.
      { intros _ Hall. exfalso. apply Hne. apply Hall; [exact Hs | left; reflexivity]. }
      intros m Hm. discriminate.
Qed.

Lemma MultivariableDiscreteData_init_spec_witness :
  let a := mkDiscreteData [1; 2; 3] EmptyString EmptyString 3 2 in
  let b := mkDiscreteData [2; 4; 6; 8] EmptyString EmptyString 4 5 in
  let c := mkDiscreteData [2; 4; 6] EmptyString EmptyString 3 4 in
  MultivariableDiscreteData_init [a; b] EmptyString
  = inl (ValueError DataLengthMismatch) /\
  MultivariableDiscreteData_init [a] EmptyString
  = inl (ValueError TooFewDimensions) /\
  exists m, MultivariableDiscreteData_init [a; c] EmptyString = inr m /\
            numDimensions m = 2%nat /\ numPoints m = 3%nat.
Proof.
  intros a b c. split; [|split].
  - apply (proj1 (proj2 (proj2 (MultivariableDiscreteData_init_spec [a; b] EmptyString)))).
    + simpl. lia.
    + exists a, b. split; [left; reflexivity|].
      split; [right; left; reflexivity | discriminate].
  - apply (proj1 (proj2 (MultivariableDiscreteData_init_spec [a] EmptyString))).
    reflexivity.
  - destruct (MultivariableDiscreteData_init [a; c] EmptyString) as [e|m] eqn:E;
      [discriminate|].
    exists m. split; [reflexivity|].
    destruct (proj2 (proj2 (proj2 (proj2
                (MultivariableDiscreteData_init_spec [a; c] EmptyString)))) m E)
      as (_ & Hd & _ & Hp).
    split; [exact Hd|]. symmetry. apply (Hp a). left. reflexivity.
Defined.

End DataModel.

(* ================================================================== *)
(** * Properties: least squares *)
(* ================================================================== *)

Section LeastSquares.

Lemma sum_Sigma_acc l : forall acc, fold_left Qplus l acc == acc + Sigma l.
Proof.
  induction l as [|a l IH]; intro acc; simpl.
  - ring.
  - rewrite IH. ring.
Qed.

Lemma sum_Sigma l : sum l == Sigma l.
Proof. unfold sum. rewrite sum_Sigma_acc. ring. Qed.

Lemma sumProducts_loop_SigmaProd l1 : forall l2 acc,
  fold_left (fun pSum ab => pSum + fst ab * snd ab) (combine l1 l2) acc
  == acc + SigmaProd l1 l2.
Proof.
  induction l1 as [|a l1 IH]; intros [|b l2] acc; simpl; try ring.
  rewrite IH. ring.
Qed.

Lemma sumProducts_ok l1 l2 :
  List.length l1 = List.length l2 ->
  exists p, sumProducts l1 l2 = inr p /\ p == SigmaProd l1 l2.
Proof.
  intro H. unfold sumProducts. rewrite H, Nat.eqb_refl. simpl.
  eexists. split; [reflexivity|].
  rewrite sumProducts_loop_SigmaProd. ring.
Qed.

Lemma div_ok a b : ~ b == 0 -> div a b = inr (a / b).
Proof.
  intro H. unfold div.
  destruct (Qeq_bool b 0) eqn:E; [|reflexivity].
  apply Qeq_bool_iff in E. contradiction.
Qed.

Lemma div_zero a b : b == 0 -> div a b = inl ZeroDivisionError.
Proof.
  intro H. unfold div. apply Qeq_bool_iff in H. rewrite H. reflexivity.
Qed.

(** ** The denominator vanishes exactly when all abscissas coincide *)

Lemma count_cons a l : count (a :: l) == count l + 1.
Proof.
  unfold count. cbn [List.length]. rewrite Nat2Z.inj_succ, <- Z.add_1_r.
  rewrite inject_Z_plus. reflexivity.
Qed.

Lemma sqdist_expand a l :
  sqdist a l == count l * (a * a) - 2 * a * Sigma l + SigmaProd l l.
Proof.
  induction l as [|b l IH].
  - unfold count. simpl. ring.
  - rewrite count_cons. cbn [sqdist Sigma SigmaProd]. rewrite IH. ring.
Qed.

Lemma spec_denominator_cons a l :
  spec_denominator (a :: l) == spec_denominator l + sqdist a l.
Proof.
  unfold spec_denominator. rewrite count_cons, sqdist_expand.
  cbn [Sigma SigmaProd]. ring.
Qed.

Lemma square_nonneg (a : Q) : 0 <= a * a.
Proof.
  destruct (Qlt_le_dec a 0) as [H|H].
  - setoid_replace (a * a) with ((- a) * (- a)) by ring.
    apply Qmult_le_0_compat; lra.
  - apply Qmult_le_0_compat; assumption.
Qed.

Lemma square_zero (a : Q) : a * a == 0 -> a == 0.
Proof.
  intro H. destruct (Qeq_dec a 0) as [E|E]; [exact E|].
  exfalso. apply E.
  destruct (Qmult_integral _ _ H); assumption.
Qed.

Lemma sqdist_nonneg a l : 0 <= sqdist a l.
Proof.
  induction l as [|b l IH]; simpl; [apply Qle_refl|].
  pose proof (square_nonneg (a - b)). lra.
Qed.

Lemma sqdist_zero a l : sqdist a l == 0 <-> forall b, In b l -> b == a.
Proof.
  induction l as [|c l IH]; simpl.
  - split; [intros _ b [] | reflexivity].
  - pose proof (square_nonneg (a - c)) as H1.
    pose proof (sqdist_nonneg a l) as H2.
    split.
    + intros H b [<-|Hb].
      * assert (Hs : (a - c) * (a - c) == 0) by lra.
        apply square_zero in Hs. lra.
      * apply IH; [lra | exact Hb].
    + intro H.
      assert (Hc : c == a) by (apply H; left; reflexivity).
      assert (Hl : sqdist a l == 0) by (apply IH; intros b Hb; apply H; right; exact Hb).
      rewrite Hl, Hc. ring.
Qed.

Lemma spec_denominator_nonneg l : 0 <= spec_denominator l.
Proof.
  induction l as [|a l IH].
  - unfold spec_denominator, count. simpl. lra.
  - rewrite spec_denominator_cons. pose proof (sqdist_nonneg a l). lra.
Qed.

Lemma spec_denominator_zero l :
  spec_denominator l == 0 <-> forall a b, In a l -> In b l -> a == b.
Proof.
  induction l as [|c l IH].
  - split; [intros _ a b [] | intros _; unfold spec_denominator, count; simpl; ring].
  - rewrite spec_denominator_cons.
    pose proof (spec_denominator_nonneg l) as H1.
    pose proof (sqdist_nonneg c l) as H2.
    split.
    + intro H.
      assert (Hd : spec_denominator l == 0) by lra.
      assert (Hs : sqdist c l == 0) by lra.
      rewrite sqdist_zero in Hs.
      assert (Hall : forall a, In a (c :: l) -> a == c).
      { intros a [<-|Ha]; [reflexivity | apply Hs, Ha]. }
      intros a b Ha Hb. rewrite (Hall a Ha), (Hall b Hb). reflexivity.
    + intro H.
      assert (Hd : spec_denominator l == 0).
      { apply IH. intros a b Ha Hb. apply H; right; assumption. }
      assert (Hs : sqdist c l == 0).
      { apply sqdist_zero. intros b Hb. apply H; [right; exact Hb | left; reflexivity]. }
      rewrite Hd, Hs. ring.
Qed.







End LeastSquares.

(* ================================================================== *)
(** * Properties: data to pixel mapping *)
(* ================================================================== *)

Section Mapping.

Import Graph.

Lemma div_inv a b r : div a b = r ->
  (b == 0 /\ r = inl ZeroDivisionError) \/ (~ b == 0 /\ r = inr (a / b)).
Proof.
  unfold div. destruct (Qeq_bool b 0) eqn:E; intros <-.
  - left. split; [apply Qeq_bool_iff, E | reflexivity].
  - right. split; [|reflexivity].
    intro H. apply Qeq_bool_iff in H. congruence.
Qed.

(** What [set_dimensions] leaves in the graph when it returns. *)
Lemma set_dimensions_inv (g g' : t) (window : Surface) :
  set_dimensions g window = inr g' ->
  exists d,
    g' = with_dims g d /\
    ~ maxY g - minY g == 0 /\
    yScale d = graphHeight d / (maxY g - minY g) /\
    originY d = graphY d + graphHeight d + yScale d * minY g /\
    (categoricalXAxis g = true -> xScale d = None /\ originX d = None) /\
    (categoricalXAxis g = false ->
       ~ maxX g - minX g == 0 /\
       xScale d = Some (graphWidth d / (maxX g - minX g)) /\
       originX d = Some (graphX d - graphWidth d / (maxX g - minX g) * minX g)).
Proof.
  unfold set_dimensions.
  destruct (categoricalXAxis g) eqn:Ec; cbn [negb bind ret].
  - match goal with |- context [div ?a ?b] =>
      destruct (div_inv a b _ eq_refl) as [[Hz ->]|[Hnz ->]] end;
      cbn [bind ret]; [discriminate|].
    intro H. injection H as <-. eexists. split; [reflexivity|]. cbn.
    repeat split; try assumption; try reflexivity; discriminate.
  - match goal with |- context [div ?a (maxX g - minX g)] =>
      destruct (div_inv a (maxX g - minX g) _ eq_refl) as [[Hz ->]|[Hnz ->]] end;
      cbn [bind ret]; [discriminate|].
    match goal with |- context [div ?a (maxY g - minY g)] =>
      destruct (div_inv a (maxY g - minY g) _ eq_refl) as [[Hz' ->]|[Hnz' ->]] end;
      cbn [bind ret]; [discriminate|].
    intro H. injection H as <-. eexists. split; [reflexivity|]. cbn.
    repeat split; try assumption; try reflexivity; discriminate.
Qed.

Lemma set_dimensions_error (g : t) (window : Surface) e :
  set_dimensions g window = inl e ->
  e = ZeroDivisionError /\
  (maxY g == minY g \/ (categoricalXAxis g = false /\ maxX g == minX g)).
Proof.
  unfold set_dimensions.
  destruct (categoricalXAxis g) eqn:Ec; cbn [negb bind ret].
  - match goal with |- context [div ?a ?b] =>
      destruct (div_inv a b _ eq_refl) as [[Hz ->]|[Hnz ->]] end;
      cbn [bind ret]; [|discriminate].
    intro H. injection H as <-. split; [reflexivity|]. left. lra.
  - match goal with |- context [div ?a (maxX g - minX g)] =>
      destruct (div_inv a (maxX g - minX g) _ eq_refl) as [[Hz ->]|[Hnz ->]] end;
      cbn [bind ret].
    + intro H. injection H as <-. split; [reflexivity|]. right. split; [reflexivity | lra].
    + match goal with |- context [div ?a (maxY g - minY g)] =>
        destruct (div_inv a (maxY g - minY g) _ eq_refl) as [[Hz' ->]|[Hnz' ->]] end;
        cbn [bind ret]; [|discriminate].
      intro H. injection H as <-. split; [reflexivity|]. left. lra.
Qed.

(** C5 as stated fails.  With [minY = 5] the y origin is not the bottom
    edge (nor the top edge) minus [yScale * minY]; a numeric x axis with [maxX = 0] is
    refused by the constructor; and on a rectangle of width zero two
    data values land on one pixel, so no inverse returns them. *)
Lemma mapping_not_as_claimed :
  (exists g d,
     init 10 false 10 5 0 None 0 0 (Some 100) (Some 100) (3#4) 0
       (255, 255, 255) None None EmptyString true true EmptyString EmptyString
       EmptyString (1#125) = inr g /\
     dims g = Some d /\
     ~ originY d == (graphY d + graphHeight d) - yScale d * minY g /\
     ~ originY d == graphY d - yScale d * minY g) /\
  init 10 false 0 0 (-5) None 0 0 (Some 100) (Some 100) (3#4) 0
    (255, 255, 255) None None EmptyString true true EmptyString EmptyString
    EmptyString (1#125) = inl (ValueError MaxXRequired) /\
  (exists g d xs ox,
     init 10 false 10 0 0 None 0 0 (Some 0) (Some 100) (3#4) 0
       (255, 255, 255) None None EmptyString true true EmptyString EmptyString
       EmptyString (1#125) = inr g /\
     dims g = Some d /\ xScale d = Some xs /\ originX d = Some ox /\
     pixelX ox xs 1 == pixelX ox xs 2 /\ ~ 1 == 2).
Proof.
  split; [|split].
  - eexists. eexists. split; [vm_compute; reflexivity|].
    split; [reflexivity|].
    split; intro H; vm_compute in H; discriminate.
  - reflexivity.
  - eexists. eexists. eexists. eexists. split; [vm_compute; reflexivity|].
    split; [reflexivity|]. split; [reflexivity|]. split; [reflexivity|].
    split; [reflexivity | discriminate].
Qed.

(** C5, amended.  [set_dimensions] returns exactly when the ranges are
    not degenerate and raises [ZeroDivisionError] otherwise; a numeric x
    axis with [maxX = 0] is refused by the constructor.  When it
    returns, the mapping is affine on each numeric axis:
    [yScale = graphHeight / (maxY - minY)], the y origin is the bottom
    edge plus [yScale * minY] and [pixelY = originY - yScale * value];
    [xScale = graphWidth / (maxX - minX)], the x origin is the left edge
    minus [xScale * minX] and [pixelX = originX + xScale * value].  The
    value 0 lands on the origin, the minimum on the near edge (left,
    bottom) and the maximum on the far edge (right, top), whatever the
    signs of the bounds; and when the plot dimension is not zero,
    [(originY - pixel) / yScale] and [(pixel - originX) / xScale] give
    the data value back (in exact arithmetic). *)
Theorem data_to_pixel_mapping (g : t) (window : Surface) :
  (forall g',
     set_dimensions g window = inr g' ->
     exists d,
       dims g' = Some d /\
       (~ maxY g == minY g /\
        yScale d = graphHeight d / (maxY g - minY g) /\
        originY d = graphY d + graphHeight d + yScale d * minY g /\
        pixelY (originY d) (yScale d) 0 == originY d /\
        pixelY (originY d) (yScale d) (minY g) == graphY d + graphHeight d /\
        pixelY (originY d) (yScale d) (maxY g) == graphY d /\
        (~ graphHeight d == 0 ->
           forall v, (originY d - pixelY (originY d) (yScale d) v) / yScale d == v)) /\
       (categoricalXAxis g = false ->
        exists xs ox,
          xScale d = Some xs /\ originX d = Some ox /\
          ~ maxX g == minX g /\
          xs = graphWidth d / (maxX g - minX g) /\
          ox = graphX d - xs * minX g /\
          pixelX ox xs 0 == ox /\
          pixelX ox xs (minX g) == graphX d /\
          pixelX ox xs (maxX g) == graphX d + graphWidth d /\
          (~ graphWidth d == 0 ->
             forall v, (pixelX ox xs v - ox) / xs == v))) /\
  ((maxY g == minY g \/ (categoricalXAxis g = false /\ maxX g == minX g)) <->
   set_dimensions g window = inl ZeroDivisionError) /\
  (forall e, set_dimensions g window = inl e -> e = ZeroDivisionError) /\
  (forall maxY0 maxX0 minY0 minX0 labels x0 y0 w h size border bg primary
          borderC title0 showX showY xLabel yLabel font density,
     maxX0 == 0 ->
     init maxY0 false maxX0 minY0 minX0 labels x0 y0 w h size border bg primary
       borderC title0 showX showY xLabel yLabel font density
     = inl (ValueError MaxXRequired)).
Proof.
  assert (Hok : forall g', set_dimensions g window = inr g' ->
                  ~ maxY g == minY g /\
                  (categoricalXAxis g = false -> ~ maxX g == minX g)).
  { intros g' H. destruct (set_dimensions_inv g g' window H)
      as (d & _ & Hy & _ & _ & _ & Hx).
    split; [lra|]. intro Ec. destruct (Hx Ec) as (Hnx & _). lra. }
  split; [|split; [|split]].
  - intros g' H. destruct (set_dimensions_inv g g' window H)
      as (d & -> & Hy & Hys & Hoy & _ & Hx).
    exists d. split; [reflexivity|]. split.
    + split; [lra|]. split; [exact Hys|]. split; [exact Hoy|].
      rewrite Hoy, Hys. unfold pixelY.
      split; [ring|]. split; [field; exact Hy|]. split; [field; exact Hy|].
      intros Hh v. field. split; [exact Hy | exact Hh].
    + intro Ec. destruct (Hx Ec) as (Hnx & Hxs & Hox).
      eexists. eexists. split; [exact Hxs|]. split; [exact Hox|].
      split; [lra|]. split; [reflexivity|]. split; [reflexivity|].
      unfold pixelX.
      split; [ring|]. split; [field; exact Hnx|]. split; [field; exact Hnx|].
      intros Hw v. field. split; [exact Hnx | exact Hw].
  - split.
    + intro Hdeg. destruct (set_dimensions g window) as [e|g'] eqn:E.
      * destruct (set_dimensions_error g window e E) as [-> _]. reflexivity.
      * exfalso. destruct (Hok g' eq_refl) as [Hy Hx].
        destruct Hdeg as [Hd|[Ec Hd]]; [exact (Hy Hd) | exact (Hx Ec Hd)].
    + intro E. apply (set_dimensions_error g window _ E).
  - intros e E. apply (set_dimensions_error g window e E).
  - intros. unfold init. cbn [negb andb].
    match goal with H : _ == 0 |- _ => apply Qeq_bool_iff in H; rewrite H end.
    reflexivity.
Qed.

Lemma data_to_pixel_mapping_witness :
  let g := mkGraph 10 false 10 5 2 None 0 0 (Some 100) (Some 100) (3#4) 0
             (255, 255, 255) (0, 0, 0) (0, 0, 0) EmptyString true true
             EmptyString EmptyString EmptyString (1#125) None in
  exists g' d,
    set_dimensions g (mkSurface 0 0) = inr g' /\ dims g' = Some d /\
    pixelY (originY d) (yScale d) 5 == graphY d + graphHeight d.
Proof.
  intro g.
  destruct (set_dimensions g (mkSurface 0 0)) as [e|g'] eqn:E;
    [vm_compute in E; discriminate|].
  destruct (proj1 (data_to_pixel_mapping g (mkSurface 0 0)) g' E)
    as (d & Hd & (_ & _ & _ & _ & Hmin & _) & _).
  exists g', d. split; [reflexivity|]. split; [exact Hd | exact Hmin].
Defined.

End Mapping.

(* ================================================================== *)
(** * Properties: tick intervals *)
(* ================================================================== *)

Section TickInterval.

Lemma ilog10_fuel_spec fuel : forall n,
  (1 <= n < 2 ^ Z.of_nat fuel)%Z ->
  (0 <= ilog10_fuel fuel n /\
   10 ^ ilog10_fuel fuel n <= n < 10 ^ (ilog10_fuel fuel n + 1))%Z.
Proof.
  induction fuel as [|fuel IH]; intros n Hn.
  - simpl in Hn. lia.
  - cbn [ilog10_fuel]. destruct (n <? 10)%Z eqn:E.
    + apply Z.ltb_lt in E. simpl. lia.
    + apply Z.ltb_ge in E.
      rewrite Nat2Z.inj_succ, Z.pow_succ_r in Hn by lia.
      assert (Hq : (1 <= n / 10 < 2 ^ Z.of_nat fuel)%Z).
      { split.
        - apply Z.div_le_lower_bound; lia.
        - apply Z.div_lt_upper_bound; lia. }
      destruct (IH _ Hq) as (H0 & Hlo & Hhi).
      set (r := ilog10_fuel fuel (n / 10)) in *.
      pose proof (Z.div_mod n 10 ltac:(lia)) as Hdm.
      pose proof (Z.mod_pos_bound n 10 ltac:(lia)) as Hm.
      split; [lia|].
      replace (1 + r + 1)%Z with (Z.succ (r + 1)) by lia.
      replace (1 + r)%Z with (Z.succ r) by lia.
      rewrite !Z.pow_succ_r by lia. lia.
Qed.

Lemma ilog10_spec n :
  (1 <= n)%Z ->
  (0 <= ilog10 n /\ 10 ^ ilog10 n <= n < 10 ^ (ilog10 n + 1))%Z.
Proof.
  intro Hn. unfold ilog10. apply ilog10_fuel_spec.
  split; [exact Hn|].
  rewrite Nat2Z.inj_succ, Z2Nat.id by apply Z.log2_nonneg.
  apply Z.log2_spec. lia.
Qed.

Lemma pow10_pos (p : Z) : 0 < 10 ^ p.
Proof. apply Qpower_0_lt. reflexivity. Qed.

Lemma pow10_succ (p : Z) : 10 ^ (p + 1) == 10 * 10 ^ p.
Proof. rewrite Qpower_plus by discriminate. simpl (10 ^ 1). ring. Qed.

Lemma pow10_sub (a b : Z) : 10 ^ (a - b) == 10 ^ a / 10 ^ b.
Proof.
  unfold Z.sub. rewrite Qpower_plus by discriminate.
  rewrite Qpower_opp. reflexivity.
Qed.

(** An integer [n >= 1] between two powers of ten, as a rational. *)
Lemma ilog10_Q n :
  (1 <= n)%Z ->
  10 ^ ilog10 n <= inject_Z n /\ inject_Z n < 10 * 10 ^ ilog10 n.
Proof.
  intro Hn. destruct (ilog10_spec n Hn) as (H0 & Hlo & Hhi).
  change 10 with (inject_Z 10).
  rewrite <- Zpower_Qpower by exact H0.
  split.
  - rewrite <- Zle_Qle. exact Hlo.
  - rewrite <- inject_Z_mult, <- Zlt_Qlt.
    replace (ilog10 n + 1)%Z with (Z.succ (ilog10 n)) in Hhi by lia.
    rewrite Z.pow_succ_r in Hhi by exact H0. exact Hhi.
Qed.

(** [floor_log10] is the integer logarithm: [x] lies between [10^p] and
    [10^(p+1)]. *)
Lemma floor_log10_spec (x : Q) :
  0 < x ->
  exists p, floor_log10 x = inr p /\ 10 ^ p <= x /\ x < 10 ^ (p + 1).
Proof.
  intro Hx. unfold floor_log10.
  destruct (Qle_bool x 0) eqn:E.
  { apply Qle_bool_iff in E. exfalso. exact (Qlt_not_le _ _ Hx E). }
  cbn [ret].
  set (a := Qnum x). set (b := Zpos (Qden x)).
  assert (Ha : (1 <= a)%Z).
  { unfold a. destruct x as [xa xb]. unfold Qlt in Hx. simpl in *. lia. }
  assert (Hb : (1 <= b)%Z) by (unfold b; lia).
  destruct (ilog10_Q a Ha) as (Ha1 & Ha2).
  destruct (ilog10_Q b Hb) as (Hb1 & Hb2).
  set (la := ilog10 a) in *. set (lb := ilog10 b) in *.
  pose proof (pow10_pos la) as Pa. pose proof (pow10_pos lb) as Pb.
  assert (Hxab : x == inject_Z a / inject_Z b).
  { unfold a, b. destruct x as [xa xb]. apply Qmake_Qdiv. }
  assert (HB : 0 < inject_Z b) by lra.
  assert (Hxb : x * inject_Z b == inject_Z a).
  { rewrite Hxab. field. lra. }
  assert (He : 10 ^ (la - lb) * 10 ^ lb == 10 ^ la).
  { rewrite pow10_sub. field. lra. }
  pose proof (pow10_pos (la - lb)) as Pe.
  destruct (Qle_bool (10 ^ (la - lb)) x) eqn:E'.
  - apply Qle_bool_iff in E'.
    eexists. split; [reflexivity|]. split; [exact E'|].
    rewrite pow10_succ.
    (* x * b = a < 10 * 10^la = 10 * 10^e * 10^lb <= 10 * 10^e * b *)
    apply Qmult_lt_r with (z := inject_Z b); [exact HB|].
    rewrite Hxb.
    apply Qlt_le_trans with (10 * 10 ^ la); [exact Ha2|].
    rewrite <- He.
    setoid_replace (10 * (10 ^ (la - lb) * 10 ^ lb))
      with ((10 * 10 ^ (la - lb)) * 10 ^ lb) by ring.
    apply Qmult_le_l; [lra | exact Hb1].
  - apply Qle_bool_false in E'.
    eexists. split; [reflexivity|].
    replace (la - lb - 1 + 1)%Z with (la - lb)%Z by lia.
    split; [|exact E'].
    (* 10^(e-1) * b < 10^(e-1) * 10 * 10^lb = 10^la <= a = x * b *)
    assert (He1 : 10 * 10 ^ (la - lb - 1) == 10 ^ (la - lb)).
    { rewrite <- pow10_succ.
      replace (la - lb - 1 + 1)%Z with (la - lb)%Z by lia. reflexivity. }
    pose proof (pow10_pos (la - lb - 1)) as Pe1.
    apply Qmult_le_r with (z := inject_Z b); [exact HB|].
    rewrite Hxb.
    apply Qle_trans with (10 ^ la); [|exact Ha1].
    rewrite <- He, <- He1.
    setoid_replace (10 * 10 ^ (la - lb - 1) * 10 ^ lb)
      with (10 ^ (la - lb - 1) * (10 * 10 ^ lb)) by ring.
    apply Qmult_le_l; [exact Pe1 | lra].
Qed.

Lemma floor_log10_nonpositive (x : Q) :
  x <= 0 -> floor_log10 x = inl (ValueError MathDomainError).
Proof.
  intro H. unfold floor_log10. apply Qle_bool_iff in H. rewrite H. reflexivity.
Qed.

(** [next_lowest_decimultiple] is [decimultiple_from] after the
    logarithm and the division. *)
Lemma next_lowest_decimultiple_from (r : Q) (multiples : list Q) :
  next_lowest_decimultiple r multiples
  = (p <- floor_log10 r ;; m <- div r (10 ^ p) ;;
     ret (decimultiple_from p m multiples)).
Proof. reflexivity. Qed.

Lemma insert_desc_In (x a : Q) (l : list Q) :
  In a (insert_desc x l) <-> a = x \/ In a l.
Proof.
  induction l as [|y l IH]; simpl.
  - split; intros [H|H]; auto.
  - destruct (Qle_bool y x); simpl; [split; intros [H|H]; auto|].
    rewrite IH. tauto.
Qed.

Lemma sort_reverse_In (a : Q) (l : list Q) :
  In a (sort_reverse l) <-> In a l.
Proof.
  induction l as [|x l IH]; simpl; [reflexivity|].
  rewrite insert_desc_In, IH. split; intros [H|H]; auto.
Qed.

Lemma insert_desc_sorted (x : Q) (l : list Q) :
  StronglySorted (fun a b => b <= a) l ->
  StronglySorted (fun a b => b <= a) (insert_desc x l).
Proof.
  induction 1 as [|y l Hs IH Hy]; simpl.
  - constructor; constructor.
  - destruct (Qle_bool y x) eqn:E.
    + apply Qle_bool_iff in E. constructor; [constructor; assumption|].
      constructor; [exact E|].
      rewrite Forall_forall in Hy |- *. intros z Hz.
      apply Qle_trans with y; [apply Hy; exact Hz | exact E].
    + apply Qle_bool_false in E. constructor; [exact IH|].
      rewrite Forall_forall in Hy |- *. intros z Hz.
      apply insert_desc_In in Hz. destruct Hz as [->|Hz].
      * apply Qlt_le_weak. exact E.
      * apply Hy. exact Hz.
Qed.

Lemma sort_reverse_sorted (l : list Q) :
  StronglySorted (fun a b => b <= a) (sort_reverse l).
Proof.
  induction l as [|x l IH]; simpl; [constructor|].
  apply insert_desc_sorted. exact IH.
Qed.

(** The [for] loop with its [break] on a list in descending order: the
    largest element that is at most [m], or the initial value when
    there is none. *)
Lemma first_multiple_spec (m d : Q) (l : list Q) :
  StronglySorted (fun a b => b <= a) l ->
  (In (first_multiple m l d) l /\ first_multiple m l d <= m /\
   forall c, In c l -> c <= m -> c <= first_multiple m l d) \/
  (first_multiple m l d = d /\ forall c, In c l -> m < c).
Proof.
  induction 1 as [|y l Hs IH Hy]; simpl.
  - right. split; [reflexivity | intros c []].
  - destruct (Qle_bool y m) eqn:E.
    + apply Qle_bool_iff in E. left. split; [left; reflexivity|].
      split; [exact E|]. intros c [<-|Hc] _; [apply Qle_refl|].
      rewrite Forall_forall in Hy. apply Hy. exact Hc.
    + apply Qle_bool_false in E. destruct IH as [(Hin & Hle & Hmax)|(Heq & Hall)].
      * left. split; [right; exact Hin|]. split; [exact Hle|].
        intros c [<-|Hc] Hcm; [exfalso; exact (Qlt_not_le _ _ E Hcm)|].
        apply Hmax; assumption.
      * right. split; [exact Heq|]. intros c [<-|Hc]; [exact E | apply Hall; exact Hc].
Qed.

(** C3: the code misses the claim just below a power of ten.  At
    [r = 999999999999999] the claim has [p = 14], [m = 9.99...] and the
    interval [5 * 10^14], which is what the exact logarithm gives.
    [math.log10(r)] is 15.0 in double precision (the true logarithm is
    15 - 4.3e-16, closer to 15.0 than to the double below it), so the
    code runs its remaining lines with [powerOfTen = 15]: the normalised
    bound is below every candidate, the loop keeps its initial 1 and
    the interval returned is [10^15], above [r]. *)
Theorem decimultiple_above_interval :
  let r := 999999999999999 in
  10 ^ 14 <= r /\ r < 10 ^ 15 /\
  floor_log10 r = inr 14%Z /\
  (exists v, next_lowest_decimultiple r [1; 2; 5] = inr v /\ v == 5 * 10 ^ 14) /\
  r / 10 ^ 15 < 1 /\
  decimultiple_from 15 (r / 10 ^ 15) [1; 2; 5] == 10 ^ 15 /\
  r < decimultiple_from 15 (r / 10 ^ 15) [1; 2; 5].
Proof.
  intro r.
  split; [vm_compute; discriminate|]. split; [reflexivity|].
  split; [reflexivity|].
  split; [eexists; split; [reflexivity | reflexivity]|].
  split; [reflexivity|]. split; reflexivity.
Qed.

End TickInterval.

(* ================================================================== *)
(** * Properties: the draw pipeline *)
(* ================================================================== *)

Section DrawMonad.

Context {A B : Type}.

Lemma extends_ret (a : A) : extends (retD a).
Proof. intro log. exists []. simpl. rewrite app_nil_r. reflexivity. Qed.

Lemma extends_lift (r : result A) : extends (lift r).
Proof. intro log. exists []. simpl. rewrite app_nil_r. reflexivity. Qed.

Lemma extends_out_of_fuel : extends (@out_of_fuel A).
Proof. intro log. exists []. simpl. rewrite app_nil_r. reflexivity. Qed.

Lemma extends_emit (c : cmd) : extends (emit c).
Proof. intro log. exists [c]. reflexivity. Qed.

Lemma extends_bind (m : Draw A) (k : A -> Draw B) :
  extends m -> (forall a, extends (k a)) -> extends (bindD m k).
Proof.
  intros Hm Hk log. unfold bindD.
  destruct (Hm log) as (r1 & H1).
  destruct (m log) as [log1 [[e|a]|]]; simpl in H1; subst log1.
  - exists r1. reflexivity.
  - destruct (Hk a (log ++ r1)) as (r2 & H2).
    exists (r1 ++ r2). rewrite H2, app_assoc. reflexivity.
  - exists r1. reflexivity.
Qed.

Lemma extends_for_enumerate (body : Z -> A -> Draw unit) :
  (forall i a, extends (body i a)) ->
  forall l i, extends (for_enumerate body i l).
Proof.
  intros Hb. induction l as [|a l IH]; intro i; simpl.
  - exists []. simpl. rewrite app_nil_r. reflexivity.
  - intro log. unfold bindD.
    destruct (Hb i a log) as (r1 & H1).
    destruct (body i a log) as [log1 [[e|u]|]]; simpl in H1; subst log1.
    + exists r1. reflexivity.
    + destruct (IH (i + 1)%Z (log ++ r1)) as (r2 & H2).
      exists (r1 ++ r2). rewrite H2, app_assoc. reflexivity.
    + exists r1. reflexivity.
Qed.

(** After a first part that returned, the log holds what it drew, then
    what the rest drew. *)
Lemma bind_prefix (m : Draw A) (k : A -> Draw B) log cmds a :
  m log = (log ++ cmds, Some (inr a)) ->
  extends (k a) ->
  exists rest, fst (bindD m k log) = log ++ cmds ++ rest.
Proof.
  intros Hm Hk. unfold bindD. rewrite Hm.
  destruct (Hk (log ++ cmds)) as (rest & Hr).
  exists rest. rewrite Hr, app_assoc. reflexivity.
Qed.

Lemma raises_bind_l e (m : Draw A) (k : A -> Draw B) :
  raises e m -> raises e (bindD m k).
Proof.
  intros Hm log. unfold bindD. specialize (Hm log).
  destruct (m log) as [log1 [[e'|a]|]]; simpl in *; congruence.
Qed.

Lemma raises_bind_r e (m : Draw A) (k : A -> Draw B) :
  completes m -> (forall a, raises e (k a)) -> raises e (bindD m k).
Proof.
  intros Hm Hk log. unfold bindD. destruct (Hm log) as (a & Ha).
  destruct (m log) as [log1 [[e'|a']|]]; simpl in *; try discriminate.
  apply Hk.
Qed.

Lemma never_completes_bind_l (m : Draw A) (k : A -> Draw B) :
  never_completes m -> never_completes (bindD m k).
Proof.
  intros Hm log b. unfold bindD. specialize (Hm log).
  destruct (m log) as [log1 [[e'|a]|]]; simpl in *; try discriminate.
  exfalso. apply (Hm a). reflexivity.
Qed.

Lemma never_completes_bind_r (m : Draw A) (k : A -> Draw B) :
  (forall a, never_completes (k a)) -> never_completes (bindD m k).
Proof.
  intros Hk log b. unfold bindD.
  destruct (m log) as [log1 [[e'|a]|]]; simpl; try discriminate.
  apply Hk.
Qed.

Lemma raises_never_completes e (m : Draw A) : raises e m -> never_completes m.
Proof. intros Hm log a. rewrite Hm. discriminate. Qed.

Lemma completes_bind (m : Draw A) (k : A -> Draw B) :
  completes m -> (forall a, completes (k a)) -> completes (bindD m k).
Proof.
  intros Hm Hk log. unfold bindD. destruct (Hm log) as (a & Ha).
  destruct (m log) as [log1 [[e'|a']|]]; simpl in *; try discriminate.
  apply Hk.
Qed.

Lemma completes_for_enumerate (body : Z -> A -> Draw unit) :
  (forall i a, completes (body i a)) ->
  forall l i, completes (for_enumerate body i l).
Proof.
  intros Hb. induction l as [|a l IH]; intro i; simpl.
  - intro log. exists tt. reflexivity.
  - intro log. unfold bindD. destruct (Hb i a log) as (u & Hu).
    destruct (body i a log) as [log1 [[e'|u']|]]; simpl in *; try discriminate.
    apply IH.
Qed.

End DrawMonad.

Ltac extends_step :=
  first
    [ apply extends_ret
    | apply extends_lift
    | apply extends_emit
    | apply extends_out_of_fuel
    | apply extends_bind; [|intro]
    | apply extends_for_enumerate; intros
    | match goal with
      | |- extends (if ?b then _ else _) => destruct b
      | |- extends (match ?v with _ => _ end) => destruct v
      | |- extends (let '(_, _) := ?v in _) => destruct v
      end ].

Ltac extends_tac := unfold draw_text, draw_line; repeat extends_step.

Section Pipeline.

Import Graph.

Lemma draw_frame_log (g : t) (d : Dimensions) (log : list cmd) :
  draw_frame g d log = (log ++ frame_cmds g d, Some (inr tt)).
Proof.
  unfold frame_cmds, draw_frame, drawBorderAndBackground, draw_text, bindD, emit, retD.
  destruct (showXAxisLabel g), (showYAxisLabel g); simpl;
    rewrite <- ?app_assoc; reflexivity.
Qed.

(** The frame starts with the border and the background, followed by the
    two axes and the title. *)
Lemma frame_cmds_head (g : t) (d : Dimensions) :
  exists font tail,
    frame_cmds g d =
    rect (borderColour g) (x g) (y g) (width d) (height d)
    :: rect (bgColour g) (effectiveX d) (effectiveY d)
         (effectiveWidth d) (effectiveHeight d)
    :: line (primaryColour g) (graphX d) (graphY d + graphHeight d)
         (graphX d + graphWidth d) (graphY d + graphHeight d) 1
    :: line (primaryColour g) (graphX d) (graphY d + graphHeight d)
         (graphX d) (graphY d) 1
    :: blit_text (Str (title g)) (effectiveX d + effectiveWidth d / 2)
         (effectiveY d + (effectiveHeight d - graphHeight d) / 4)
         (primaryColour g) font 0
    :: tail.
Proof.
  unfold frame_cmds, draw_frame, drawBorderAndBackground, draw_text, bindD, emit, retD.
  destruct (showXAxisLabel g), (showYAxisLabel g); simpl;
    eexists; eexists; reflexivity.
Qed.

Lemma extends_x_marks fuel g d a b c f : forall labelNum,
  extends (x_marks fuel g d a b c f labelNum).
Proof. induction fuel as [|fuel IH]; intro labelNum; simpl; extends_tac. apply IH. Qed.

Lemma extends_y_marks fuel g d a b c f : forall labelNum,
  extends (y_marks fuel g d a b c f labelNum).
Proof. induction fuel as [|fuel IH]; intro labelNum; simpl; extends_tac. apply IH. Qed.

Lemma extends_draw_marks fuel g d : extends (draw_marks fuel g d).
Proof.
  unfold draw_marks. extends_tac;
    first [apply extends_x_marks | apply extends_y_marks].
Qed.

Lemma draw_with_dims fuel g d window :
  dims g = Some d ->
  draw fuel g window =
  (draw_frame g d ;;; draw_marks fuel g d ;;; retD (g, d)).
Proof.
  intro H. unfold draw. rewrite H.
  unfold bindD at 1. unfold retD at 1. cbv beta iota. rewrite H. reflexivity.
Qed.

Lemma extends_drawBoxplot data x originY scale width colour lineColour :
  extends (BoxplotGraph.drawBoxplot data x originY scale width colour lineColour).
Proof. unfold BoxplotGraph.drawBoxplot. extends_tac. Qed.

(** The y marks cannot be planned on a plot of height zero: the number
    of marks aimed at is [floor(density * 0) = 0] and the division of
    the range by it raises. *)
Lemma y_plan_zero_height (g : t) (d : Dimensions) :
  graphHeight d == 0 ->
  div (maxY g - minY g)
      (inject_Z (floor (axisMarkerDensity g * graphHeight d)))
  = inl ZeroDivisionError.
Proof.
  intro H. apply div_zero.
  assert (E : axisMarkerDensity g * graphHeight d == 0) by (rewrite H; ring).
  unfold floor. rewrite E. reflexivity.
Qed.

Lemma x_plan_zero_width (g : t) (d : Dimensions) :
  graphWidth d == 0 ->
  div (maxX g - minX g)
      (inject_Z (floor (axisMarkerDensity g * graphWidth d)))
  = inl ZeroDivisionError.
Proof.
  intro H. apply div_zero.
  assert (E : axisMarkerDensity g * graphWidth d == 0) by (rewrite H; ring).
  unfold floor. rewrite E. reflexivity.
Qed.

Lemma bindD_assoc {A B C} (m : Draw A) (k1 : A -> Draw B) (k2 : B -> Draw C) log :
  bindD (bindD m k1) k2 log = bindD m (fun a => bindD (k1 a) k2) log.
Proof.
  unfold bindD. destruct (m log) as [log1 [[e|a]|]]; reflexivity.
Qed.

Lemma raises_lift {A} e : raises e (@lift A (inl e)).
Proof. intro log. reflexivity. Qed.

Lemma completes_draw_text t0 pos c font rot : completes (draw_text t0 pos c font rot).
Proof. intro log. exists tt. reflexivity. Qed.

Lemma completes_draw_frame g d : completes (draw_frame g d).
Proof. intro log. exists tt. rewrite draw_frame_log. reflexivity. Qed.

(** On a plot of height zero the axis marks are never completed; with
    category labels on the x axis the outcome is [ZeroDivisionError]. *)
Lemma draw_marks_zero_height fuel g d :
  graphHeight d == 0 ->
  never_completes (draw_marks fuel g d) /\
  (categoricalXAxis g = true -> xCategoricalLabels g <> None ->
   raises ZeroDivisionError (draw_marks fuel g d)).
Proof.
  intro H.
  assert (Hy : forall k : Q -> Draw unit,
             raises ZeroDivisionError
               (bindD (lift (div (maxY g - minY g)
                               (inject_Z (floor (axisMarkerDensity g * graphHeight d))))) k)).
  { intro k. apply raises_bind_l. rewrite (y_plan_zero_height g d H).
    apply raises_lift. }
  split.
  - unfold draw_marks. apply never_completes_bind_r. intros _.
    eapply raises_never_completes. apply Hy.
  - intros Ec Hl. unfold draw_marks. rewrite Ec.
    destruct (xCategoricalLabels g) as [labels|]; [|congruence].
    destruct (div_inv (graphWidth d) (inject_Z (Z.of_nat (List.length labels))) _ eq_refl)
      as [[_ E]|[_ E]]; rewrite E.
    + apply raises_bind_l, raises_bind_l, raises_lift.
    + apply raises_bind_r; [|intros _; apply Hy].
      apply completes_bind; [intro log; eexists; reflexivity|].
      intro deltaLabel. apply completes_for_enumerate.
      intros i label. apply completes_draw_text.
Qed.

Lemma draw_marks_zero_width fuel g d log :
  categoricalXAxis g = false -> graphWidth d == 0 ->
  draw_marks fuel g d log = (log, Some (inl ZeroDivisionError)).
Proof.
  intros Ec H. unfold draw_marks. rewrite Ec.
  rewrite (x_plan_zero_width g d H). reflexivity.
Qed.

Lemma extends_draw_boxes b g d : extends (BoxplotGraph.draw_boxes b g d).
Proof.
  unfold BoxplotGraph.draw_boxes.
  apply extends_bind; [apply extends_lift|]. intro boxWidth.
  apply extends_bind; [|intro; apply extends_ret].
  apply extends_for_enumerate. intros i dataset.
  apply extends_bind; [apply extends_lift|]. intro ci.
  apply extends_drawBoxplot.
Qed.

Lemma extends_draw_points s g d : extends (Scatterplot.draw_points s g d).
Proof. unfold Scatterplot.draw_points. extends_tac. Qed.

(** A chart's [draw], once the dimensions are set: the frame, then the
    marks, then the content. *)
Lemma draw_pipeline {A} fuel g d window (content : t * Dimensions -> Draw A) log :
  dims g = Some d ->
  bindD (draw fuel g window) content log =
  bindD (draw_frame g d)
    (fun _ => bindD (draw_marks fuel g d) (fun _ => content (g, d))) log.
Proof.
  intro H. rewrite (draw_with_dims fuel g d window H).
  unfold bindD, retD. rewrite draw_frame_log.
  destruct (draw_marks fuel g d (log ++ frame_cmds g d)) as [log1 [[e|u]|]];
    reflexivity.
Qed.

Lemma draw_pipeline_prefix {A} fuel g d window (content : t * Dimensions -> Draw A) log :
  dims g = Some d ->
  extends (content (g, d)) ->
  exists rest,
    fst (bindD (draw fuel g window) content log) = log ++ frame_cmds g d ++ rest.
Proof.
  intros H Hc. rewrite (draw_pipeline fuel g d window content log H).
  apply bind_prefix with (a := tt); [apply draw_frame_log|].
  apply extends_bind; [apply extends_draw_marks | intros _; exact Hc].
Qed.

(** With no border the plot area of a rectangle of height (width) zero
    has height (width) zero. *)
Lemma zero_rectangle_zero_plot g0 g d win :
  set_dimensions g0 win = inr g -> dims g = Some d -> borderWidth g0 == 0 ->
  (height d == 0 -> graphHeight d == 0) /\ (width d == 0 -> graphWidth d == 0).
Proof.
  unfold set_dimensions. intros H Hd Hb.
  destruct (_ : result (option Q * option Q)) as [e|xs]; [discriminate|].
  cbn [bind] in H. destruct (div _ _) as [e|ys]; [discriminate|].
  cbn [bind ret] in H. injection H as <-. cbn in Hd. injection Hd as <-. cbn.
  split; intro H0; rewrite H0, Hb; ring.
Qed.

(** C8 as stated fails.  A boxplot on a rectangle of height zero raises
    [ZeroDivisionError] only after eight calls were made, the first of
    them the border; a boxplot on a rectangle of width zero is drawn to
    the end, boxes of width zero included; a scatterplot on a rectangle
    of height zero raises after the frame and the x marks; and a series
    whose whisker search fails leaves the frame and the marks drawn. *)
Lemma degenerate_rectangle_not_refused :
  (exists b cmds,
     Sample.boxplot [Sample.series [1; 2; 2; 3; 4; 5; 50] 3] None None 400 0 = inr b /\
     BoxplotGraph.draw 10 b Sample.window [] = (cmds, Some (inl ZeroDivisionError)) /\
     List.length cmds = 8%nat /\
     hd_error cmds = Some (rect (0, 0, 0) 0 0 400 0)) /\
  (exists b cmds b',
     Sample.boxplot [Sample.series [1; 2; 2; 3; 4; 5; 50] 3] None None 0 400 = inr b /\
     BoxplotGraph.draw 10 b Sample.window [] = (cmds, Some (inr b')) /\
     List.length cmds = 25%nat) /\
  (exists s cmds,
     Sample.scatterplot 400 0 = inr s /\
     Scatterplot.draw 10 s Sample.window [] = (cmds, Some (inl ZeroDivisionError)) /\
     List.length cmds = 15%nat) /\
  (exists b cmds,
     Sample.boxplot [Sample.series [5; 5; 5] 5] (Some 10) (Some 0) 400 400 = inr b /\
     BoxplotGraph.draw 10 b Sample.window []
     = (cmds, Some (inl (ValueError NoValuesAboveThreshold))) /\
     List.length cmds = 16%nat).
Proof.
  split; [|split; [|split]].
  - eexists. eexists. split; [vm_compute; reflexivity|].
    split; [vm_compute; reflexivity|]. split; reflexivity.
  - eexists. eexists. eexists. split; [vm_compute; reflexivity|].
    split; [vm_compute; reflexivity|]. reflexivity.
  - eexists. eexists. split; [vm_compute; reflexivity|].
    split; [vm_compute; reflexivity|]. reflexivity.
  - eexists. eexists. split; [vm_compute; reflexivity|].
    split; [vm_compute; reflexivity|]. reflexivity.
Qed.

(** C8, amended.  No draw method checks for a degenerate rectangle, and
    the frame comes first: once the dimensions of a chart are set, its
    [draw] appends the frame (border, background, axes, title, axis
    labels) to the log before it plans a tick or computes a statistic,
    and the frame stays in the log whatever happens next.  On a plot
    area of height zero the boxplot then raises [ZeroDivisionError]
    while planning the y marks and the scatterplot never completes; on
    a plot area of width zero the scatterplot raises
    [ZeroDivisionError] right after the frame, while a boxplot can be
    drawn to the end.  With no border the plot area of a rectangle of
    height (width) zero has height (width) zero. *)
Theorem render_draws_frame_first (fuel : nat) (window : Surface) (log : list cmd) :
  (forall (b : BoxplotGraph.t) d,
     dims (BoxplotGraph.graph b) = Some d ->
     (exists rest,
        fst (BoxplotGraph.draw fuel b window log)
        = log ++ frame_cmds (BoxplotGraph.graph b) d ++ rest) /\
     (graphHeight d == 0 ->
      categoricalXAxis (BoxplotGraph.graph b) = true ->
      xCategoricalLabels (BoxplotGraph.graph b) <> None ->
        snd (BoxplotGraph.draw fuel b window log) = Some (inl ZeroDivisionError))) /\
  (forall (s : Scatterplot.t) d,
     dims (Scatterplot.graph s) = Some d ->
     (exists rest,
        fst (Scatterplot.draw fuel s window log)
        = log ++ frame_cmds (Scatterplot.graph s) d ++ rest) /\
     (graphHeight d == 0 ->
        forall r, snd (Scatterplot.draw fuel s window log) <> Some (inr r)) /\
     (graphWidth d == 0 ->
      categoricalXAxis (Scatterplot.graph s) = false ->
        Scatterplot.draw fuel s window log
        = (log ++ frame_cmds (Scatterplot.graph s) d, Some (inl ZeroDivisionError)))) /\
  (forall g d, exists tail,
     frame_cmds g d =
     rect (borderColour g) (x g) (y g) (width d) (height d)
     :: rect (bgColour g) (effectiveX d) (effectiveY d)
          (effectiveWidth d) (effectiveHeight d)
     :: tail) /\
  (forall g0 g d win,
     set_dimensions g0 win = inr g -> dims g = Some d -> borderWidth g0 == 0 ->
     (height d == 0 -> graphHeight d == 0) /\ (width d == 0 -> graphWidth d == 0)) /\
  (exists b d cmds b',
     Sample.boxplot [Sample.series [1; 2; 2; 3; 4; 5; 50] 3] None None 0 400 = inr b /\
     dims (BoxplotGraph.graph b) = Some d /\ graphWidth d == 0 /\
     BoxplotGraph.draw 10 b Sample.window [] = (cmds, Some (inr b'))).
Proof.
  split; [|split; [|split; [|split]]].
  - intros b d Hd. unfold BoxplotGraph.draw. split.
    + apply draw_pipeline_prefix; [exact Hd | apply extends_draw_boxes].
    + intros Hh Ec Hl. rewrite (draw_pipeline _ _ d _ _ _ Hd).
      apply raises_bind_r; [apply completes_draw_frame|]. intros _.
      apply raises_bind_l. apply (draw_marks_zero_height fuel _ d Hh); assumption.
  - intros s d Hd. unfold Scatterplot.draw. split; [|split].
    + apply draw_pipeline_prefix; [exact Hd | apply extends_draw_points].
    + intros Hh r. rewrite (draw_pipeline _ _ d _ _ _ Hd).
      apply never_completes_bind_r. intros _.
      apply never_completes_bind_l. apply (draw_marks_zero_height fuel _ d Hh).
    + intros Hw Ec. rewrite (draw_pipeline _ _ d _ _ _ Hd).
      unfold bindD at 1. rewrite draw_frame_log.
      unfold bindD. rewrite (draw_marks_zero_width fuel _ d _ Ec Hw). reflexivity.
  - intros g d. destruct (frame_cmds_head g d) as (font & tail & H).
    rewrite H. eexists. reflexivity.
  - intros g0 g d win. apply zero_rectangle_zero_plot.
  - eexists. eexists. eexists. eexists. split; [vm_compute; reflexivity|].
    split; [reflexivity|]. split; [reflexivity|]. vm_compute. reflexivity.
Qed.

Lemma render_draws_frame_first_witness :
  exists b,
    Sample.boxplot [Sample.series [1; 2; 2; 3; 4; 5; 50] 3] None None 400 0 = inr b /\
    snd (BoxplotGraph.draw 10 b Sample.window []) = Some (inl ZeroDivisionError).
Proof.
  destruct (Sample.boxplot [Sample.series [1; 2; 2; 3; 4; 5; 50] 3] None None 400 0)
    as [e|b] eqn:E; [vm_compute in E; discriminate|].
  exists b. split; [reflexivity|].
  assert (H : exists d, dims (BoxplotGraph.graph b) = Some d /\
                        graphHeight d == 0 /\
                        categoricalXAxis (BoxplotGraph.graph b) = true /\
                        xCategoricalLabels (BoxplotGraph.graph b) <> None).
  { vm_compute in E. injection E as <-. eexists.
    split; [reflexivity|]. split; [reflexivity|]. split; [reflexivity | discriminate]. }
  destruct H as (d & Hd & Hh & Hc & Hl).
  exact (proj2 (proj1 (render_draws_frame_first 10 Sample.window []) b d Hd) Hh Hc Hl).
Defined.

End Pipeline.

(* ================================================================== *)
(** * Properties: median and constructor *)
(* ================================================================== *)

Section Median.

Lemma int_half_even (m h : Z) :
  m = (2 * h)%Z -> (1 <= h)%Z ->
  int (inject_Z m / 2 - (1#2)) = (h - 1)%Z /\
  int (inject_Z m / 2 + (1#2)) = h.
Proof.
  intros Hm H. unfold int. cbn. rewrite !Z.mul_1_r.
  split.
  - rewrite Z.quot_div_nonneg by lia.
    symmetry. apply Z.div_unique with (r := 2%Z); lia.
  - rewrite Z.quot_div_nonneg by lia.
    symmetry. apply Z.div_unique with (r := 2%Z); lia.
Qed.

Lemma int_half_odd (m h : Z) :
  m = (2 * h + 1)%Z -> (0 <= h)%Z -> int (inject_Z m / 2) = h.
Proof.
  intros Hm H. unfold int. cbn. rewrite !Z.mul_1_r.
  rewrite Z.quot_div_nonneg by lia.
  symmetry. apply Z.div_unique with (r := 1%Z); lia.
Qed.

Lemma median_empty : median [] = inl IndexError.
Proof. reflexivity. Qed.

Lemma median_even (data : list Q) (h : nat) :
  List.length data = (2 * h)%nat -> (1 <= h)%nat ->
  median data = inr ((nth (h - 1) (sort data) 0 + nth h (sort data) 0) / 2).
Proof.
  intros Hn Hh. unfold median. rewrite sort_length, Hn.
  replace (Z.of_nat (2 * h) mod 2 =? 0)%Z with true.
  2:{ symmetry. apply Z.eqb_eq. rewrite Nat2Z.inj_mul, Z.mul_comm.
      apply Z.mod_mul. discriminate. }
  destruct (int_half_even (Z.of_nat (2 * h)) (Z.of_nat h) ltac:(lia) ltac:(lia))
    as [-> ->].
  replace (Z.of_nat h - 1)%Z with (Z.of_nat (h - 1)) by lia.
  rewrite (index_nat (sort data) (h - 1) 0) by (rewrite sort_length; lia).
  cbn [bind].
  rewrite (index_nat (sort data) h 0) by (rewrite sort_length; lia).
  reflexivity.
Qed.

Lemma median_odd (data : list Q) (h : nat) :
  List.length data = (2 * h + 1)%nat ->
  median data = inr (nth h (sort data) 0).
Proof.
  intros Hn. unfold median. rewrite sort_length, Hn.
  replace (Z.of_nat (2 * h + 1) mod 2 =? 0)%Z with false.
  2:{ symmetry. apply Z.eqb_neq.
      rewrite Nat2Z.inj_add, Nat2Z.inj_mul, Z.add_comm, Z.mul_comm, Z.mod_add
        by discriminate.
      discriminate. }
  rewrite (int_half_odd _ (Z.of_nat h)) by lia.
  apply index_nat. rewrite sort_length. lia.
Qed.

End Median.

(* ================================================================== *)
(** * Properties: the order of the data does not matter *)
(* ================================================================== *)

Section OrderIrrelevant.

Lemma count_le_perm v l l' :
  Permutation l l' -> count_le v l = count_le v l'.
Proof.
  unfold count_le. induction 1 as [|a l l' _ IH|a b l|l l' l'' _ IH1 _ IH2]; simpl.
  - reflexivity.
  - destruct (Qle_bool a v); simpl; congruence.
  - destruct (Qle_bool a v), (Qle_bool b v); reflexivity.
  - congruence.
Qed.

Lemma count_le_none v l :
  Forall (fun a => v < a) l -> count_le v l = 0%nat.
Proof.
  unfold count_le. induction 1 as [|a l Ha _ IH]; simpl; [reflexivity|].
  apply Qle_bool_false in Ha. rewrite Ha. exact IH.
Qed.

Lemma sorted_count_ge s :
  StronglySorted Qle s ->
  forall i, (i < List.length s)%nat -> (i + 1 <= count_le (nth i s 0%Q) s)%nat.
Proof.
  induction 1 as [|a s Hs IH Ha]; intros i Hi; simpl in Hi; [lia|].
  destruct i as [|i]; unfold count_le; simpl.
  - rewrite (proj2 (Qle_bool_iff a a) (Qle_refl a)). simpl. lia.
  - assert (Hle : a <= nth i s 0).
    { rewrite Forall_forall in Ha. apply Ha, nth_In. lia. }
    apply Qle_bool_iff in Hle. rewrite Hle. simpl.
    specialize (IH i ltac:(lia)). unfold count_le in IH. lia.
Qed.

Lemma sorted_count_le s v :
  StronglySorted Qle s ->
  forall i, (i < List.length s)%nat -> v < nth i s 0 -> (count_le v s <= i)%nat.
Proof.
  induction 1 as [|a s Hs IH Ha]; intros i Hi Hv; simpl in Hi; [lia|].
  destruct i as [|i]; simpl in Hv.
  - rewrite count_le_none; [lia|].
    constructor; [exact Hv|].
    rewrite Forall_forall in *. intros b Hb.
    eapply Qlt_le_trans; [exact Hv | apply Ha, Hb].
  - specialize (IH i ltac:(lia) Hv).
    unfold count_le in *. simpl. destruct (Qle_bool a v); simpl; lia.
Qed.

(** Two sorted arrangements of the same values agree position by
    position. *)
Lemma sorted_perm_nth s s' :
  StronglySorted Qle s -> StronglySorted Qle s' -> Permutation s s' ->
  forall i, (i < List.length s)%nat -> nth i s 0 == nth i s' 0.
Proof.
  intros Hs Hs' Hp i Hi.
  assert (Hi' : (i < List.length s')%nat)
    by (rewrite <- (Permutation_length Hp); exact Hi).
  destruct (Q_dec (nth i s 0) (nth i s' 0)) as [[Hlt|Hgt]|Heq]; [| |exact Heq].
  - exfalso.
    pose proof (sorted_count_ge s Hs i Hi) as H1.
    pose proof (sorted_count_le s' _ Hs' i Hi' Hlt) as H2.
    rewrite (count_le_perm _ _ _ Hp) in H1. lia.
  - exfalso.
    pose proof (sorted_count_ge s' Hs' i Hi') as H1.
    pose proof (sorted_count_le s _ Hs i Hi Hgt) as H2.
    rewrite <- (count_le_perm _ _ _ Hp) in H1. lia.
Qed.

Lemma sort_perm_nth l l' :
  Permutation l l' ->
  forall i, (i < List.length l)%nat -> nth i (sort l) 0 == nth i (sort l') 0.
Proof.
  intros Hp i Hi.
  apply sorted_perm_nth; try apply sort_sorted.
  - eapply perm_trans; [apply Permutation_sym, sort_perm|].
    eapply perm_trans; [exact Hp | apply sort_perm].
  - rewrite sort_length. exact Hi.
Qed.

Lemma median_nonempty (data : list Q) :
  data <> [] ->
  exists h, (h < List.length data)%nat /\
    ((List.length data = (2 * h)%nat /\ (1 <= h)%nat /\
      median data = inr ((nth (h - 1) (sort data) 0 + nth h (sort data) 0) / 2)) \/
     (List.length data = (2 * h + 1)%nat /\
      median data = inr (nth h (sort data) 0))).
Proof.
  intro Hne.
  assert (Hlen : (1 <= List.length data)%nat)
    by (destruct data; [congruence | simpl; lia]).
  pose proof (Nat.div_mod_eq (List.length data) 2) as Hdm.
  pose proof (Nat.mod_upper_bound (List.length data) 2 ltac:(lia)) as Hm.
  exists (List.length data / 2)%nat.
  set (h := (List.length data / 2)%nat) in *.
  split; [lia|].
  destruct (Nat.eq_dec (List.length data mod 2) 0) as [E|E].
  - left. assert (Hn : List.length data = (2 * h)%nat) by lia.
    split; [exact Hn|]. split; [lia|]. apply median_even; lia.
  - right. assert (Hn : List.length data = (2 * h + 1)%nat) by lia.
    split; [exact Hn|]. apply median_odd. exact Hn.
Qed.

Lemma median_spec_aux (data : list Q) :
  (data = [] -> median data = inl IndexError) /\
  (data <> [] -> exists m, median data = inr m).
Proof.
  split; [intros ->; reflexivity|].
  intro Hne. destruct (median_nonempty data Hne) as (h & _ & [(_ & _ & H)|(_ & H)]);
    eexists; exact H.
Qed.

Lemma sorted_extremes (data : list Q) (i : nat) :
  (i < List.length data)%nat ->
  In (nth 0 (sort data) 0) data /\ In (nth (List.length data - 1) (sort data) 0) data /\
  nth 0 (sort data) 0 <= nth i (sort data) 0 /\
  nth i (sort data) 0 <= nth (List.length data - 1) (sort data) 0.
Proof.
  intro Hi.
  pose proof (sort_length data) as Hl.
  pose proof (sort_sorted data) as Hs.
  split; [apply sort_In, nth_In; lia|].
  split; [apply sort_In, nth_In; lia|].
  split; apply (sorted_nth_le (sort data) Hs); lia.
Qed.

(** X1.  [median] raises [IndexError] on an empty list; on a non-empty
    one it returns the middle element of the sorted values when their
    number is odd, the average of the two central ones when it is even,
    and in both cases a number between the smallest and the largest
    value. *)
Theorem median_spec (data : list Q) :
  (data = [] -> median data = inl IndexError) /\
  (data <> [] ->
     let s := sort data in
     let n := List.length data in
     ((n mod 2 = 0)%nat ->
        median data = inr ((nth (n / 2 - 1) s 0 + nth (n / 2) s 0) / 2)) /\
     ((n mod 2 = 1)%nat -> median data = inr (nth (n / 2) s 0)) /\
     exists m a b,
       median data = inr m /\ In a data /\ In b data /\ a <= m /\ m <= b).
Proof.
  split; [intros ->; reflexivity|].
  intros Hne s n.
  destruct (median_nonempty data Hne) as (h & Hh & Hcase).
  fold n in Hh, Hcase. fold s in Hcase.
  assert (Hdiv : (n = 2 * h -> n / 2 = h)%nat).
  { intros ->. rewrite Nat.mul_comm. apply Nat.div_mul. lia. }
  assert (Hdiv' : (n = 2 * h + 1 -> n / 2 = h /\ n mod 2 = 1)%nat).
  { intros E. pose proof (Nat.div_mod_eq n 2).
    pose proof (Nat.mod_upper_bound n 2 ltac:(lia)). lia. }
  assert (Hmod : (n = 2 * h -> n mod 2 = 0)%nat).
  { intros ->. rewrite Nat.mul_comm. apply Nat.Div0.mod_mul. }
  destruct Hcase as [(Hn & H1 & Hmed)|(Hn & Hmed)].
  - rewrite (Hdiv Hn). split; [intros _; exact Hmed|].
    split; [intro E; rewrite (Hmod Hn) in E; discriminate|].
    destruct (sorted_extremes data (h - 1) ltac:(unfold n in *; lia))
      as (Ha & Hb & Hlo1 & Hhi1).
    destruct (sorted_extremes data h ltac:(unfold n in *; lia))
      as (_ & _ & Hlo2 & Hhi2).
    fold s in Ha, Hb, Hlo1, Hhi1, Hlo2, Hhi2.
    eexists. exists (nth 0 s 0), (nth (List.length data - 1) s 0).
    split; [exact Hmed|]. split; [exact Ha|]. split; [exact Hb|].
    split.
    + apply Qle_shift_div_l; [reflexivity | lra].
    + apply Qle_shift_div_r; [reflexivity | lra].
  - destruct (Hdiv' Hn) as [-> Hm1].
    split; [intro E; rewrite Hm1 in E; discriminate|].
    split; [intros _; exact Hmed|].
    destruct (sorted_extremes data h ltac:(unfold n in *; lia))
      as (Ha & Hb & Hlo & Hhi).
    fold s in Ha, Hb, Hlo, Hhi.
    eexists. exists (nth 0 s 0), (nth (List.length data - 1) s 0).
    split; [exact Hmed|]. split; [exact Ha|]. split; [exact Hb|].
    split; assumption.
Qed.

Lemma median_spec_witness :
  median [7; 1; 5; 3] = inr ((3 + 5) / 2) /\ median [9; 2; 4] = inr 4.
Proof.
  split.
  - exact (proj1 (proj2 (median_spec [7; 1; 5; 3]) ltac:(discriminate)) eq_refl).
  - exact (proj1 (proj2 (proj2 (median_spec [9; 2; 4]) ltac:(discriminate))) eq_refl).
Defined.

(** X2.  A series cannot be empty: [DiscreteData] raises [IndexError]
    on an empty list (from [median]); on any other list it is built,
    with [size] the number of values and [median] their median at that
    moment. *)
Theorem DiscreteData_init_spec (data : list Q) (label units : string) :
  (data = [] -> DiscreteData_init data label units = inl IndexError) /\
  (data <> [] ->
     exists d,
       DiscreteData_init data label units = inr d /\
       dd_data d = data /\ dd_label d = label /\ dd_units d = units /\
       dd_size d = List.length data /\ median data = inr (dd_median d)).
Proof.
  split; [intros ->; reflexivity|].
  intro Hne. unfold DiscreteData_init.
  destruct (proj2 (median_spec_aux data) Hne) as (m & Hm).
  rewrite Hm. cbn. eexists. split; [reflexivity|]. repeat split.
Qed.

Lemma DiscreteData_init_spec_witness :
  DiscreteData_init [] EmptyString EmptyString = inl IndexError /\
  exists d, DiscreteData_init [4; 2] EmptyString EmptyString = inr d /\
            dd_size d = 2%nat.
Proof.
  split.
  - exact (proj1 (DiscreteData_init_spec [] EmptyString EmptyString) eq_refl).
  - destruct (proj2 (DiscreteData_init_spec [4; 2] EmptyString EmptyString)
                ltac:(discriminate)) as (d & H & _ & _ & _ & Hs & _).
    exists d. split; assumption.
Defined.

Lemma result_eq_avg a b a' b' :
  a == a' -> b == b' -> result_eq (inr ((a + b) / 2)) (inr ((a' + b') / 2)).
Proof. intros Ha Hb. simpl. rewrite Ha, Hb. reflexivity. Qed.

(** X3.  The order in which the values are given does not matter: two
    series holding the same values in any order have the same median
    and the same quartiles (or fail alike). *)
Theorem statistics_order_irrelevant (d d' : DiscreteData) :
  Permutation (dd_data d) (dd_data d') ->
  result_eq (median (dd_data d)) (median (dd_data d')) /\
  result_eq (quarterOne d) (quarterOne d') /\
  result_eq (quarterThree d) (quarterThree d').
Proof.
  intro Hp.
  pose proof (Permutation_length Hp) as Hlen.
  destruct (dd_data d) as [|x l] eqn:Ed.
  { apply Permutation_nil in Hp.
    unfold quarterOne, quarterThree. rewrite Ed, Hp. repeat split. }
  assert (Hne : dd_data d <> []) by (rewrite Ed; discriminate).
  assert (Hne' : dd_data d' <> []).
  { intro E. rewrite E in Hlen. discriminate. }
  rewrite <- Ed in Hp, Hlen |- *. clear Ed x l.
  assert (Hnth : forall i, (i < List.length (dd_data d))%nat ->
                   nth i (sort (dd_data d)) 0 == nth i (sort (dd_data d')) 0)
    by (apply sort_perm_nth, Hp).
  split; [|split].
  - destruct (median_nonempty _ Hne) as (h & Hh & Hc).
    destruct (median_nonempty _ Hne') as (h' & Hh' & Hc').
    rewrite <- Hlen in Hh', Hc'.
    destruct Hc as [(Hn & H1 & ->)|(Hn & ->)];
      destruct Hc' as [(Hn' & H1' & ->)|(Hn' & ->)]; try lia.
    + assert (h' = h) by lia. subst h'.
      apply result_eq_avg; apply Hnth; lia.
    + assert (h' = h) by lia. subst h'. apply Hnth. lia.
  - pose proof (quartile_bounds d Hne) as (B1 & B2 & B3).
    pose proof (quarterOne_exact d Hne) as A1.
    pose proof (quarterOne_average d Hne) as A2.
    pose proof (quarterOne_exact d' Hne') as A1'.
    pose proof (quarterOne_average d' Hne') as A2'.
    rewrite !sort_length in B1, B2, B3, A1, A2, A1', A2'.
    rewrite <- Hlen in A1', A2'.
    destruct (Nat.eq_dec ((List.length (dd_data d) - 1) mod 4) 0) as [E|E].
    + rewrite (A1 E), (A1' E). apply Hnth. lia.
    + destruct (B3 E). rewrite (A2 E), (A2' E).
      apply result_eq_avg; apply Hnth; lia.
  - pose proof (quartile_bounds d Hne) as (B1 & B2 & B3).
    pose proof (quarterThree_exact d Hne) as A1.
    pose proof (quarterThree_average d Hne) as A2.
    pose proof (quarterThree_exact d' Hne') as A1'.
    pose proof (quarterThree_average d' Hne') as A2'.
    rewrite !sort_length in B1, B2, B3, A1, A2, A1', A2'.
    rewrite <- Hlen in A1', A2'.
    destruct (Nat.eq_dec ((List.length (dd_data d) - 1) mod 4) 0) as [E|E].
    + rewrite (A1 E), (A1' E). apply Hnth. lia.
    + destruct (B3 E). rewrite (A2 E), (A2' E).
      apply result_eq_avg; apply Hnth; lia.
Qed.

Lemma statistics_order_irrelevant_witness :
  result_eq (quarterOne (Sample.series [3; 1; 2; 5; 4] 3))
            (quarterOne (Sample.series [1; 2; 3; 4; 5] 3)).
Proof.
  refine (proj1 (proj2 (statistics_order_irrelevant
                          (Sample.series [3; 1; 2; 5; 4] 3)
                          (Sample.series [1; 2; 3; 4; 5] 3) _))).
  simpl.
  apply perm_trans with (1 :: 3 :: 2 :: 5 :: 4 :: nil); [apply perm_swap|].
  apply perm_skip.
  apply perm_trans with (2 :: 3 :: 5 :: 4 :: nil); [apply perm_swap|].
  apply perm_skip, perm_skip, perm_swap.
Defined.

End OrderIrrelevant.

(* ================================================================== *)
(** * Properties: quartiles and whiskers at the edges *)
(* ================================================================== *)

Section QuartileEdges.

Import BoxplotGraph.

(** Each quartile is one sorted value or the average of two. *)
Lemma quartile_shapes (d : DiscreteData) :
  dd_data d <> [] ->
  let s := sort (dd_data d) in
  let n := List.length (dd_data d) in
  let k := ((n - 1) / 4)%nat in
  exists i j i' j',
    (i <= j < n)%nat /\ (i' <= j' < n)%nat /\ (i <= i')%nat /\ (j <= j')%nat /\
    (i = k /\ i' = 3 * k)%nat /\
    quarterOne d = inr (if (i =? j)%nat then nth i s 0
                        else (nth i s 0 + nth j s 0) / 2) /\
    quarterThree d = inr (if (i' =? j')%nat then nth i' s 0
                          else (nth i' s 0 + nth j' s 0) / 2).
Proof.
  intros Hne s n k.
  pose proof (quartile_bounds d Hne) as (B1 & B2 & B3).
  pose proof (quarterOne_exact d Hne) as A1.
  pose proof (quarterOne_average d Hne) as A2.
  pose proof (quarterThree_exact d Hne) as A3.
  pose proof (quarterThree_average d Hne) as A4.
  rewrite !sort_length in B1, B2, B3, A1, A2, A3, A4.
  fold n in B1, B2, B3, A1, A2, A3, A4. fold k in B1, B2, B3, A1, A2, A3, A4.
  fold s in A1, A2, A3, A4.
  destruct (Nat.eq_dec ((n - 1) mod 4) 0) as [E|E].
  - exists k, k, (3 * k)%nat, (3 * k)%nat. rewrite !Nat.eqb_refl.
    repeat split; try lia; [apply A1 | apply A3]; exact E.
  - destruct (B3 E) as [B4 B5].
    exists k, (k + 1)%nat, (3 * k)%nat, (3 * k + 1)%nat.
    replace (k =? k + 1)%nat with false by (symmetry; apply Nat.eqb_neq; lia).
    replace (3 * k =? 3 * k + 1)%nat with false
      by (symmetry; apply Nat.eqb_neq; lia).
    repeat split; try lia; [apply A2 | apply A4]; exact E.
Qed.

Lemma avg_between (lo hi a b : Q) :
  lo <= a -> lo <= b -> a <= hi -> b <= hi ->
  lo <= (a + b) / 2 /\ (a + b) / 2 <= hi.
Proof.
  intros. split.
  - apply Qle_shift_div_l; [reflexivity | lra].
  - apply Qle_shift_div_r; [reflexivity | lra].
Qed.

Lemma avg_le (a b a' b' : Q) :
  a <= a' -> b <= b' -> (a + b) / 2 <= (a' + b') / 2.
Proof.
  intros. unfold Qdiv. apply Qmult_le_compat_r; [lra | discriminate].
Qed.

Lemma quartiles_ordered_in_range_aux (d : DiscreteData) :
  dd_data d <> [] ->
  exists q1 q3 lo hi,
    quarterOne d = inr q1 /\ quarterThree d = inr q3 /\
    In lo (dd_data d) /\ In hi (dd_data d) /\
    lo <= q1 /\ q1 <= q3 /\ q3 <= hi.
Proof.
  intro Hne.
  destruct (quartile_shapes d Hne)
    as (i & j & i' & j' & Hij & Hij' & Hii & Hjj & _ & H1 & H3).
  set (s := sort (dd_data d)) in *.
  set (n := List.length (dd_data d)) in *.
  pose proof (sort_sorted (dd_data d)) as Hs. fold s in Hs.
  assert (Hl : List.length s = n) by apply sort_length.
  assert (Hnth : forall a b, (a <= b < n)%nat -> nth a s 0 <= nth b s 0).
  { intros a b Hab. apply (sorted_nth_le s Hs). lia. }
  eexists. eexists. exists (nth 0 s 0), (nth (n - 1) s 0).
  split; [exact H1|]. split; [exact H3|].
  split; [apply sort_In, nth_In; fold s; lia|].
  split; [apply sort_In, nth_In; fold s; lia|].
  assert (Hq1 : nth 0 s 0 <= (if (i =? j)%nat then nth i s 0
                              else (nth i s 0 + nth j s 0) / 2)).
  { destruct (i =? j)%nat; [apply Hnth; lia|].
    apply (avg_between (nth 0 s 0) (nth (n - 1) s 0)); apply Hnth; lia. }
  assert (Hq3 : (if (i' =? j')%nat then nth i' s 0
                 else (nth i' s 0 + nth j' s 0) / 2) <= nth (n - 1) s 0).
  { destruct (i' =? j')%nat; [apply Hnth; lia|].
    apply (avg_between (nth 0 s 0) (nth (n - 1) s 0)); apply Hnth; lia. }
  assert (Hq : (if (i =? j)%nat then nth i s 0 else (nth i s 0 + nth j s 0) / 2)
               <= (if (i' =? j')%nat then nth i' s 0
                   else (nth i' s 0 + nth j' s 0) / 2)).
  { destruct (i =? j)%nat eqn:E, (i' =? j')%nat eqn:E'.
    - apply Hnth. lia.
    - apply Nat.eqb_eq in E. subst j.
      apply (avg_between (nth i s 0) (nth (n - 1) s 0)); apply Hnth; lia.
    - apply Nat.eqb_eq in E'. subst j'.
      apply (avg_between (nth 0 s 0) (nth i' s 0)); apply Hnth; lia.
    - apply avg_le; apply Hnth; lia. }
  split; [exact Hq1|]. split; [exact Hq|]. exact Hq3.
Qed.


(** X4.  On a non-empty series the quartiles are ordered and stay
    inside the data: smallest value <= Q1 <= Q3 <= largest value; the
    interquartile range is never negative. *)
Theorem quartiles_ordered_in_range (d : DiscreteData) :
  dd_data d <> [] ->
  exists q1 q3 lo hi,
    quarterOne d = inr q1 /\ quarterThree d = inr q3 /\
    In lo (dd_data d) /\ In hi (dd_data d) /\
    (forall v, In v (dd_data d) -> lo <= v /\ v <= hi) /\
    lo <= q1 /\ q1 <= q3 /\ q3 <= hi /\ 0 <= q3 - q1.
Proof.
  intro Hne.
  destruct (quartile_shapes d Hne)
    as (i & j & i' & j' & Hij & Hij' & Hii & Hjj & _ & H1 & H3).
  set (s := sort (dd_data d)) in *.
  set (n := List.length (dd_data d)) in *.
  pose proof (sort_sorted (dd_data d)) as Hs. fold s in Hs.
  assert (Hl : List.length s = n) by apply sort_length.
  assert (Hnth : forall a b, (a <= b < n)%nat -> nth a s 0 <= nth b s 0).
  { intros a b Hab. apply (sorted_nth_le s Hs). lia. }
  eexists. eexists. exists (nth 0 s 0), (nth (n - 1) s 0).
  split; [exact H1|]. split; [exact H3|].
  split; [apply sort_In, nth_In; fold s; lia|].
  split; [apply sort_In, nth_In; fold s; lia|].
  split.
  { intros v Hv. apply sort_In in Hv. fold s in Hv.
    destruct (In_nth _ _ 0 Hv) as (m & Hm & <-).
    split; apply Hnth; lia. }
  assert (Hq1 : nth 0 s 0 <= (if (i =? j)%nat then nth i s 0
                              else (nth i s 0 + nth j s 0) / 2)).
  { destruct (i =? j)%nat; [apply Hnth; lia|].
    apply (avg_between (nth 0 s 0) (nth (n - 1) s 0)); apply Hnth; lia. }
  assert (Hq3 : (if (i' =? j')%nat then nth i' s 0
                 else (nth i' s 0 + nth j' s 0) / 2) <= nth (n - 1) s 0).
  { destruct (i' =? j')%nat; [apply Hnth; lia|].
    apply (avg_between (nth 0 s 0) (nth (n - 1) s 0)); apply Hnth; lia. }
  assert (Hq : (if (i =? j)%nat then nth i s 0 else (nth i s 0 + nth j s 0) / 2)
               <= (if (i' =? j')%nat then nth i' s 0
                   else (nth i' s 0 + nth j' s 0) / 2)).
  { destruct (i =? j)%nat eqn:E, (i' =? j')%nat eqn:E'.
    - apply Hnth. lia.
    - apply Nat.eqb_eq in E. subst j.
      apply (avg_between (nth i s 0) (nth (n - 1) s 0)); apply Hnth; lia.
    - apply Nat.eqb_eq in E'. subst j'.
      apply (avg_between (nth 0 s 0) (nth i' s 0)); apply Hnth; lia.
    - apply avg_le; apply Hnth; lia. }
  split; [exact Hq1|]. split; [exact Hq|]. split; [exact Hq3|]. lra.
Qed.

Lemma quartiles_ordered_in_range_witness :
  exists q1 q3,
    quarterOne (Sample.series [8; 1; 6; 3; 9; 2] 4) = inr q1 /\
    quarterThree (Sample.series [8; 1; 6; 3; 9; 2] 4) = inr q3 /\ q1 <= q3.
Proof.
  destruct (quartiles_ordered_in_range (Sample.series [8; 1; 6; 3; 9; 2] 4)
              ltac:(discriminate))
    as (q1 & q3 & lo & hi & H1 & H3 & _ & _ & _ & _ & Hle & _).
  exists q1, q3. repeat split; assumption.
Defined.

(** X5.  With at most four values [k = floor((n - 1) / 4)] is 0, so
    both quartiles read the same positions: the third quartile equals
    the first and the box has no height. *)
Theorem quartiles_coincide_up_to_four (d : DiscreteData) :
  dd_data d <> [] -> (List.length (dd_data d) <= 4)%nat ->
  quarterThree d = quarterOne d /\
  exists q, quarterOne d = inr q /\
            (List.length (dd_data d) = 1%nat -> q = nth 0 (sort (dd_data d)) 0) /\
            ((2 <= List.length (dd_data d))%nat ->
             q = (nth 0 (sort (dd_data d)) 0 + nth 1 (sort (dd_data d)) 0) / 2).
Proof.
  intros Hne Hlen.
  pose proof (quarterOne_exact d Hne) as A1.
  pose proof (quarterOne_average d Hne) as A2.
  pose proof (quarterThree_exact d Hne) as A3.
  pose proof (quarterThree_average d Hne) as A4.
  rewrite !sort_length in A1, A2, A3, A4.
  assert (Hpos : (1 <= List.length (dd_data d))%nat)
    by (destruct (dd_data d); [congruence | simpl; lia]).
  assert (Hk : ((List.length (dd_data d) - 1) / 4 = 0)%nat)
    by (apply Nat.div_small; lia).
  rewrite Hk in A1, A2, A3, A4. cbn [Nat.mul Nat.add] in A1, A2, A3, A4.
  destruct (Nat.eq_dec ((List.length (dd_data d) - 1) mod 4) 0) as [E|E].
  - rewrite (A1 E), (A3 E). split; [reflexivity|].
    eexists. split; [reflexivity|]. split; [reflexivity|].
    intro H2. exfalso. rewrite Nat.mod_small in E by lia. lia.
  - rewrite (A2 E), (A4 E). split; [reflexivity|].
    eexists. split; [reflexivity|]. split; [|reflexivity].
    intro H1. exfalso. apply E. rewrite H1. reflexivity.
Qed.

Lemma quartiles_coincide_up_to_four_witness :
  quarterThree (Sample.series [1; 2; 3; 4] (5#2))
  = quarterOne (Sample.series [1; 2; 3; 4] (5#2)).
Proof.
  refine (proj1 (quartiles_coincide_up_to_four (Sample.series [1; 2; 3; 4] (5#2)) _ _)).
  - discriminate.
  - simpl. lia.
Defined.

End QuartileEdges.

Section WhiskerEdges.

Import BoxplotGraph.

(** When every value is above the bound the scan stops at index 0 and
    [valuesCopy[0 - 1]] is the last element of the sorted copy. *)
Lemma vbt_below_wraps (bound : Q) (values : list Q) :
  values <> [] ->
  (forall v, In v values -> bound < v) ->
  value_before_threshold bound values true
  = inr (nth (List.length values - 1) (sort values) 0).
Proof.
  intros Hne Hall.
  assert (Hlen : (0 < List.length (sort values))%nat).
  { rewrite sort_length. destruct values; [congruence | simpl; lia]. }
  assert (Hne' : sort values <> [])
    by (intro H0; rewrite H0 in Hlen; simpl in Hlen; lia).
  unfold value_before_threshold.
  pose proof (vbt_scan bound values) as Hs.
  destruct (vbt_loop bound (sort values) false 0 (sort values)) as [r|] eqn:E.
  - destruct Hs as (i & Hi & Hlow & _ & Hr). rewrite (Hr true). simpl Z.b2z.
    destruct i as [|i].
    + change (Z.of_nat 0 - 1)%Z with (-1)%Z.
      rewrite (index_last (sort values) 0 Hne'), sort_length. reflexivity.
    + exfalso. specialize (Hlow 0%nat ltac:(lia)).
      apply (Qlt_not_le bound (nth 0 (sort values) 0)); [|exact Hlow].
      apply Hall, sort_In, nth_In. exact Hlen.
  - exfalso. destruct Hs as (Hle & _).
    destruct values as [|v values]; [congruence|].
    apply (Qlt_not_le bound v); [apply Hall | apply Hle]; left; reflexivity.
Qed.

(** X6.  Edge behaviour of [value_before_threshold].  On an empty list
    the search from above ([belowThreshold = True]) raises [IndexError]
    and the search from below raises [ValueError].  On a non-empty list
    the search from above never raises; when every value is above the
    bound it returns the largest value of the list, a value that is
    not below the threshold. *)
Theorem value_before_threshold_edges (bound : Q) (values : list Q) :
  value_before_threshold bound [] true = inl IndexError /\
  value_before_threshold bound [] false = inl (ValueError NoValuesAboveThreshold) /\
  (values <> [] ->
     exists m, value_before_threshold bound values true = inr m /\ In m values) /\
  (values <> [] -> (forall v, In v values -> bound < v) ->
     exists m, value_before_threshold bound values true = inr m /\
               In m values /\ bound < m /\ forall w, In w values -> w <= m).
Proof.
  split; [reflexivity|]. split; [reflexivity|]. split.
  - apply vbt_below_total.
  - intros Hne Hall. rewrite (vbt_below_wraps bound values Hne Hall).
    assert (Hlen : (0 < List.length values)%nat)
      by (destruct values; [congruence | simpl; lia]).
    eexists. split; [reflexivity|].
    assert (Hin : In (nth (List.length values - 1) (sort values) 0) values)
      by (apply sort_In, nth_In; rewrite sort_length; lia).
    split; [exact Hin|]. split; [apply Hall, Hin|].
    intros w Hw. apply sort_In in Hw.
    destruct (In_nth _ _ 0 Hw) as (j & Hj & <-).
    rewrite sort_length in Hj.
    apply (sorted_nth_le (sort values) (sort_sorted values)).
    rewrite sort_length. lia.
Qed.

Lemma value_before_threshold_edges_witness :
  exists m, value_before_threshold 0 [3; 9; 4] true = inr m /\
            In m [3; 9; 4] /\ 0 < m /\ forall w, In w [3; 9; 4] -> w <= m.
Proof.
  refine (proj2 (proj2 (proj2 (value_before_threshold_edges 0 [3; 9; 4]))) _ _).
  - discriminate.
  - intros v Hv. simpl in Hv.
    repeat (destruct Hv as [<-|Hv]; [reflexivity|]). destruct Hv.
Defined.

(** The quartiles of a series whose values all equal [c] equal [c]. *)
Lemma quartiles_constant (d : DiscreteData) (c : Q) :
  dd_data d <> [] -> (forall v, In v (dd_data d) -> v == c) ->
  exists q1 q3, quarterOne d = inr q1 /\ quarterThree d = inr q3 /\
                q1 == c /\ q3 == c.
Proof.
  intros Hne Hc.
  destruct (quartiles_ordered_in_range_aux d Hne)
    as (q1 & q3 & lo & hi & H1 & H3 & Hlo & Hhi & Hq1 & Hq & Hq3).
  exists q1, q3. split; [exact H1|]. split; [exact H3|].
  pose proof (Hc lo Hlo). pose proof (Hc hi Hhi). split; lra.
Qed.

(** X7.  A series whose values are all equal, a single value included,
    cannot be drawn as a boxplot: both quartiles equal the value, the
    lower cutoff too, no value lies above it and the lower whisker
    search raises [ValueError]. *)
Theorem boxplot_constant_series_fails (d : DiscreteData) (c : Q) :
  dd_data d <> [] -> (forall v, In v (dd_data d) -> v == c) ->
  get_values d = inl (ValueError NoValuesAboveThreshold) /\
  forall x originY scale width colour lineColour log,
    drawBoxplot d x originY scale width colour lineColour log
    = (log, Some (inl (ValueError NoValuesAboveThreshold))).
Proof.
  intros Hne Hc.
  destruct (quartiles_constant d c Hne Hc) as (q1 & q3 & H1 & H3 & E1 & E3).
  assert (Hg : get_values d = inl (ValueError NoValuesAboveThreshold)).
  { unfold get_values. rewrite H1, H3. cbn [bind].
    rewrite whisker_bounds_unfold.
    rewrite vbt_above_missing; [reflexivity|].
    intros v Hv. rewrite (Hc v Hv), E1, E3. lra. }
  split; [exact Hg|].
  intros. unfold drawBoxplot, bindD, lift. rewrite Hg. reflexivity.
Qed.

Lemma boxplot_constant_series_fails_witness :
  get_values (Sample.series [5] 5) = inl (ValueError NoValuesAboveThreshold) /\
  get_values (Sample.series [2; 2; 2] 2) = inl (ValueError NoValuesAboveThreshold).
Proof.
  split.
  - refine (proj1 (boxplot_constant_series_fails (Sample.series [5] 5) 5 _ _)).
    + discriminate.
    + intros v [<-|[]]. reflexivity.
  - refine (proj1 (boxplot_constant_series_fails (Sample.series [2; 2; 2] 2) 2 _ _)).
    + discriminate.
    + intros v Hv. simpl in Hv.
      repeat (destruct Hv as [<-|Hv]; [reflexivity|]). destruct Hv.
Defined.

End WhiskerEdges.

(* ================================================================== *)
(** * Properties: tick intervals, bounds *)
(* ================================================================== *)

Section TickBounds.

(** X8.  [next_lowest_decimultiple] raises [ValueError] (math domain
    error, from [math.log10]) when [r] is not positive.  Otherwise,
    whatever power of ten [p] and normalised bound [m] its first two
    lines leave, the loop picks the largest of the multiples that is at
    most [m], and 1 when there is none, and the interval is that
    multiple times [10^p].  With the multiples 1, 2, 5 the interval is
    1, 2 or 5 times [10^p] and positive; when [1 <= m] it is at most
    [m * 10^p], and more than two fifths of it if also [m < 10]; when
    [m < 1] it is [10^p], above [m * 10^p]. *)
Theorem decimultiple_from_spec (p : Z) (m : Q) :
  (forall r multiples, r <= 0 ->
     next_lowest_decimultiple r multiples = inl (ValueError MathDomainError)) /\
  (forall multiples, exists c,
     decimultiple_from p m multiples = c * 10 ^ p /\
     ((In c multiples /\ c <= m /\
       forall c', In c' multiples -> c' <= m -> c' <= c) \/
      (c = 1 /\ forall c', In c' multiples -> m < c'))) /\
  (exists c,
     decimultiple_from p m [1; 2; 5] = c * 10 ^ p /\
     (c = 1 \/ c = 2 \/ c = 5) /\ 0 < c * 10 ^ p /\
     (1 <= m -> c <= m /\ c * 10 ^ p <= m * 10 ^ p) /\
     (1 <= m -> m < 10 -> m < (5#2) * c) /\
     (m < 1 -> c = 1 /\ m * 10 ^ p < c * 10 ^ p)).
Proof.
  pose proof (pow10_pos p) as Pp.
  split; [|split].
  - intros r multiples H. unfold next_lowest_decimultiple.
    rewrite (floor_log10_nonpositive r H). reflexivity.
  - intro multiples. unfold decimultiple_from.
    exists (first_multiple m (sort_reverse multiples) 1). split; [reflexivity|].
    destruct (first_multiple_spec m 1 (sort_reverse multiples)
                (sort_reverse_sorted multiples)) as [(Hin & Hle & Hmax)|(Heq & Hall)].
    + left. split; [apply sort_reverse_In; exact Hin|]. split; [exact Hle|].
      intros c' Hc'. apply Hmax. apply sort_reverse_In. exact Hc'.
    + right. split; [exact Heq|]. intros c' Hc'. apply Hall.
      apply sort_reverse_In. exact Hc'.
  - unfold decimultiple_from.
    change (sort_reverse [1; 2; 5]) with [5; 2; 1]. cbn [first_multiple].
    destruct (Qle_bool 5 m) eqn:E5; [|destruct (Qle_bool 2 m) eqn:E2;
                                       [|destruct (Qle_bool 1 m) eqn:E1]].
    + apply Qle_bool_iff in E5. exists 5. split; [reflexivity|].
      split; [auto|]. split; [apply Qmult_lt_0_compat; [reflexivity | exact Pp]|].
      split; [|split; [intros; lra | intro H; lra]].
      intros _. split; [exact E5 | apply Qmult_le_compat_r; [exact E5 | lra]].
    + apply Qle_bool_false in E5. apply Qle_bool_iff in E2.
      exists 2. split; [reflexivity|]. split; [auto|].
      split; [apply Qmult_lt_0_compat; [reflexivity | exact Pp]|].
      split; [|split; [intros; lra | intro H; lra]].
      intros _. split; [exact E2 | apply Qmult_le_compat_r; [exact E2 | lra]].
    + apply Qle_bool_false in E5. apply Qle_bool_false in E2.
      apply Qle_bool_iff in E1.
      exists 1. split; [reflexivity|]. split; [auto|].
      split; [apply Qmult_lt_0_compat; [reflexivity | exact Pp]|].
      split; [|split; [intros; lra | intro H; lra]].
      intros _. split; [exact E1 | apply Qmult_le_compat_r; [exact E1 | lra]].
    + apply Qle_bool_false in E1.
      exists 1. split; [reflexivity|]. split; [auto|].
      split; [apply Qmult_lt_0_compat; [reflexivity | exact Pp]|].
      split; [intro H; lra|]. split; [intro H; lra|].
      intros _. split; [reflexivity|]. apply Qmult_lt_compat_r; assumption.
Qed.

End TickBounds.

(* ================================================================== *)
(** * Properties: the fitted line *)
(* ================================================================== *)

Section FittedLine.

(** What a successful call of [linear_regression] has computed. *)
Lemma linear_regression_inv (xs ys : list Q) (slope intercept : Q) :
  linear_regression xs ys = inr (slope, intercept) ->
  List.length xs = List.length ys /\ ~ spec_denominator xs == 0 /\
  slope == spec_slope xs ys /\ intercept == spec_intercept xs ys.
Proof.
  unfold linear_regression.
  destruct (List.length xs =? List.length ys)%nat eqn:El; [|discriminate].
  apply Nat.eqb_eq in El. cbn [negb].
  destruct (sumProducts_ok xs ys El) as (sxy & Exy & Hxy).
  destruct (sumProducts_ok xs xs eq_refl) as (sxx & Exx & Hxx).
  rewrite Exy, Exx. cbn [bind].
  assert (Hden : inject_Z (Z.of_nat (List.length xs)) * sxx - sum xs ^ 2
                 == spec_denominator xs).
  { unfold spec_denominator, count. rewrite Hxx, sum_Sigma. simpl. ring. }
  match goal with |- context [div ?a ?b] =>
    destruct (div_inv a b _ eq_refl) as [[Hz ->]|[Hnz ->]] end;
    cbn [bind]; [discriminate|].
  match goal with |- context [div ?a ?b] =>
    destruct (div_inv a b _ eq_refl) as [[Hz' ->]|[Hnz' ->]] end;
    cbn [bind ret]; [discriminate|].
  intro H. injection H as <- <-.
  split; [exact El|]. split; [rewrite <- Hden; exact Hnz|].
  unfold spec_slope, spec_intercept.
  rewrite <- Hden, Hxy, Hxx, !sum_Sigma. unfold count. split; reflexivity.
Qed.

Lemma linear_regression_ok (xs ys : list Q) :
  List.length xs = List.length ys -> ~ spec_denominator xs == 0 ->
  exists slope intercept, linear_regression xs ys = inr (slope, intercept).
Proof.
  intros El Hnz. unfold linear_regression.
  rewrite El, Nat.eqb_refl. cbn [negb].
  destruct (sumProducts_ok xs ys El) as (sxy & Exy & Hxy).
  destruct (sumProducts_ok xs xs eq_refl) as (sxx & Exx & Hxx).
  rewrite Exy, Exx. cbn [bind].
  assert (Hden : ~ inject_Z (Z.of_nat (List.length ys)) * sxx - sum xs ^ 2 == 0).
  { intro H. apply Hnz. rewrite <- H. unfold spec_denominator, count.
    rewrite Hxx, sum_Sigma, El. simpl. ring. }
  rewrite !div_ok by exact Hden. cbn [bind ret].
  eexists. eexists. reflexivity.
Qed.

(** The normal equations: the residuals of the fitted line sum to zero
    and are orthogonal to the abscissas. *)
Lemma normal_equations (xs ys : list Q) :
  ~ spec_denominator xs == 0 ->
  count xs * spec_intercept xs ys + spec_slope xs ys * Sigma xs == Sigma ys /\
  spec_intercept xs ys * Sigma xs + spec_slope xs ys * SigmaProd xs xs
  == SigmaProd xs ys.
Proof.
  intro Hnz. unfold spec_slope, spec_intercept, spec_denominator.
  split; field; exact Hnz.
Qed.

Lemma sse_expand (xs : list Q) : forall ys s i,
  List.length xs = List.length ys ->
  sse xs ys s i ==
  SigmaProd ys ys - 2 * s * SigmaProd xs ys - 2 * i * Sigma ys
  + s * s * SigmaProd xs xs + 2 * s * i * Sigma xs + count xs * (i * i).
Proof.
  induction xs as [|x xs IH]; intros [|y ys] s i Hl; simpl in Hl; try discriminate.
  - unfold count. simpl. ring.
  - rewrite count_cons. cbn [sse SigmaProd Sigma].
    rewrite (IH ys s i) by congruence. ring.
Qed.

Lemma sse_nonneg (xs : list Q) : forall ys s i, 0 <= sse xs ys s i.
Proof.
  induction xs as [|x xs IH]; intros [|y ys] s i; simpl; try apply Qle_refl.
  pose proof (square_nonneg (y - (i + s * x))). pose proof (IH ys s i). lra.
Qed.

(** The quadratic form left when two lines are compared on the same
    points is a sum of squares. *)
Lemma shift_nonneg (xs : list Q) (ds di : Q) :
  0 <= ds * ds * SigmaProd xs xs + 2 * ds * di * Sigma xs + count xs * (di * di).
Proof.
  pose proof (sse_nonneg xs (map (fun _ => 0) xs) (- ds) (- di)) as H.
  rewrite (sse_expand xs (map (fun _ => 0) xs)) in H by (rewrite length_map; reflexivity).
  assert (H0 : SigmaProd (map (fun _ : Q => 0) xs) (map (fun _ : Q => 0) xs) == 0
               /\ SigmaProd xs (map (fun _ : Q => 0) xs) == 0
               /\ Sigma (map (fun _ : Q => 0) xs) == 0).
  { clear. induction xs as [|x xs (IH1 & IH2 & IH3)]; simpl.
    - repeat split; reflexivity.
    - rewrite IH1, IH2, IH3. repeat split; ring. }
  destruct H0 as (E1 & E2 & E3). rewrite E1, E2, E3 in H.
  setoid_replace (ds * ds * SigmaProd xs xs + 2 * ds * di * Sigma xs
                  + count xs * (di * di))
    with (0 - 2 * - ds * 0 - 2 * - di * 0 + - ds * - ds * SigmaProd xs xs
          + 2 * - ds * - di * Sigma xs + count xs * (- di * - di)) by ring.
  exact H.
Qed.

(** X9.  [linear_regression] is a least-squares fit: the line it
    returns has a sum of squared residuals no larger than that of any
    other line, and its residuals sum to zero. *)
Theorem linear_regression_least_squares (xs ys : list Q) (slope intercept : Q) :
  linear_regression xs ys = inr (slope, intercept) ->
  (forall slope' intercept',
     sse xs ys slope intercept <= sse xs ys slope' intercept') /\
  count xs * intercept + slope * Sigma xs == Sigma ys.
Proof.
  intro H. destruct (linear_regression_inv xs ys slope intercept H)
    as (El & Hnz & Hs & Hi).
  destruct (normal_equations xs ys Hnz) as (N1 & N2).
  rewrite <- Hs, <- Hi in N1, N2.
  split; [|exact N1].
  intros s' i'.
  rewrite (sse_expand xs ys slope intercept El), (sse_expand xs ys s' i' El).
  pose proof (shift_nonneg xs (s' - slope) (i' - intercept)) as Hq.
  assert (Hdiff :
    SigmaProd ys ys - 2 * s' * SigmaProd xs ys - 2 * i' * Sigma ys
    + s' * s' * SigmaProd xs xs + 2 * s' * i' * Sigma xs + count xs * (i' * i')
    - (SigmaProd ys ys - 2 * slope * SigmaProd xs ys - 2 * intercept * Sigma ys
       + slope * slope * SigmaProd xs xs + 2 * slope * intercept * Sigma xs
       + count xs * (intercept * intercept))
    == (s' - slope) * (s' - slope) * SigmaProd xs xs
       + 2 * (s' - slope) * (i' - intercept) * Sigma xs
       + count xs * ((i' - intercept) * (i' - intercept))).
  { rewrite <- N1, <- N2. ring. }
  lra.
Qed.

Lemma linear_regression_least_squares_witness :
  exists slope intercept,
    linear_regression [0; 1; 2] [1; 1; 4] = inr (slope, intercept) /\
    sse [0; 1; 2] [1; 1; 4] slope intercept <= sse [0; 1; 2] [1; 1; 4] 1 1.
Proof.
  destruct (linear_regression [0; 1; 2] [1; 1; 4]) as [e|[slope intercept]] eqn:E;
    [vm_compute in E; discriminate|].
  exists slope, intercept. split; [reflexivity|].
  apply (proj1 (linear_regression_least_squares _ _ _ _ E)).
Defined.

Lemma Sigma_line (a b : Q) (xs : list Q) :
  Sigma (map (fun x => a * x + b) xs) == a * Sigma xs + count xs * b /\
  SigmaProd xs (map (fun x => a * x + b) xs)
  == a * SigmaProd xs xs + b * Sigma xs.
Proof.
  induction xs as [|x xs (IH1 & IH2)].
  - unfold count. simpl. split; ring.
  - rewrite count_cons. cbn [map Sigma SigmaProd]. rewrite IH1, IH2. split; ring.
Qed.

(** X10.  Points that lie on one line give that line back: for
    [y = a * x + b] at abscissas that are not all the same,
    [linear_regression] returns slope [a] and intercept [b]. *)
Theorem linear_regression_recovers_line (a b : Q) (xs : list Q) :
  ~ (forall u v, In u xs -> In v xs -> u == v) ->
  exists slope intercept,
    linear_regression xs (map (fun x => a * x + b) xs) = inr (slope, intercept) /\
    slope == a /\ intercept == b.
Proof.
  intro Hx.
  assert (Hnz : ~ spec_denominator xs == 0)
    by (intro H; apply Hx, spec_denominator_zero, H).
  destruct (linear_regression_ok xs (map (fun x => a * x + b) xs))
    as (slope & intercept & H); [rewrite length_map; reflexivity | exact Hnz |].
  exists slope, intercept. split; [exact H|].
  destruct (linear_regression_inv _ _ _ _ H) as (_ & _ & -> & ->).
  destruct (Sigma_line a b xs) as (E1 & E2).
  unfold spec_slope, spec_intercept. rewrite E1, E2.
  split; unfold spec_denominator; field; exact Hnz.
Qed.

Lemma linear_regression_recovers_line_witness :
  exists slope intercept,
    linear_regression [1; 2; 4] (map (fun x => (-3) * x + 7) [1; 2; 4])
    = inr (slope, intercept) /\ slope == -3 /\ intercept == 7.
Proof.
  apply (linear_regression_recovers_line (-3) 7 [1; 2; 4]).
  intro H. specialize (H 1 2 (or_introl eq_refl) (or_intror (or_introl eq_refl))).
  discriminate.
Defined.

End FittedLine.

(* ================================================================== *)
(** * Properties: points of a multivariable dataset *)
(* ================================================================== *)

Section Points.

Lemma mapM_ok {A B} (f : A -> result B) (g : A -> B) (l : list A) :
  (forall a, In a l -> f a = inr (g a)) -> mapM f l = inr (map g l).
Proof.
  induction l as [|a l IH]; intro H; simpl; [reflexivity|].
  rewrite (H a (or_introl eq_refl)). cbn [bind].
  rewrite IH by (intros a' Ha'; apply H; right; exact Ha').
  reflexivity.
Qed.

Lemma in_range (n : nat) (z : Z) :
  In z (range n) -> exists i, z = Z.of_nat i /\ (i < n)%nat.
Proof.
  unfold range. intro H. apply in_map_iff in H. destruct H as (i & <- & Hi).
  apply in_seq in Hi. exists i. split; [reflexivity | lia].
Qed.

Lemma map_nth_seq {A B} (f : A -> B) (l : list A) (d : A) :
  map (fun i => f (nth i l d)) (seq 0 (List.length l)) = map f l.
Proof.
  induction l as [|a l IH]; simpl; [reflexivity|].
  rewrite <- seq_shift, map_map. simpl. rewrite IH. reflexivity.
Qed.

(** X11.  The points of a dataset whose series all hold [numPoints]
    values (as the constructors leave them): [get_points_list] never
    raises and returns, in order, one point per index [j], whose
    coordinates are the [j]-th values of the series in their order. *)
Theorem get_points_list_spec (data : list DiscreteData) (title : string)
    (m : MultivariableDiscreteData) :
  MultivariableDiscreteData_init data title = inr m ->
  (forall s, In s data -> dd_size s = List.length (dd_data s)) ->
  get_points_list m
  = inr (map (fun j => map (fun s => nth j (dd_data s) 0) data)
             (seq 0 (numPoints m))) /\
  (forall points, get_points_list m = inr points ->
     List.length points = numPoints m /\
     forall p, In p points -> List.length p = numDimensions m).
Proof.
  intros Hm Hsize.
  assert (Hf : numDimensions m = List.length data /\ mdd_data m = data /\
               forall s, In s data -> List.length (dd_data s) = numPoints m).
  { revert Hm. unfold MultivariableDiscreteData_init.
    destruct (List.length data =? 0)%nat; [discriminate|].
    destruct (List.length data <? 2)%nat; [discriminate|].
    destruct (index data 0) as [e|d0]; [discriminate|]. cbn [bind].
    destruct (check_sizes_inv (dd_size d0) data _ eq_refl)
      as [[Hr Hall]|[Hr _]]; rewrite Hr; cbn [bind ret]; [|discriminate].
    intro H. injection H as <-. cbn. repeat split.
    intros s Hs. rewrite <- (Hsize s Hs). apply Hall, Hs. }
  destruct Hf as (Hd & Hdata & Hlen).
  assert (Hget : get_points_list m
                 = inr (map (fun j => map (fun s => nth j (dd_data s) 0) data)
                            (seq 0 (numPoints m)))).
  { unfold get_points_list, range. rewrite Hd, Hdata.
    set (d0 := mkDiscreteData [] EmptyString EmptyString 0 0).
    rewrite (mapM_ok _ (fun j : Z =>
               map (fun s => nth (Z.to_nat j) (dd_data s) 0) data)).
    - rewrite map_map. f_equal. apply map_ext. intro j.
      rewrite Nat2Z.id. reflexivity.
    - intros z Hz. destruct (in_range _ _ Hz) as (j & -> & Hj).
      rewrite Nat2Z.id.
      rewrite (mapM_ok _ (fun i : Z =>
                 nth j (dd_data (nth (Z.to_nat i) data d0)) 0)).
      + rewrite map_map. f_equal.
        rewrite <- (map_nth_seq (fun s => nth j (dd_data s) 0) data d0).
        apply map_ext. intro i. rewrite Nat2Z.id. reflexivity.
      + intros z' Hz'. apply in_map_iff in Hz'. destruct Hz' as (i & <- & Hi).
        apply in_seq in Hi. rewrite Nat2Z.id.
        rewrite (index_nat data i d0) by lia. cbn [bind]. unfold getValue.
        apply index_nat. rewrite Hlen; [exact Hj | apply nth_In; lia]. }
  split; [exact Hget|].
  intros points Hp. rewrite Hget in Hp. injection Hp as <-.
  split.
  - rewrite length_map, length_seq. reflexivity.
  - intros p Hp. apply in_map_iff in Hp. destruct Hp as (j & <- & _).
    rewrite length_map. symmetry. exact Hd.
Qed.

Lemma get_points_list_spec_witness :
  exists m,
    MultivariableDiscreteData_init
      [Sample.series [1; 2; 3] 2; Sample.series [2; 4; 6] 4] EmptyString = inr m /\
    get_points_list m = inr [[1; 2]; [2; 4]; [3; 6]].
Proof.
  destruct (MultivariableDiscreteData_init
              [Sample.series [1; 2; 3] 2; Sample.series [2; 4; 6] 4] EmptyString)
    as [e|m] eqn:E; [vm_compute in E; discriminate|].
  exists m. split; [reflexivity|].
  assert (Hn : numPoints m = 3%nat) by (vm_compute in E; injection E as <-; reflexivity).
  rewrite (proj1 (get_points_list_spec _ _ m E
                    ltac:(intros s [<-|[<-|[]]]; reflexivity))).
  rewrite Hn. reflexivity.
Defined.

End Points.

(* ================================================================== *)
(** * Properties: one box *)
(* ================================================================== *)

Section OneBox.

Import BoxplotGraph.

Lemma for_enumerate_emit2 {A} (c1 c2 : A -> cmd) (l : list A) : forall i log,
  for_enumerate (fun _ a => emit (c1 a) ;;; emit (c2 a)) i l log
  = (log ++ flat_map (fun a => [c1 a; c2 a]) l, Some (inr tt)).
Proof.
  induction l as [|a l IH]; intros i log; simpl.
  - unfold retD. rewrite app_nil_r. reflexivity.
  - unfold bindD at 1. unfold bindD at 1. unfold emit at 1 2.
    rewrite IH. rewrite <- !app_assoc. reflexivity.
Qed.

(** X12.  A box is drawn whole or not at all: when the statistics of
    the series cannot be computed [drawBoxplot] raises without drawing
    anything; otherwise it draws the box (two rectangles), the median
    line, two whiskers, two caps and two circles per outlier, and
    returns. *)
Theorem drawBoxplot_whole_or_nothing (data : DiscreteData)
    (x originY scale width : Q) (colour lineColour : colour) (log : list cmd) :
  (forall e, get_values data = inl e ->
     drawBoxplot data x originY scale width colour lineColour log
     = (log, Some (inl e))) /\
  (forall v, get_values data = inr v ->
     exists cmds,
       drawBoxplot data x originY scale width colour lineColour log
       = (log ++ cmds, Some (inr tt)) /\
       List.length cmds = (7 + 2 * List.length (outliers v))%nat /\
       firstn 2 cmds =
         [rect lineColour x (originY - q3 v * scale) width ((q3 v - q1 v) * scale);
          rect colour (x + 2) (originY - q3 v * scale + 2) (width - 4)
            ((q3 v - q1 v) * scale - 4)]).
Proof.
  split.
  - intros e He. unfold drawBoxplot, bindD, lift. rewrite He. reflexivity.
  - intros v Hv. unfold drawBoxplot.
    unfold bindD at 1. unfold lift. rewrite Hv.
    set (loop := for_enumerate _ 0 (outliers v)).
    unfold bindD, emit. unfold loop. rewrite for_enumerate_emit2.
    rewrite <- !app_assoc. eexists. split; [reflexivity|].
    split.
    + simpl. f_equal. f_equal. f_equal. f_equal. f_equal. f_equal. f_equal.
      induction (outliers v) as [|a l IH]; simpl; [reflexivity|].
      rewrite IH. lia.
    + reflexivity.
Qed.

Lemma drawBoxplot_whole_or_nothing_witness :
  exists cmds,
    drawBoxplot (Sample.series [1; 2; 2; 3; 4; 5; 50] 3) 10 300 2 40
      (100, 100, 100) (50, 50, 50) []
    = ([] ++ cmds, Some (inr tt)) /\ List.length cmds = 9%nat.
Proof.
  destruct (proj2 (drawBoxplot_whole_or_nothing
                     (Sample.series [1; 2; 2; 3; 4; 5; 50] 3) 10 300 2 40
                     (100, 100, 100) (50, 50, 50) [])
              (mkValues 3 (4#2) (7#2) 1 5 [50]) eq_refl)
    as (cmds & H & Hl & _).
  exists cmds. split; [exact H | exact Hl].
Defined.

End OneBox.

(* ================================================================== *)
(** * Properties: termination of the tick loops *)
(* ================================================================== *)

Section Termination.

Import Graph.

Lemma terminates_ret {A} (a : A) : terminates (retD a).
Proof. intro log. discriminate. Qed.

Lemma terminates_lift {A} (r : result A) : terminates (lift r).
Proof. intro log. discriminate. Qed.

Lemma terminates_emit (c : cmd) : terminates (emit c).
Proof. intro log. discriminate. Qed.

Lemma terminates_bind {A B} (m : Draw A) (k : A -> Draw B) :
  terminates m -> (forall a, terminates (k a)) -> terminates (bindD m k).
Proof.
  intros Hm Hk log. unfold bindD. specialize (Hm log).
  destruct (m log) as [log1 [[e|a]|]]; simpl in *; try discriminate.
  - apply Hk.
  - congruence.
Qed.

Lemma terminates_for_enumerate {A} (body : Z -> A -> Draw unit) :
  (forall i a, terminates (body i a)) ->
  forall l i, terminates (for_enumerate body i l).
Proof.
  intros Hb. induction l as [|a l IH]; intro i; simpl.
  - apply terminates_ret.
  - apply terminates_bind; [apply Hb | intros _; apply IH].
Qed.

Lemma ev_const {A} (m : Draw A) :
  terminates m -> eventually_terminates (fun _ => m).
Proof. intro H. exists 0%nat. intros _ _. exact H. Qed.

Lemma ev_bind {A B} (m : nat -> Draw A) (k : nat -> A -> Draw B) :
  eventually_terminates m ->
  (forall a, eventually_terminates (fun fuel => k fuel a)) ->
  (exists f, forall a fuel, (f <= fuel)%nat -> terminates (k fuel a)) ->
  eventually_terminates (fun fuel => bindD (m fuel) (k fuel)).
Proof.
  intros (f1 & H1) _ (f2 & H2). exists (Nat.max f1 f2). intros fuel Hf.
  apply terminates_bind; [apply H1; lia | intro a; apply H2; lia].
Qed.

Lemma ev_seq {A} (m : nat -> Draw unit) (k : nat -> Draw A) :
  eventually_terminates m -> eventually_terminates k ->
  eventually_terminates (fun fuel => bindD (m fuel) (fun _ => k fuel)).
Proof.
  intros (f1 & H1) (f2 & H2). exists (Nat.max f1 f2). intros fuel Hf.
  apply terminates_bind; [apply H1; lia | intros _; apply H2; lia].
Qed.

Lemma ev_guard {A B} (r : result A) (k : nat -> A -> Draw B) :
  (forall a, r = inr a -> eventually_terminates (fun fuel => k fuel a)) ->
  eventually_terminates (fun fuel => bindD (lift r) (k fuel)).
Proof.
  intro H. destruct r as [e|a].
  - exists 0%nat. intros fuel _ log. discriminate.
  - destruct (H a eq_refl) as (f0 & Hf). exists f0. intros fuel Hle log.
    exact (Hf fuel Hle log).
Qed.

Ltac terminates_step :=
  first
    [ apply terminates_ret
    | apply terminates_lift
    | apply terminates_emit
    | apply terminates_bind; [|intro]
    | apply terminates_for_enumerate; intros
    | match goal with
      | |- terminates (if ?b then _ else _) => destruct b
      | |- terminates (match ?v with _ => _ end) => destruct v
      | |- terminates (let '(_, _) := ?v in _) => destruct v
      end ].

Ltac terminates_tac := unfold draw_text, draw_line; repeat terminates_step.

Lemma inject_nat_succ (n : nat) :
  inject_Z (Z.of_nat (S n)) == inject_Z (Z.of_nat n) + 1.
Proof. rewrite Nat2Z.inj_succ, <- Z.add_1_r, inject_Z_plus. reflexivity. Qed.

Lemma inject_nat_pos (n : nat) : 0 < inject_Z (Z.of_nat n) -> (1 <= n)%nat.
Proof.
  intro H. destruct n as [|n]; [|lia]. exfalso. revert H. apply Qlt_irrefl.
Qed.

(** A loop [while labelNum * spacing <= bound] with a positive spacing
    ends when the fuel exceeds the number of marks left. *)
Lemma x_marks_terminates g d a b s f :
  0 < s ->
  forall fuel labelNum,
    (1 <= fuel)%nat ->
    graphWidth d < (inject_Z (Z.of_nat fuel) - 1 + labelNum) * s ->
    terminates (x_marks fuel g d a b s f labelNum).
Proof.
  intro Hs. induction fuel as [|fuel IH]; intros L Hf Hw; [lia|].
  cbn [x_marks]. destruct (Qle_bool (L * s) (graphWidth d)) eqn:E;
    [|apply terminates_ret].
  apply Qle_bool_iff in E.
  rewrite inject_nat_succ in Hw.
  assert (Hw' : graphWidth d < (inject_Z (Z.of_nat fuel) - 1 + (L + 1)) * s).
  { setoid_replace ((inject_Z (Z.of_nat fuel) - 1 + (L + 1)) * s)
      with ((inject_Z (Z.of_nat fuel) + 1 - 1 + L) * s) by ring. exact Hw. }
  assert (Hpos : (1 <= fuel)%nat).
  { apply inject_nat_pos.
    assert (H0 : 0 < inject_Z (Z.of_nat fuel) * s).
    { setoid_replace (inject_Z (Z.of_nat fuel) * s)
        with ((inject_Z (Z.of_nat fuel) + 1 - 1 + L) * s - L * s) by ring. lra. }
    destruct (Qlt_le_dec 0 (inject_Z (Z.of_nat fuel))) as [Hp|Hn]; [exact Hp|].
    exfalso. apply (Qlt_not_le _ _ H0).
    setoid_replace 0 with (0 * s) by ring.
    apply Qmult_le_compat_r; lra. }
  terminates_tac; apply IH; assumption.
Qed.

Lemma y_marks_terminates g d a b s f :
  0 < s ->
  forall fuel labelNum,
    (1 <= fuel)%nat ->
    graphHeight d < (inject_Z (Z.of_nat fuel) - 1 + labelNum) * s ->
    terminates (y_marks fuel g d a b s f labelNum).
Proof.
  intro Hs. induction fuel as [|fuel IH]; intros L Hf Hw; [lia|].
  cbn [y_marks]. destruct (Qle_bool (L * s) (graphHeight d)) eqn:E;
    [|apply terminates_ret].
  apply Qle_bool_iff in E.
  rewrite inject_nat_succ in Hw.
  assert (Hw' : graphHeight d < (inject_Z (Z.of_nat fuel) - 1 + (L + 1)) * s).
  { setoid_replace ((inject_Z (Z.of_nat fuel) - 1 + (L + 1)) * s)
      with ((inject_Z (Z.of_nat fuel) + 1 - 1 + L) * s) by ring. exact Hw. }
  assert (Hpos : (1 <= fuel)%nat).
  { apply inject_nat_pos.
    assert (H0 : 0 < inject_Z (Z.of_nat fuel) * s).
    { setoid_replace (inject_Z (Z.of_nat fuel) * s)
        with ((inject_Z (Z.of_nat fuel) + 1 - 1 + L) * s - L * s) by ring. lra. }
    destruct (Qlt_le_dec 0 (inject_Z (Z.of_nat fuel))) as [Hp|Hn]; [exact Hp|].
    exfalso. apply (Qlt_not_le _ _ H0).
    setoid_replace 0 with (0 * s) by ring.
    apply Qmult_le_compat_r; lra. }
  terminates_tac; apply IH; assumption.
Qed.

(** Enough fuel for a bound [W] and a positive spacing [s]. *)
Lemma fuel_enough (W s : Q) :
  0 < s ->
  exists fuel0, forall fuel, (fuel0 <= fuel)%nat ->
    (1 <= fuel)%nat /\ W < (inject_Z (Z.of_nat fuel) - 1 + 0) * s.
Proof.
  intro Hs. exists (Z.to_nat (Qfloor (W / s)) + 2)%nat. intros fuel Hf.
  split; [lia|].
  pose proof (Qlt_floor (W / s)) as Hfl.
  assert (Hle : inject_Z (Qfloor (W / s) + 1) <= inject_Z (Z.of_nat fuel) - 1).
  { setoid_replace (inject_Z (Z.of_nat fuel) - 1)
      with (inject_Z (Z.of_nat fuel - 1))
      by (unfold Z.sub; rewrite inject_Z_plus; reflexivity).
    rewrite <- Zle_Qle. lia. }
  assert (Hdiv : W / s < inject_Z (Z.of_nat fuel) - 1) by lra.
  setoid_replace ((inject_Z (Z.of_nat fuel) - 1 + 0) * s)
    with ((inject_Z (Z.of_nat fuel) - 1) * s) by ring.
  setoid_replace W with (W / s * s) at 1 by (field; lra).
  apply Qmult_lt_compat_r; assumption.
Qed.

Lemma next_lowest_decimultiple_pos (r v : Q) :
  next_lowest_decimultiple r [1; 2; 5] = inr v -> 0 < r /\ 0 < v.
Proof.
  intro H. destruct (Qlt_le_dec 0 r) as [Hr|Hr].
  2:{ unfold next_lowest_decimultiple in H.
      rewrite (floor_log10_nonpositive r Hr) in H. discriminate. }
  split; [exact Hr|].
  destruct (floor_log10_spec r Hr) as (p & Hp & _ & _).
  pose proof (pow10_pos p) as Pp.
  unfold next_lowest_decimultiple in H. rewrite Hp in H. cbn [bind] in H.
  rewrite div_ok in H by lra. cbn [bind] in H.
  change (sort_reverse [1; 2; 5]) with [5; 2; 1] in H.
  cbn [first_multiple] in H.
  destruct (Qle_bool 5 (r / 10 ^ p)); [|destruct (Qle_bool 2 (r / 10 ^ p));
    [|destruct (Qle_bool 1 (r / 10 ^ p))]];
    injection H as <-; apply Qmult_lt_0_compat; try exact Pp; reflexivity.
Qed.

(** With a non-negative density, a plan that succeeded on a plot of
    non-negative extent [W] gives a positive spacing. *)
Lemma spacing_positive (density W range r delta : Q) :
  0 <= density -> 0 <= W -> ~ range == 0 ->
  div range (inject_Z (floor (density * W))) = inr r ->
  0 < r -> 0 < delta ->
  0 < W / range * delta.
Proof.
  intros Hd HW Hrange Hdiv Hr Hdelta.
  destruct (div_inv _ _ _ Hdiv) as [[_ H]|[Hnz H]]; [discriminate|].
  apply inr_inj in H. rename H into Er.
  assert (Hfl0 : (0 <= floor (density * W))%Z).
  { unfold floor. change 0%Z with (Qfloor 0). apply Qfloor_resp_le.
    apply Qmult_le_0_compat; assumption. }
  assert (Hfl : (1 <= floor (density * W))%Z).
  { destruct (Z.eq_dec (floor (density * W)) 0) as [E|E]; [|lia].
    exfalso. apply Hnz. rewrite E. reflexivity. }
  assert (Hq : 1 <= inject_Z (floor (density * W))).
  { change 1 with (inject_Z 1). rewrite <- Zle_Qle. exact Hfl. }
  assert (Hrg : 0 < range).
  { assert (E : range == r * inject_Z (floor (density * W)))
      by (rewrite Er; field; lra).
    rewrite E. apply Qmult_lt_0_compat; lra. }
  assert (HWpos : 0 < W).
  { destruct (Qlt_le_dec 0 W) as [Hp|Hn]; [exact Hp|].
    exfalso. assert (E : density * W == 0).
    { assert (W == 0) by lra. rewrite H. ring. }
    unfold floor in Hfl. rewrite E in Hfl.
    change (Qfloor 0) with 0%Z in Hfl. lia. }
  apply Qmult_lt_0_compat; [|exact Hdelta].
  apply Qlt_shift_div_l; [exact Hrg | lra].
Qed.

Lemma x_marks_skipped g d a b s f fuel :
  (1 <= fuel)%nat -> graphWidth d < 0 ->
  terminates (x_marks fuel g d a b s f 0).
Proof.
  intros Hf Hw. destruct fuel as [|fuel]; [lia|]. cbn [x_marks].
  replace (Qle_bool (0 * s) (graphWidth d)) with false; [apply terminates_ret|].
  symmetry. apply Qle_bool_false.
  setoid_replace (0 * s) with 0 by ring. exact Hw.
Qed.

Lemma y_marks_skipped g d a b s f fuel :
  (1 <= fuel)%nat -> graphHeight d < 0 ->
  terminates (y_marks fuel g d a b s f 0).
Proof.
  intros Hf Hw. destruct fuel as [|fuel]; [lia|]. cbn [y_marks].
  replace (Qle_bool (0 * s) (graphHeight d)) with false; [apply terminates_ret|].
  symmetry. apply Qle_bool_false.
  setoid_replace (0 * s) with 0 by ring. exact Hw.
Qed.

Lemma ev_x_marks g d a b s f :
  (graphWidth d < 0 \/ 0 < s) ->
  eventually_terminates (fun fuel => x_marks fuel g d a b s f 0).
Proof.
  intros [Hw|Hs].
  - exists 1%nat. intros fuel Hf. apply x_marks_skipped; assumption.
  - destruct (fuel_enough (graphWidth d) s Hs) as (f0 & H0).
    exists f0. intros fuel Hf. destruct (H0 fuel Hf) as [H1 H2].
    apply x_marks_terminates; assumption.
Qed.

Lemma ev_y_marks g d a b s f :
  (graphHeight d < 0 \/ 0 < s) ->
  eventually_terminates (fun fuel => y_marks fuel g d a b s f 0).
Proof.
  intros [Hw|Hs].
  - exists 1%nat. intros fuel Hf. apply y_marks_skipped; assumption.
  - destruct (fuel_enough (graphHeight d) s Hs) as (f0 & H0).
    exists f0. intros fuel Hf. destruct (H0 fuel Hf) as [H1 H2].
    apply y_marks_terminates; assumption.
Qed.

Lemma ev_draw_marks (g0 g : t) (win : Surface) (d : Dimensions) :
  set_dimensions g0 win = inr g -> dims g = Some d ->
  0 <= axisMarkerDensity g0 ->
  eventually_terminates (fun fuel => draw_marks fuel g d).
Proof.
  intros Hset Hd Hdens.
  destruct (set_dimensions_inv g0 g win Hset)
    as (d' & -> & Hy & Hys & _ & Hcat & Hnum).
  cbn in Hd. injection Hd as ->.
  unfold draw_marks. cbn [with_dims maxY minY maxX minX categoricalXAxis
    xCategoricalLabels axisMarkerDensity primaryColour].
  cbv zeta.
  apply ev_seq.
  - destruct (categoricalXAxis g0) eqn:Ec.
    + destruct (xCategoricalLabels g0) as [labels|].
      * apply ev_const. terminates_tac.
      * destruct (Hcat eq_refl) as [Hxs _]. rewrite Hxs.
        apply ev_guard. intros r _. apply ev_guard. intros delta _.
        apply ev_guard. intros xs Exs. discriminate.
    + destruct (Hnum eq_refl) as (Hnx & Hxs & _). rewrite Hxs.
      apply ev_guard. intros r Hr. apply ev_guard. intros delta Hdelta.
      apply ev_guard. intros xs Exs. injection Exs as <-.
      destruct (next_lowest_decimultiple_pos r delta Hdelta) as [Hrpos Hdpos].
      apply ev_x_marks.
      destruct (Qlt_le_dec (graphWidth d) 0) as [Hneg|Hpos]; [left; exact Hneg|].
      right.
      apply (spacing_positive (axisMarkerDensity g0) _ _ r delta); assumption.
  - apply ev_guard. intros r Hr. apply ev_guard. intros delta Hdelta.
    destruct (next_lowest_decimultiple_pos r delta Hdelta) as [Hrpos Hdpos].
    apply ev_y_marks.
    destruct (Qlt_le_dec (graphHeight d) 0) as [Hneg|Hpos]; [left; exact Hneg|].
    right. rewrite Hys.
    apply (spacing_positive (axisMarkerDensity g0) _ _ r delta); assumption.
Qed.

Lemma terminates_draw_frame g d : terminates (draw_frame g d).
Proof. intro log. rewrite draw_frame_log. discriminate. Qed.

Lemma terminates_draw_boxes b g d : terminates (BoxplotGraph.draw_boxes b g d).
Proof.
  unfold BoxplotGraph.draw_boxes.
  apply terminates_bind; [apply terminates_lift|]. intro boxWidth.
  apply terminates_bind; [|intro; apply terminates_ret].
  apply terminates_for_enumerate. intros i dataset.
  apply terminates_bind; [apply terminates_lift|]. intro ci.
  unfold BoxplotGraph.drawBoxplot. terminates_tac.
Qed.

Lemma terminates_draw_points s g d : terminates (Scatterplot.draw_points s g d).
Proof. unfold Scatterplot.draw_points. terminates_tac. Qed.

(** X13.  Drawing terminates.  For a graph whose dimensions were set by
    [set_dimensions] and whose marker density is not negative, the two
    [while] loops that place the axis marks end: with enough fuel,
    [Graph.draw], [BoxplotGraph.draw] and [Scatterplot.draw] each end
    with a value or an exception, whatever the data. *)
Theorem draw_terminates (g0 g : t) (win : Surface) :
  set_dimensions g0 win = inr g ->
  0 <= axisMarkerDensity g0 ->
  exists fuel0, forall fuel window log,
    (fuel0 <= fuel)%nat ->
    snd (draw fuel g window log) <> None /\
    (forall b, BoxplotGraph.graph b = g ->
       snd (BoxplotGraph.draw fuel b window log) <> None) /\
    (forall s, Scatterplot.graph s = g ->
       snd (Scatterplot.draw fuel s window log) <> None).
Proof.
  intros Hset Hdens.
  assert (Hd : exists d, dims g = Some d).
  { destruct (set_dimensions_inv g0 g win Hset) as (d & -> & _).
    exists d. reflexivity. }
  destruct Hd as (d & Hd).
  destruct (ev_draw_marks g0 g win d Hset Hd Hdens) as (fuel0 & Hm).
  exists fuel0. intros fuel window log Hf.
  assert (Hdraw : terminates (draw fuel g window)).
  { intro log'. rewrite (draw_with_dims fuel g d window Hd).
    revert log'. apply terminates_bind; [apply terminates_draw_frame|]. intros _.
    apply terminates_bind; [apply Hm, Hf|]. intros _. apply terminates_ret. }
  split; [apply Hdraw|]. split.
  - intros b <-. unfold BoxplotGraph.draw. revert log.
    apply terminates_bind; [exact Hdraw|]. intro gd. apply terminates_draw_boxes.
  - intros s <-. unfold Scatterplot.draw. revert log.
    apply terminates_bind; [exact Hdraw|]. intro gd. apply terminates_draw_points.
Qed.

Lemma draw_terminates_witness :
  exists b fuel0,
    Sample.boxplot [Sample.series [1; 2; 2; 3; 4; 5; 50] 3] None None 400 400 = inr b /\
    snd (BoxplotGraph.draw (fuel0 + 7) b Sample.window []) <> None.
Proof.
  destruct (Sample.boxplot [Sample.series [1; 2; 2; 3; 4; 5; 50] 3] None None 400 400)
    as [e|b] eqn:E; [vm_compute in E; discriminate|].
  assert (H : exists g0, set_dimensions g0 Sample.window = inr (BoxplotGraph.graph b)
                         /\ 0 <= axisMarkerDensity g0).
  { vm_compute in E. injection E as <-.
    exists (mkGraph 50 true 0 1 0 (Some [EmptyString]) 0 0 (Some 400) (Some 400)
              (3#4) 0 (255, 255, 255) (100, 100, 100) (0, 0, 0) EmptyString true
              true EmptyString EmptyString EmptyString (1#125) None).
    split; [vm_compute; reflexivity | discriminate]. }
  destruct H as (g0 & Hset & Hdens).
  destruct (draw_terminates g0 _ Sample.window Hset Hdens) as (fuel0 & H).
  exists b, fuel0. split; [reflexivity|].
  apply (proj1 (proj2 (H (fuel0 + 7)%nat Sample.window [] ltac:(lia))) b eq_refl).
Defined.

(** A loop with a spacing that is not positive, on a plot of
    non-negative extent, never leaves its body. *)
Lemma x_marks_diverges g d a b s f :
  s <= 0 -> 0 <= graphWidth d ->
  forall fuel labelNum log,
    0 <= labelNum -> snd (x_marks fuel g d a b s f labelNum log) = None.
Proof.
  intros Hs Hw. induction fuel as [|fuel IH]; intros L log HL; [reflexivity|].
  cbn [x_marks].
  replace (Qle_bool (L * s) (graphWidth d)) with true.
  2:{ symmetry. apply Qle_bool_iff. apply Qle_trans with 0; [|exact Hw].
      setoid_replace 0 with (L * 0) by ring.
      rewrite (Qmult_comm L s), (Qmult_comm L 0).
      apply Qmult_le_compat_r; assumption. }
  unfold bindD at 1. unfold emit at 1.
  unfold bindD at 1. unfold draw_text at 1. unfold emit at 1. cbn [fst snd].
  unfold bindD at 1.
  destruct (Qle_bool ((L + (1#2)) * s) (graphWidth d)); unfold emit, retD;
    apply IH; lra.
Qed.

(** X14.  The bound on the density is needed.  When the x axis is
    numeric, the tick plan succeeds and the spacing [xScale * delta] is
    not positive on a plot of non-negative width, the x mark loop never
    ends: [draw_marks] runs out of any fuel.  This happens with a
    negative marker density and an x range given backwards. *)
Theorem draw_marks_diverges (g : t) (d : Dimensions) (r delta xs : Q) :
  categoricalXAxis g = false ->
  div (maxX g - minX g) (inject_Z (floor (axisMarkerDensity g * graphWidth d)))
  = inr r ->
  next_lowest_decimultiple r [1; 2; 5] = inr delta ->
  xScale d = Some xs ->
  xs * delta <= 0 -> 0 <= graphWidth d ->
  forall fuel log, snd (draw_marks fuel g d log) = None.
Proof.
  intros Ec Hr Hdelta Hxs Hsp Hw fuel log.
  unfold draw_marks. rewrite Ec. cbv zeta.
  unfold bindD at 1. unfold bindD at 1. unfold lift at 1. rewrite Hr.
  unfold bindD at 1. unfold lift at 1. rewrite Hdelta.
  unfold bindD at 1. unfold lift at 1. rewrite Hxs. unfold num, ret.
  match goal with |- context [x_marks ?fu ?g ?d ?a ?b ?s ?f 0 ?l] =>
    pose proof (x_marks_diverges g d a b s f Hsp Hw fu 0 l (Qle_refl 0)) as H;
    destruct (x_marks fu g d a b s f 0 l) as [log' [[e|u]|]] end;
    simpl in H; try discriminate.
  reflexivity.
Qed.

Lemma draw_marks_diverges_witness :
  let g := mkGraph 10 false (-10) 0 10 None 0 0 (Some 400) (Some 400) (3#4) 0
             (255, 255, 255) (0, 0, 0) (0, 0, 0) EmptyString true true
             EmptyString EmptyString EmptyString (-1#125) None in
  exists g' d,
    set_dimensions g Sample.window = inr g' /\ dims g' = Some d /\
    snd (draw_marks 1000 g' d []) = None.
Proof.
  intro g.
  destruct (set_dimensions g Sample.window) as [e|g'] eqn:E;
    [vm_compute in E; discriminate|].
  assert (H : exists d, dims g' = Some d /\
                graphWidth d = (3#4) * (400 - 2 * 0) /\
                xScale d = Some ((3#4) * (400 - 2 * 0) / (-10 - 10)) /\
                categoricalXAxis g' = false /\ maxX g' = -10 /\ minX g' = 10 /\
                axisMarkerDensity g' = -1#125).
  { unfold set_dimensions in E. cbn in E. injection E as <-.
    eexists. split; [reflexivity|]. cbn. repeat split. }
  destruct H as (d & Hd & Hw & Hxs & Hc & Hmax & Hmin & Hdens).
  exists g', d. split; [reflexivity|]. split; [exact Hd|].
  apply (draw_marks_diverges g' d (20#3) 5 ((3#4) * (400 - 2 * 0) / (-10 - 10))).
  - exact Hc.
  - rewrite Hmax, Hmin, Hdens, Hw. reflexivity.
  - reflexivity.
  - exact Hxs.
  - discriminate.
  - rewrite Hw. discriminate.
Defined.

End Termination.

(* ================================================================== *)
(** * Properties: default axis ranges *)
(* ================================================================== *)

Section DefaultRange.

Import Graph.

Lemma list_max_spec (l : list Q) (m : Q) :
  list_max l = Some m -> In m l /\ forall v, In v l -> v <= m.
Proof.
  revert m. induction l as [|a l IH]; intros m H; simpl in H; [discriminate|].
  destruct (list_max l) as [m'|] eqn:E.
  - destruct (IH m' eq_refl) as [Hin Hle].
    destruct (Qlt_bool a m') eqn:Ea; injection H as <-.
    + apply Qlt_bool_iff in Ea. split; [right; exact Hin|].
      intros v [<-|Hv]; [apply Qlt_le_weak, Ea | apply Hle, Hv].
    + apply Qlt_bool_false in Ea. split; [left; reflexivity|].
      intros v [<-|Hv]; [apply Qle_refl|].
      eapply Qle_trans; [apply Hle, Hv | exact Ea].
  - injection H as <-. destruct l as [|b l]; [|simpl in E;
      destruct (list_max l); discriminate].
    split; [left; reflexivity|]. intros v [<-|[]]. apply Qle_refl.
Qed.

Lemma list_min_spec (l : list Q) (m : Q) :
  list_min l = Some m -> In m l /\ forall v, In v l -> m <= v.
Proof.
  revert m. induction l as [|a l IH]; intros m H; simpl in H; [discriminate|].
  destruct (list_min l) as [m'|] eqn:E.
  - destruct (IH m' eq_refl) as [Hin Hle].
    destruct (Qlt_bool m' a) eqn:Ea; injection H as <-.
    + apply Qlt_bool_iff in Ea. split; [right; exact Hin|].
      intros v [<-|Hv]; [apply Qlt_le_weak, Ea | apply Hle, Hv].
    + apply Qlt_bool_false in Ea. split; [left; reflexivity|].
      intros v [<-|Hv]; [apply Qle_refl|].
      eapply Qle_trans; [exact Ea | apply Hle, Hv].
  - injection H as <-. destruct l as [|b l]; [|simpl in E;
      destruct (list_min l); discriminate].
    split; [left; reflexivity|]. intros v [<-|[]]. apply Qle_refl.
Qed.

Lemma max_spec (l : list Q) (m : Q) :
  Py.max l = inr m -> In m l /\ forall v, In v l -> v <= m.
Proof.
  unfold Py.max. destruct (list_max l) as [m'|] eqn:E; [|discriminate].
  intro H. apply inr_inj in H. subst m'. apply list_max_spec, E.
Qed.

Lemma min_spec (l : list Q) (m : Q) :
  Py.min l = inr m -> In m l /\ forall v, In v l -> m <= v.
Proof.
  unfold Py.min. destruct (list_min l) as [m'|] eqn:E; [|discriminate].
  intro H. apply inr_inj in H. subst m'. apply list_min_spec, E.
Qed.

Lemma mapM_inv {A B} (f : A -> result B) (l : list A) (bs : list B) :
  mapM f l = inr bs ->
  forall a, In a l -> exists b, f a = inr b /\ In b bs.
Proof.
  revert bs. induction l as [|a l IH]; intros bs H x Hx; [destruct Hx|].
  simpl in H. destruct (f a) as [e|b] eqn:Ea; [discriminate|]. cbn [bind] in H.
  destruct (mapM f l) as [e|bs'] eqn:El; [discriminate|]. cbn [bind ret] in H.
  apply inr_inj in H. subst bs.
  destruct Hx as [<-|Hx].
  - exists b. split; [exact Ea | left; reflexivity].
  - destruct (IH bs' eq_refl x Hx) as (b' & Hb' & Hin).
    exists b'. split; [exact Hb' | right; exact Hin].
Qed.

(** The largest of the per-series maxima bounds every value. *)
Lemma max_of_maxima (data : list DiscreteData) (ms : list Q) (m : Q) :
  mapM dd_max data = inr ms -> Py.max ms = inr m ->
  forall s v, In s data -> In v (dd_data s) -> v <= m.
Proof.
  intros Hms Hm s v Hs Hv.
  destruct (mapM_inv _ _ _ Hms s Hs) as (b & Hb & Hin).
  destruct (max_spec _ _ Hb) as [_ Hle].
  destruct (max_spec _ _ Hm) as [_ Hle'].
  eapply Qle_trans; [apply Hle, Hv | apply Hle', Hin].
Qed.

Lemma min_of_minima (data : list DiscreteData) (ms : list Q) (m : Q) :
  mapM dd_min data = inr ms -> Py.min ms = inr m ->
  forall s v, In s data -> In v (dd_data s) -> m <= v.
Proof.
  intros Hms Hm s v Hs Hv.
  destruct (mapM_inv _ _ _ Hms s Hs) as (b & Hb & Hin).
  destruct (min_spec _ _ Hb) as [_ Hle].
  destruct (min_spec _ _ Hm) as [_ Hle'].
  eapply Qle_trans; [apply Hle', Hin | apply Hle, Hv].
Qed.

(** What a graph returned by [Graph.init] is. *)
Lemma init_inv maxY0 cat maxX0 minY0 minX0 labels x0 y0 w h size border bg
    primary borderC title0 showX showY xLabel yLabel font density g :
  init maxY0 cat maxX0 minY0 minX0 labels x0 y0 w h size border bg primary
    borderC title0 showX showY xLabel yLabel font density = inr g ->
  maxY g = maxY0 /\ minY g = minY0 /\ maxX g = maxX0 /\ minX g = minX0 /\
  categoricalXAxis g = cat /\ axisMarkerDensity g = density /\
  (cat = false -> ~ maxX0 == 0) /\
  (forall d, dims g = Some d ->
     exists g0, set_dimensions g0 (mkSurface 0 0) = inr g /\ dims g0 = None /\
                maxY g0 = maxY0 /\ minY g0 = minY0 /\ maxX g0 = maxX0 /\
                minX g0 = minX0 /\ categoricalXAxis g0 = cat /\
                axisMarkerDensity g0 = density) /\
  (dims g <> None <-> w <> None /\ h <> None).
Proof.
  unfold init.
  destruct (negb cat && Qeq_bool maxX0 0) eqn:Eg; [discriminate|].
  assert (Hguard : cat = false -> ~ maxX0 == 0).
  { intros -> H. apply Qeq_bool_iff in H. rewrite H in Eg. discriminate. }
  destruct w as [w|], h as [h|].
  - intro H. destruct (set_dimensions_inv _ _ _ H) as (d & -> & _).
    cbn. repeat split; try assumption; try discriminate.
    intros d' _. eexists. split; [exact H|]. cbn. repeat split.
  - intro H. apply inr_inj in H. subst g. cbn.
    repeat split; try assumption; try discriminate; try congruence.
    intros [_ H]. congruence.
  - intro H. apply inr_inj in H. subst g. cbn.
    repeat split; try assumption; try discriminate; try congruence.
    intros [H _]. congruence.
  - intro H. apply inr_inj in H. subst g. cbn.
    repeat split; try assumption; try discriminate; try congruence.
    intros [H _]. congruence.
Qed.

Lemma bindD_returns {A B} (m : Draw A) (k : A -> Draw B) log b :
  snd (bindD m k log) = Some (inr b) ->
  exists a, snd (m log) = Some (inr a) /\ snd (k a (fst (m log))) = Some (inr b).
Proof.
  unfold bindD. destruct (m log) as [log1 [[e|a]|]]; simpl; try discriminate.
  intro H. exists a. split; [reflexivity | exact H].
Qed.

(** The graph and the dimensions [Graph.draw] returns were set by
    [set_dimensions], at construction or on the first [draw], on a
    graph with the ranges given to the constructor. *)
Lemma draw_result maxY0 cat maxX0 minY0 minX0 labels x0 y0 w h size border bg
    primary borderC title0 showX showY xLabel yLabel font density g :
  init maxY0 cat maxX0 minY0 minX0 labels x0 y0 w h size border bg primary
    borderC title0 showX showY xLabel yLabel font density = inr g ->
  forall fuel window log g' d',
    snd (draw fuel g window log) = Some (inr (g', d')) ->
    exists g0 win,
      set_dimensions g0 win = inr g' /\ dims g' = Some d' /\
      maxY g0 = maxY0 /\ minY g0 = minY0 /\ maxX g0 = maxX0 /\ minX g0 = minX0 /\
      categoricalXAxis g0 = cat.
Proof.
  intros Hinit fuel window log g' d' H.
  destruct (init_inv _ _ _ _ _ _ _ _ _ _ _ _ _ _ _ _ _ _ _ _ _ _ _ Hinit)
    as (HmaxY & HminY & HmaxX & HminX & Hcat & _ & _ & Hdims & _).
  assert (Hret : forall g1 d1 log1, dims g1 = Some d1 ->
            snd (draw fuel g1 window log1) = Some (inr (g', d')) ->
            g' = g1 /\ d' = d1).
  { intros g1 d1 log1 Hd1 H1. rewrite (draw_with_dims fuel g1 d1 window Hd1) in H1.
    apply bindD_returns in H1. destruct H1 as (u1 & _ & H1).
    apply bindD_returns in H1. destruct H1 as (u2 & _ & H1).
    unfold retD in H1. simpl in H1. injection H1 as <- <-. split; reflexivity. }
  destruct (dims g) as [d|] eqn:Ed.
  - destruct (Hret g d log Ed H) as [-> ->].
    destruct (Hdims d eq_refl) as (g0 & Hset & _ & H1 & H2 & H3 & H4 & H5 & _).
    exists g0, (mkSurface 0 0). repeat split; assumption.
  - unfold draw in H. rewrite Ed in H.
    apply bindD_returns in H. destruct H as (g1 & Hg1 & H).
    unfold lift in Hg1, H. simpl in Hg1, H.
    apply (f_equal (fun o => match o with Some r => r | None => inl TypeError end)) in Hg1.
    destruct (set_dimensions_inv g g1 window Hg1) as (d1 & Hwith & _).
    assert (Hd1 : dims g1 = Some d1) by (rewrite Hwith; reflexivity).
    rewrite Hd1 in H.
    assert (H' : snd (draw fuel g1 window log) = Some (inr (g', d'))).
    { rewrite (draw_with_dims fuel g1 d1 window Hd1). exact H. }
    destruct (Hret g1 d1 log Hd1 H') as [-> ->].
    exists g, window. repeat split; assumption.
Qed.

(** A value inside the y range lands inside the plot, vertically. *)
Lemma pixelY_inside (g0 g : t) (win : Surface) (d : Dimensions) (v : Q) :
  set_dimensions g0 win = inr g -> dims g = Some d ->
  0 <= graphHeight d -> minY g0 <= v -> v <= maxY g0 ->
  graphY d <= pixelY (originY d) (yScale d) v /\
  pixelY (originY d) (yScale d) v <= graphY d + graphHeight d.
Proof.
  intros Hset Hd Hh Hlo Hhi.
  destruct (set_dimensions_inv g0 g win Hset) as (d' & -> & Hy & Hys & Hoy & _).
  cbn in Hd. apply (f_equal (fun o => match o with Some a => a | None => d end)) in Hd.
  subst d'.
  assert (HD : 0 < maxY g0 - minY g0) by lra.
  set (t := (v - minY g0) / (maxY g0 - minY g0)).
  assert (Ht0 : 0 <= t) by (apply Qle_shift_div_l; [exact HD | lra]).
  assert (Ht1 : t <= 1) by (apply Qle_shift_div_r; [exact HD | lra]).
  assert (E : pixelY (originY d) (yScale d) v
              == graphY d + graphHeight d - graphHeight d * t).
  { unfold pixelY, t. rewrite Hoy, Hys. field. lra. }
  rewrite E.
  assert (H0 : 0 <= graphHeight d * t) by (apply Qmult_le_0_compat; assumption).
  assert (H1 : graphHeight d * t <= graphHeight d).
  { setoid_replace (graphHeight d) with (graphHeight d * 1) at 2 by ring.
    rewrite (Qmult_comm (graphHeight d) t), (Qmult_comm (graphHeight d) 1).
    apply Qmult_le_compat_r; assumption. }
  split; lra.
Qed.

Lemma pixelX_inside (g0 g : t) (win : Surface) (d : Dimensions) (v ox xs : Q) :
  set_dimensions g0 win = inr g -> dims g = Some d ->
  categoricalXAxis g0 = false ->
  originX d = Some ox -> xScale d = Some xs ->
  0 <= graphWidth d -> minX g0 <= v -> v <= maxX g0 ->
  graphX d <= pixelX ox xs v /\ pixelX ox xs v <= graphX d + graphWidth d.
Proof.
  intros Hset Hd Hc Hox Hxs Hw Hlo Hhi.
  destruct (set_dimensions_inv g0 g win Hset) as (d' & -> & _ & _ & _ & _ & Hx).
  cbn in Hd. apply (f_equal (fun o => match o with Some a => a | None => d end)) in Hd.
  subst d'.
  destruct (Hx Hc) as (Hnx & Hxs' & Hox').
  rewrite Hxs in Hxs'. apply (f_equal (fun o => match o with Some a => a | None => 0 end)) in Hxs'.
  rewrite Hox in Hox'. apply (f_equal (fun o => match o with Some a => a | None => 0 end)) in Hox'.
  cbv beta iota in Hxs', Hox'.
  assert (HD : 0 < maxX g0 - minX g0) by lra.
  set (t := (v - minX g0) / (maxX g0 - minX g0)).
  assert (Ht0 : 0 <= t) by (apply Qle_shift_div_l; [exact HD | lra]).
  assert (Ht1 : t <= 1) by (apply Qle_shift_div_r; [exact HD | lra]).
  assert (E : pixelX ox xs v == graphX d + graphWidth d * t).
  { unfold pixelX, t. rewrite Hox', Hxs'. field. lra. }
  rewrite E.
  assert (H0 : 0 <= graphWidth d * t) by (apply Qmult_le_0_compat; assumption).
  assert (H1 : graphWidth d * t <= graphWidth d).
  { setoid_replace (graphWidth d) with (graphWidth d * 1) at 2 by ring.
    rewrite (Qmult_comm (graphWidth d) t), (Qmult_comm (graphWidth d) 1).
    apply Qmult_le_compat_r; assumption. }
  split; lra.
Qed.

Section Boxplot.

Variables (data : list DiscreteData) (labels : option (list string)) (x0 y0 : Q)
  (w h : option Q) (border size : Q) (title0 : string) (showX showY : bool)
  (xLabel yLabel : string) (bg : colour) (primary : option colour)
  (cols : option (list (option colour))) (borderC : option colour)
  (font : string) (density : Q).

(** A boxplot built without [maxY] and [minY] takes its y range from
    the data; the x axis is categorical, one colour per dataset when
    none are given. *)
Lemma boxplot_init_range (b : BoxplotGraph.t) :
  BoxplotGraph.init data None None labels x0 y0 w h border size title0 showX
    showY xLabel yLabel bg primary cols borderC font density = inr b ->
  BoxplotGraph.data b = data /\
  BoxplotGraph.numDatasets b = List.length data /\
  (cols = None -> List.length (BoxplotGraph.colours b) = List.length data) /\
  categoricalXAxis (BoxplotGraph.graph b) = true /\
  (forall s v, In s data -> In v (dd_data s) ->
     minY (BoxplotGraph.graph b) <= v /\ v <= maxY (BoxplotGraph.graph b)) /\
  (forall fuel window log g' d',
     snd (draw fuel (BoxplotGraph.graph b) window log) = Some (inr (g', d')) ->
     exists g0 win,
       set_dimensions g0 win = inr g' /\ dims g' = Some d' /\
       maxY g0 = maxY (BoxplotGraph.graph b) /\
       minY g0 = minY (BoxplotGraph.graph b)).
Proof.
  unfold BoxplotGraph.init.
  destruct (mapM dd_max data) as [e|maxs] eqn:Emaxs; [discriminate|]. cbn [bind].
  destruct (Py.max maxs) as [e|mx] eqn:Emx; [discriminate|]. cbn [bind].
  destruct (mapM dd_min data) as [e|mins] eqn:Emins; [discriminate|]. cbn [bind].
  destruct (Py.min mins) as [e|mn] eqn:Emn; [discriminate|]. cbn [bind].
  match goal with |- context [init ?a1 ?a2 ?a3 ?a4 ?a5 ?a6 ?a7 ?a8 ?a9 ?a10 ?a11
                                ?a12 ?a13 ?a14 ?a15 ?a16 ?a17 ?a18 ?a19 ?a20 ?a21 ?a22] =>
    destruct (init a1 a2 a3 a4 a5 a6 a7 a8 a9 a10 a11 a12 a13 a14 a15 a16 a17
                a18 a19 a20 a21 a22) as [e|g] eqn:Eg end; [discriminate|].
  cbn [bind ret]. intro H. apply inr_inj in H. subst b. cbn.
  destruct (init_inv _ _ _ _ _ _ _ _ _ _ _ _ _ _ _ _ _ _ _ _ _ _ _ Eg)
    as (HmaxY & HminY & _ & _ & Hcat & _ & _ & Hdims & _).
  assert (Hrange : forall s v, In s data -> In v (dd_data s) ->
                     minY g <= v /\ v <= maxY g).
  { intros s v Hs Hv. rewrite HmaxY, HminY. split.
    - exact (min_of_minima data mins mn Emins Emn s v Hs Hv).
    - exact (max_of_maxima data maxs mx Emaxs Emx s v Hs Hv). }
  split; [reflexivity|]. split; [reflexivity|].
  split; [intros ->; apply repeat_length|].
  split; [exact Hcat|]. split; [exact Hrange|].
  intros fuel window log g' d' Hdraw.
  destruct (draw_result _ _ _ _ _ _ _ _ _ _ _ _ _ _ _ _ _ _ _ _ _ _ _ Eg
              fuel window log g' d' Hdraw)
    as (g0 & win & Hset & Hd' & H1 & H2 & _).
  exists g0, win. rewrite HmaxY, HminY. repeat split; assumption.
Qed.

End Boxplot.

End DefaultRange.

Section ScatterRange.

Import Graph.

Lemma check_dimensions_inv (data : list MultivariableDiscreteData) r :
  Scatterplot.check_dimensions data = r ->
  (r = inr tt /\ forall m, In m data -> numDimensions m = 2%nat) \/
  (r = inl (ValueError NotTwoDimensional) /\
   exists m, In m data /\ numDimensions m <> 2%nat).
Proof.
  revert r. induction data as [|m data IH]; intros r H; simpl in H.
  - left. split; [symmetry; exact H | intros m []].
  - destruct (numDimensions m =? 2)%nat eqn:E; simpl in H.
    + apply Nat.eqb_eq in E.
      destruct (IH r H) as [[Hr Hall]|[Hr (m' & Hm' & Hne)]].
      * left. split; [exact Hr|]. intros m' [<-|Hm']; [exact E | apply Hall, Hm'].
      * right. split; [exact Hr|]. exists m'. split; [right; exact Hm' | exact Hne].
    + apply Nat.eqb_neq in E. right. split; [symmetry; exact H|].
      exists m. split; [left; reflexivity | exact E].
Qed.

Lemma max_of_column (c : Z) (data : list MultivariableDiscreteData)
    (ms : list Q) (m : Q) :
  mapM (fun d => mdd_max d c) data = inr ms -> Py.max ms = inr m ->
  forall d s v, In d data -> index (mdd_data d) c = inr s -> In v (dd_data s) ->
    v <= m.
Proof.
  intros Hms Hm d s v Hd Hs Hv.
  destruct (mapM_inv _ _ _ Hms d Hd) as (b & Hb & Hin).
  unfold mdd_max in Hb. rewrite Hs in Hb. cbn [bind] in Hb.
  destruct (max_spec _ _ Hb) as [_ Hle].
  destruct (max_spec _ _ Hm) as [_ Hle'].
  eapply Qle_trans; [apply Hle, Hv | apply Hle', Hin].
Qed.

Lemma min_of_column (c : Z) (data : list MultivariableDiscreteData)
    (ms : list Q) (m : Q) :
  mapM (fun d => mdd_min d c) data = inr ms -> Py.min ms = inr m ->
  forall d s v, In d data -> index (mdd_data d) c = inr s -> In v (dd_data s) ->
    m <= v.
Proof.
  intros Hms Hm d s v Hd Hs Hv.
  destruct (mapM_inv _ _ _ Hms d Hd) as (b & Hb & Hin).
  unfold mdd_min in Hb. rewrite Hs in Hb. cbn [bind] in Hb.
  destruct (min_spec _ _ Hb) as [_ Hle].
  destruct (min_spec _ _ Hm) as [_ Hle'].
  eapply Qle_trans; [apply Hle', Hin | apply Hle, Hv].
Qed.

Section Scatter.

Variables (data : list MultivariableDiscreteData) (x0 y0 : Q) (w h : option Q)
  (size border : Q) (bg : colour) (primary borderC : option colour)
  (cols : option (list colour)) (title0 : string) (showX showY : bool)
  (xLabel yLabel font : string) (density : Q) (fits : option (list bool))
  (mainFit : bool) (sizes : option (list (option Q))).

(** A scatterplot takes two-dimensional datasets only and its x axis
    is numeric, which the base constructor accepts only with a maximum
    other than 0.  Built without any of the four bounds, it takes them
    from the data. *)
Lemma scatterplot_init_range (s : Scatterplot.t) :
  Scatterplot.init data None None None None x0 y0 w h size border bg primary
    borderC cols title0 showX showY xLabel yLabel font density fits mainFit sizes
  = inr s ->
  Scatterplot.datasets s = data /\
  (forall m, In m data -> numDimensions m = 2%nat) /\
  categoricalXAxis (Scatterplot.graph s) = false /\
  ~ maxX (Scatterplot.graph s) == 0 /\
  (forall fuel window log g' d',
     snd (draw fuel (Scatterplot.graph s) window log) = Some (inr (g', d')) ->
     exists g0 win,
       set_dimensions g0 win = inr g' /\ dims g' = Some d' /\
       maxY g0 = maxY (Scatterplot.graph s) /\
       minY g0 = minY (Scatterplot.graph s) /\
       maxX g0 = maxX (Scatterplot.graph s) /\
       minX g0 = minX (Scatterplot.graph s) /\
       categoricalXAxis g0 = false) /\
  (forall m sx sy vx vy,
     In m data ->
     index (mdd_data m) 0 = inr sx -> index (mdd_data m) 1 = inr sy ->
     In vx (dd_data sx) -> In vy (dd_data sy) ->
     (minX (Scatterplot.graph s) <= vx /\ vx <= maxX (Scatterplot.graph s)) /\
     (minY (Scatterplot.graph s) <= vy /\ vy <= maxY (Scatterplot.graph s))).
Proof.
  unfold Scatterplot.init.
  destruct (check_dimensions_inv data _ eq_refl) as [[Hr Hdim]|[Hr _]];
    rewrite Hr; cbn [bind]; [|discriminate].
  destruct (mapM (fun d => mdd_max d 0) data) as [e|maxxs] eqn:E1; [discriminate|].
  cbn [bind]. destruct (Py.max maxxs) as [e|mxx] eqn:E2; [discriminate|]. cbn [bind].
  destruct (mapM (fun d => mdd_max d 1) data) as [e|maxys] eqn:E3; [discriminate|].
  cbn [bind]. destruct (Py.max maxys) as [e|mxy] eqn:E4; [discriminate|]. cbn [bind].
  destruct (mapM (fun d => mdd_min d 0) data) as [e|minxs] eqn:E5; [discriminate|].
  cbn [bind]. destruct (Py.min minxs) as [e|mnx] eqn:E6; [discriminate|]. cbn [bind].
  destruct (mapM (fun d => mdd_min d 1) data) as [e|minys] eqn:E7; [discriminate|].
  cbn [bind]. destruct (Py.min minys) as [e|mny] eqn:E8; [discriminate|]. cbn [bind].
  match goal with |- bind ?m _ = _ -> _ => destruct m as [e|xl]; [discriminate|] end.
  cbn [bind].
  match goal with |- bind ?m _ = _ -> _ => destruct m as [e|yl]; [discriminate|] end.
  cbn [bind].
  match goal with |- bind ?m _ = _ -> _ => destruct m as [e|g] eqn:Eg; [discriminate|] end.
  cbn [bind ret]. intro H. apply inr_inj in H. subst s. cbn.
  destruct (init_inv _ _ _ _ _ _ _ _ _ _ _ _ _ _ _ _ _ _ _ _ _ _ _ Eg)
    as (HmaxY & HminY & HmaxX & HminX & Hcat & _ & Hguard & Hdims & _).
  split; [reflexivity|]. split; [exact Hdim|]. split; [exact Hcat|].
  split; [rewrite HmaxX; apply Hguard; reflexivity|].
  split.
  { intros fuel window log g' d' Hdraw.
    destruct (draw_result _ _ _ _ _ _ _ _ _ _ _ _ _ _ _ _ _ _ _ _ _ _ _ Eg
                fuel window log g' d' Hdraw)
      as (g0 & win & Hset & Hd' & H1 & H2 & H3 & H4 & H5).
    exists g0, win. rewrite HmaxY, HminY, HmaxX, HminX. repeat split; assumption. }
  intros m sx sy vx vy Hm Hsx Hsy Hvx Hvy.
  assert (Hx : minX g <= vx /\ vx <= maxX g).
  { rewrite HminX, HmaxX. split.
    - exact (min_of_column 0 data minxs mnx E5 E6 m sx vx Hm Hsx Hvx).
    - exact (max_of_column 0 data maxxs mxx E1 E2 m sx vx Hm Hsx Hvx). }
  assert (Hy : minY g <= vy /\ vy <= maxY g).
  { rewrite HminY, HmaxY. split.
    - exact (min_of_column 1 data minys mny E7 E8 m sy vy Hm Hsy Hvy).
    - exact (max_of_column 1 data maxys mxy E3 E4 m sy vy Hm Hsy Hvy). }
  split; [exact Hx | exact Hy].
Qed.

End Scatter.

End ScatterRange.

(* ================================================================== *)
(** * Properties: colours *)
(* ================================================================== *)

Section Colours.

Import Pygame.

Lemma valid_rgb_colour_inv (c : list Q) :
  valid_rgb_colour c = true ->
  exists r g b, c = [r; g; b] /\
    (0 <= r /\ r <= 255) /\ (0 <= g /\ g <= 255) /\ (0 <= b /\ b <= 255).
Proof.
  unfold valid_rgb_colour.
  destruct c as [|r [|g [|b [|x c]]]]; simpl; try discriminate.
  rewrite !andb_true_iff, !Qle_bool_iff.
  intros ((Hr1 & Hr2) & (Hg1 & Hg2) & (Hb1 & Hb2) & _).
  exists r, g, b. repeat split; assumption.
Qed.

Lemma valid_rgb_colour_intro (r g b : Q) :
  0 <= r -> r <= 255 -> 0 <= g -> g <= 255 -> 0 <= b -> b <= 255 ->
  valid_rgb_colour [r; g; b] = true.
Proof.
  intros. unfold valid_rgb_colour. simpl.
  rewrite !andb_true_iff, !Qle_bool_iff. repeat split; assumption.
Qed.

Lemma check_colours_spec (colours : list (list Q)) : forall i,
  match check_colours i colours with
  | inr _ => Forall (fun c => valid_rgb_colour c = true) colours
  | inl (NotAColour k) =>
      (i <= k)%nat /\
      (exists c, nth_error colours (k - i) = Some c /\ valid_rgb_colour c = false) /\
      (forall j c, (j < k - i)%nat -> nth_error colours j = Some c ->
                   valid_rgb_colour c = true)
  | inl WrongNumberOfArguments => False
  end.
Proof.
  induction colours as [|c rest IH]; intro i; simpl; [constructor|].
  destruct (valid_rgb_colour c) eqn:Ec; simpl.
  - specialize (IH (S i)).
    destruct (check_colours (S i) rest) as [[|k]|[]].
    + exact IH.
    + destruct IH as (Hk & (c' & Hc' & Hv) & Hbefore).
      split; [lia|]. split.
      * exists c'. replace (k - i)%nat with (S (k - S i)) by lia.
        split; assumption.
      * intros j c0 Hj Hn. destruct j as [|j].
        -- simpl in Hn. congruence.
        -- simpl in Hn. apply (Hbefore j); [lia | exact Hn].
    + constructor; assumption.
  - split; [lia|]. rewrite Nat.sub_diag. split.
    + exists c. split; [reflexivity | exact Ec].
    + intros j c0 Hj. lia.
Qed.

(** X17.  [BoxplotGraph.set_colours] checks the number of colours
    first and then the colours in order: a wrong number is reported
    even when a colour is invalid, otherwise the error names the first
    tuple that is not three numbers between 0 and 255; when it succeeds
    there is one colour per dataset, each of them such a triple, and
    nothing else of the boxplot has changed. *)
Theorem set_colours_spec (self : BoxplotGraph.t) (colours : list (list Q)) :
  match boxplot_set_colours self colours with
  | inl WrongNumberOfArguments =>
      List.length colours <> BoxplotGraph.numDatasets self
  | inl (NotAColour i) =>
      List.length colours = BoxplotGraph.numDatasets self /\
      (exists c, nth_error colours i = Some c /\ valid_rgb_colour c = false) /\
      (forall j c, (j < i)%nat -> nth_error colours j = Some c ->
                   valid_rgb_colour c = true)
  | inr b =>
      List.length colours = BoxplotGraph.numDatasets self /\
      BoxplotGraph.graph b = BoxplotGraph.graph self /\
      BoxplotGraph.data b = BoxplotGraph.data self /\
      BoxplotGraph.numDatasets b = BoxplotGraph.numDatasets self /\
      List.length (BoxplotGraph.colours b) = BoxplotGraph.numDatasets self /\
      (forall i ci, nth_error (BoxplotGraph.colours b) i = Some ci ->
         exists r g b', ci = Some (r, g, b') /\
           nth_error colours i = Some [r; g; b'] /\
           valid_colour (r, g, b'))
  end.
Proof.
  unfold boxplot_set_colours.
  destruct (List.length colours =? BoxplotGraph.numDatasets self)%nat eqn:El; simpl.
  2:{ apply Nat.eqb_neq in El. exact El. }
  apply Nat.eqb_eq in El.
  pose proof (check_colours_spec colours 0) as H.
  destruct (check_colours 0 colours) as [[|k]|[]].
  - destruct H.
  - destruct H as (_ & Hc & Hb). rewrite Nat.sub_0_r in Hc, Hb.
    split; [exact El|]. split; assumption.
  - simpl. split; [exact El|]. do 3 (split; [reflexivity|]).
    split; [rewrite length_map; exact El|].
    intros i ci Hi. rewrite nth_error_map in Hi.
    destruct (nth_error colours i) as [c|] eqn:Ec; [|discriminate].
    simpl in Hi. apply (f_equal (fun o => match o with Some x => x | None => None end)) in Hi.
    rewrite Forall_forall in H.
    assert (Hv : valid_rgb_colour c = true) by (apply H; eapply nth_error_In; exact Ec).
    destruct (valid_rgb_colour_inv c Hv) as (r & g & b' & -> & _).
    exists r, g, b'. simpl in Hi. split; [symmetry; exact Hi|].
    split; [reflexivity | exact Hv].
Qed.

Lemma emits_only_ret {A} (P : cmd -> Prop) (a : A) : emits_only P (retD a).
Proof. intro log. exists []. rewrite app_nil_r. split; [reflexivity | constructor]. Qed.

Lemma emits_only_emit (P : cmd -> Prop) (c : cmd) : P c -> emits_only P (emit c).
Proof.
  intros H log. exists [c]. split; [reflexivity|]. constructor; [exact H | constructor].
Qed.

Lemma emits_only_bind {A B} (P : cmd -> Prop) (m : Draw A) (k : A -> Draw B) :
  emits_only P m ->
  (forall a log, snd (m log) = Some (inr a) -> emits_only P (k a)) ->
  emits_only P (bindD m k).
Proof.
  intros Hm Hk log. unfold bindD.
  destruct (Hm log) as (c1 & E1 & H1). specialize (Hk) with (log := log).
  destruct (m log) as [log1 [[e|a]|]]; simpl in *.
  - exists c1. split; assumption.
  - subst log1. destruct (Hk a eq_refl (log ++ c1)) as (c2 & E2 & H2).
    exists (c1 ++ c2). rewrite E2, app_assoc. split; [reflexivity|].
    apply Forall_app. split; assumption.
  - exists c1. split; assumption.
Qed.

Lemma emits_only_lift {A} (P : cmd -> Prop) (r : result A) : emits_only P (lift r).
Proof. intro log. exists []. rewrite app_nil_r. split; [reflexivity | constructor]. Qed.

Lemma emits_only_for_enumerate {A} (P : cmd -> Prop) (body : Z -> A -> Draw unit)
    (l : list A) :
  (forall i a, emits_only P (body i a)) ->
  forall i, emits_only P (for_enumerate body i l).
Proof.
  intro Hb. induction l as [|a l IH]; intro i; simpl.
  - apply emits_only_ret.
  - apply emits_only_bind; [apply Hb|]. intros _ _ _. apply IH.
Qed.

Lemma index_In {A} (l : list A) (i : Z) (a : A) : index l i = inr a -> In a l.
Proof.
  unfold index.
  destruct ((0 <=? _) && _)%Z; [|discriminate].
  destruct (nth_error l _) as [v|] eqn:E; [|discriminate].
  intro H. apply inr_inj in H. subst v. eapply nth_error_In. exact E.
Qed.

(** Half of a valid colour, the line colour of a box, is a valid
    colour. *)
Lemma half_colour_valid (r g b : Q) :
  valid_colour (r, g, b) -> valid_colour ((0 + r) / 2, (0 + g) / 2, (0 + b) / 2).
Proof.
  unfold valid_colour. intro H.
  destruct (valid_rgb_colour_inv _ H) as (r' & g' & b' & E & Hr & Hg & Hb).
  injection E as <- <- <-.
  assert (Hh : forall x, 0 <= x /\ x <= 255 -> 0 <= (0 + x) / 2 /\ (0 + x) / 2 <= 255).
  { intros x [H0 H1].
    assert (Ex : (0 + x) / 2 == x * (1#2)) by field.
    rewrite Ex. split; lra. }
  apply valid_rgb_colour_intro; apply Hh; assumption.
Qed.

Lemma drawBoxplot_colours (data : DiscreteData) (x originY scale width : Q)
    (c lc : colour) :
  valid_colour c -> valid_colour lc ->
  emits_only (fun k => valid_colour (cmd_colour k))
    (BoxplotGraph.drawBoxplot data x originY scale width c lc).
Proof.
  intros Hc Hlc. unfold BoxplotGraph.drawBoxplot.
  apply emits_only_bind; [apply emits_only_lift|]. intros v _ _.
  repeat (apply emits_only_bind; [apply emits_only_emit; assumption | intros _ _ _]).
  apply emits_only_for_enumerate. intros i a.
  apply emits_only_bind; [apply emits_only_emit; assumption | intros _ _ _].
  apply emits_only_emit; assumption.
Qed.

(** Boxes whose colours are valid, or left to the grey default, are
    drawn in valid colours. *)
Lemma draw_boxes_colours (b : BoxplotGraph.t) (g : Graph.t) (d : Graph.Dimensions) :
  (forall c, In (Some c) (BoxplotGraph.colours b) -> valid_colour c) ->
  emits_only (fun k => valid_colour (cmd_colour k)) (BoxplotGraph.draw_boxes b g d).
Proof.
  intro Hcol. unfold BoxplotGraph.draw_boxes.
  apply emits_only_bind; [apply emits_only_lift|]. intros boxWidth _ _.
  apply emits_only_bind; [|intros; apply emits_only_ret].
  apply emits_only_for_enumerate. intros i dataset.
  apply emits_only_bind; [apply emits_only_lift|]. intros ci log Hci.
  unfold lift in Hci. simpl in Hci.
  apply (f_equal (fun o => match o with Some r => r | None => inl IndexError end)) in Hci.
  apply index_In in Hci.
  assert (Hv : valid_colour (match ci with Some c => c | None => (100, 100, 100) end)).
  { destruct ci as [c|]; [apply Hcol; exact Hci | reflexivity]. }
  destruct (match ci with Some c => c | None => (100, 100, 100) end) as [[r gr] bl].
  apply drawBoxplot_colours; [exact Hv | apply half_colour_valid; exact Hv].
Qed.













Lemma bind_inv {A B} (m : result A) (k : A -> result B) (b : B) :
  bind m k = inr b -> exists a, m = inr a /\ k a = inr b.
Proof.
  destruct m as [e|a]; [discriminate|]. intro H. exists a. split; [reflexivity | exact H].
Qed.

Lemma complementary_valid (c : colour) :
  valid_colour c -> valid_colour (complementary c).
Proof.
  destruct c as [[r g] b]. unfold valid_colour, complementary. intro H.
  destruct (valid_rgb_colour_inv _ H) as (r' & g' & b' & E & Hr & Hg & Hb).
  injection E as <- <- <-.
  apply valid_rgb_colour_intro; lra.
Qed.

Section Defaults.

Variables (data : list DiscreteData) (maxY0 minY0 : option Q)
  (labels : option (list string)) (x0 y0 : Q)
  (w h : option Q) (border size : Q) (title0 : string) (showX showY : bool)
  (xLabel yLabel : string) (bg : colour) (borderC : option colour)
  (font : string) (density : Q).

(** X19.  A boxplot built on a valid background colour without a
    primary colour and without colours gives every dataset the same
    colour: the complement of the background, or grey (100, 100, 100)
    when that complement is black, that is on a white background.  The
    colour is valid and is never black, and the boxes are drawn in valid
    colours. *)
Theorem boxplot_default_colours (b : BoxplotGraph.t) :
  valid_colour bg ->
  BoxplotGraph.init data maxY0 minY0 labels x0 y0 w h border size title0 showX
    showY xLabel yLabel bg None None borderC font density = inr b ->
  exists c,
    BoxplotGraph.colours b = repeat (Some c) (List.length data) /\
    Graph.primaryColour (BoxplotGraph.graph b) = c /\
    c = (if BoxplotGraph.colour_eqb (complementary bg) (0, 0, 0)
         then (100, 100, 100) else complementary bg) /\
    valid_colour c /\
    BoxplotGraph.colour_eqb c (0, 0, 0) = false /\
    forall g d,
      emits_only (fun k => valid_colour (cmd_colour k))
        (BoxplotGraph.draw_boxes b g d).
Proof.
  intros Hbg H. unfold BoxplotGraph.init in H.
  apply bind_inv in H. destruct H as (mx & _ & H).
  apply bind_inv in H. destruct H as (mn & _ & H).
  apply bind_inv in H. destruct H as (g & Hg & H).
  cbn [ret] in H. apply inr_inj in H. subst b. cbn [BoxplotGraph.colours BoxplotGraph.graph].
  set (c := if BoxplotGraph.colour_eqb (complementary bg) (0, 0, 0)
            then (100, 100, 100) else complementary bg) in *.
  assert (Hc : valid_colour c).
  { unfold c. destruct (BoxplotGraph.colour_eqb (complementary bg) (0, 0, 0));
      [reflexivity | apply complementary_valid; exact Hbg]. }
  assert (Hp : Graph.primaryColour g = c).
  { unfold Graph.init in Hg. destruct (negb true && _); [discriminate|].
    destruct w as [w'|], h as [h'|].
    - destruct (set_dimensions_inv _ _ _ Hg) as (d & -> & _). reflexivity.
    - apply inr_inj in Hg. subst g. reflexivity.
    - apply inr_inj in Hg. subst g. reflexivity.
    - apply inr_inj in Hg. subst g. reflexivity. }
  exists c. split; [reflexivity|]. split; [exact Hp|]. split; [reflexivity|].
  split; [exact Hc|]. split.
  - unfold c. destruct (BoxplotGraph.colour_eqb (complementary bg) (0, 0, 0)) eqn:E;
      [reflexivity | exact E].
  - intros g' d. apply draw_boxes_colours. cbn [BoxplotGraph.colours].
    intros c' Hin. apply repeat_spec in Hin. injection Hin as ->. exact Hc.
Qed.

End Defaults.

Lemma boxplot_default_colours_witness :
  exists b,
    Sample.boxplot [Sample.series [1; 2; 2; 3; 4; 5; 50] 3] None None 400 400 = inr b /\
    BoxplotGraph.colours b = [Some (100, 100, 100)].
Proof.
  destruct (Sample.boxplot [Sample.series [1; 2; 2; 3; 4; 5; 50] 3] None None 400 400)
    as [e|b] eqn:E; [vm_compute in E; discriminate|].
  exists b. split; [reflexivity|].
  unfold Sample.boxplot in E.
  assert (Hw : valid_colour Sample.white) by reflexivity.
  destruct (boxplot_default_colours _ _ _ _ _ _ _ _ _ _ _ _ _ _ _ _ _ _ _ _
              Hw E) as (c & Hcols & _ & Hc & _).
  rewrite Hcols, Hc. reflexivity.
Defined.

End Colours.

(* ================================================================== *)
(** * Properties: where the content of a chart is drawn *)
(* ================================================================== *)

Section Placement.

Import Pygame Graph.

Lemma emits_only_for_enumerate_in {A} (P : cmd -> Prop) (body : Z -> A -> Draw unit)
    (l : list A) :
  (forall i a, In a l -> emits_only P (body i a)) ->
  forall i, emits_only P (for_enumerate body i l).
Proof.
  induction l as [|a l IH]; intros Hb i; simpl.
  - apply emits_only_ret.
  - apply emits_only_bind; [apply Hb; left; reflexivity|]. intros _ _ _.
    apply IH. intros j a' Ha'. apply Hb. right. exact Ha'.
Qed.

Lemma lift_returns {A} (r : result A) (a : A) (log : list cmd) :
  snd (lift r log) = Some (inr a) -> r = inr a.
Proof. unfold lift. simpl. intro H. injection H as ->. reflexivity. Qed.

Lemma extends_draw fuel g window : extends (draw fuel g window).
Proof.
  unfold draw.
  apply extends_bind.
  - destruct (dims g); [apply extends_ret | apply extends_lift].
  - intro g1. destruct (dims g1) as [d|]; [|apply extends_lift].
    apply extends_bind; [intro log; rewrite draw_frame_log; eexists; reflexivity|].
    intros _. apply extends_bind; [apply extends_draw_marks|].
    intros _. apply extends_ret.
Qed.

(** The median lies between two of the values. *)
Lemma median_in_range (data : list Q) (m : Q) :
  median data = inr m ->
  exists a b, In a data /\ In b data /\ a <= m /\ m <= b.
Proof.
  intro Hm.
  assert (Hne : data <> []) by (intros ->; discriminate).
  destruct (median_nonempty data Hne) as (h & Hh & [(Hn & H1 & Hmed)|(Hn & Hmed)]);
    rewrite Hmed in Hm; apply inr_inj in Hm; subst m.
  - destruct (sorted_extremes data (h - 1) ltac:(lia)) as (Ha & Hb & Hlo1 & Hhi1).
    destruct (sorted_extremes data h ltac:(lia)) as (_ & _ & Hlo2 & Hhi2).
    exists (nth 0 (sort data) 0), (nth (List.length data - 1) (sort data) 0).
    split; [exact Ha|]. split; [exact Hb|]. split.
    + apply Qle_shift_div_l; [reflexivity | lra].
    + apply Qle_shift_div_r; [reflexivity | lra].
  - destruct (sorted_extremes data h ltac:(lia)) as (Ha & Hb & Hlo & Hhi).
    exists (nth 0 (sort data) 0), (nth (List.length data - 1) (sort data) 0).
    repeat split; assumption.
Qed.

(** Everything [drawBoxplot] places lies in the range of the data. *)
Lemma box_values_in_range (s : DiscreteData) (v : BoxplotGraph.Values) (lo hi : Q) :
  BoxplotGraph.get_values s = inr v ->
  median (dd_data s) = inr (dd_median s) ->
  (forall a, In a (dd_data s) -> lo <= a /\ a <= hi) ->
  (lo <= BoxplotGraph.medianValue v /\ BoxplotGraph.medianValue v <= hi) /\
  (lo <= BoxplotGraph.q1 v /\ BoxplotGraph.q1 v <= hi) /\
  (lo <= BoxplotGraph.q3 v /\ BoxplotGraph.q3 v <= hi) /\
  (lo <= BoxplotGraph.lowerBound v /\ BoxplotGraph.lowerBound v <= hi) /\
  (lo <= BoxplotGraph.upperBound v /\ BoxplotGraph.upperBound v <= hi) /\
  (forall o, In o (BoxplotGraph.outliers v) -> lo <= o /\ o <= hi).
Proof.
  intros Hv Hmed Hdata.
  destruct (boxplot_values_by_cutoffs s v Hv) as ((Hl & _) & (Hu & _) & Hout).
  assert (Hq : quarterOne s = inr (BoxplotGraph.q1 v) /\
               quarterThree s = inr (BoxplotGraph.q3 v) /\
               BoxplotGraph.medianValue v = dd_median s).
  { unfold BoxplotGraph.get_values in Hv.
    destruct (quarterOne s) as [e|a1]; [discriminate|].
    destruct (quarterThree s) as [e|a3]; [discriminate|].
    cbn [bind] in Hv.
    destruct (BoxplotGraph.whisker_bounds (dd_data s) a1 a3) as [e|[lb ub]];
      [discriminate|].
    cbn [bind ret fst snd] in Hv. apply inr_inj in Hv. subst v. cbn.
    repeat split. }
  destruct Hq as (Hq1 & Hq3 & Hm).
  assert (Hne : dd_data s <> []) by (eapply quarterOne_nonempty; exact Hq1).
  destruct (quartiles_ordered_in_range_aux s Hne)
    as (q1' & q3' & a & b & E1 & E3 & Ha & Hb & H1 & H2 & H3).
  rewrite Hq1 in E1. rewrite Hq3 in E3.
  apply inr_inj in E1. apply inr_inj in E3. subst q1' q3'.
  destruct (median_in_range _ _ Hmed) as (ma & mb & Hma & Hmb & Hm1 & Hm2).
  rewrite Hm.
  pose proof (Hdata a Ha) as [? ?]. pose proof (Hdata b Hb) as [? ?].
  pose proof (Hdata ma Hma) as [? ?]. pose proof (Hdata mb Hmb) as [? ?].
  split; [split; lra|]. split; [split; lra|]. split; [split; lra|].
  split; [apply Hdata; exact Hl|]. split; [apply Hdata; exact Hu|].
  intros o Ho. apply Hdata. apply Hout in Ho. exact (proj1 Ho).
Qed.

Ltac placed_tac :=
  apply emits_only_emit; cbn [box_cmd_placed]; unfold in_rows, pixelY in *;
  repeat split; lra.

(** A box whose series lies in a range that maps into the rows of the
    plot area is placed by the plot area. *)
Lemma drawBoxplot_placed (d : Dimensions) (s : DiscreteData) (x w : Q)
    (c lc : colour) (lo hi : Q) :
  median (dd_data s) = inr (dd_median s) ->
  (forall a, In a (dd_data s) -> lo <= a /\ a <= hi) ->
  (forall a, lo <= a -> a <= hi -> in_rows d 0 (pixelY (originY d) (yScale d) a)) ->
  emits_only (box_cmd_placed d)
    (BoxplotGraph.drawBoxplot s x (originY d) (yScale d) w c lc).
Proof.
  intros Hmed Hdata HY. unfold BoxplotGraph.drawBoxplot.
  apply emits_only_bind; [apply emits_only_lift|]. intros v log Hv.
  apply lift_returns in Hv.
  destruct (box_values_in_range s v lo hi Hv Hmed Hdata)
    as (Hm & H1 & H3 & Hl & Hu & Ho).
  pose proof (HY _ (proj1 Hm) (proj2 Hm)) as Ym.
  pose proof (HY _ (proj1 H1) (proj2 H1)) as Y1.
  pose proof (HY _ (proj1 H3) (proj2 H3)) as Y3.
  pose proof (HY _ (proj1 Hl) (proj2 Hl)) as Yl.
  pose proof (HY _ (proj1 Hu) (proj2 Hu)) as Yu.
  do 7 (apply emits_only_bind; [placed_tac | intros _ _ _]).
  apply emits_only_for_enumerate_in. intros i value Hvalue.
  pose proof (HY _ (proj1 (Ho value Hvalue)) (proj2 (Ho value Hvalue))) as Yo.
  apply emits_only_bind; [placed_tac | intros _ _ _]. placed_tac.
Qed.

Lemma draw_boxes_placed (b : BoxplotGraph.t) (g : t) (d : Dimensions) (lo hi : Q) :
  Forall (fun s => median (dd_data s) = inr (dd_median s)) (BoxplotGraph.data b) ->
  (forall s a, In s (BoxplotGraph.data b) -> In a (dd_data s) -> lo <= a /\ a <= hi) ->
  (forall a, lo <= a -> a <= hi -> in_rows d 0 (pixelY (originY d) (yScale d) a)) ->
  emits_only (box_cmd_placed d) (BoxplotGraph.draw_boxes b g d).
Proof.
  intros Hmed Hdata HY. unfold BoxplotGraph.draw_boxes.
  apply emits_only_bind; [apply emits_only_lift|]. intros boxWidth _ _.
  apply emits_only_bind; [|intros; apply emits_only_ret].
  apply emits_only_for_enumerate_in. intros i dataset Hin.
  apply emits_only_bind; [apply emits_only_lift|]. intros ci _ _.
  rewrite Forall_forall in Hmed.
  apply (drawBoxplot_placed d dataset _ _ _ _ lo hi).
  - apply Hmed. exact Hin.
  - intros a Ha. apply (Hdata dataset a Hin Ha).
  - exact HY.
Qed.

Section Boxes.

Variables (data : list DiscreteData) (labels : option (list string)) (x0 y0 : Q)
  (w h : option Q) (border size : Q) (title0 : string) (showX showY : bool)
  (xLabel yLabel : string) (bg : colour) (primary : option colour)
  (cols : option (list (option colour))) (borderC : option colour)
  (font : string) (density : Q).

(** X15.  A boxplot built without [maxY] and [minY] takes its y range
    from the data: every value of every series lies between [minY] and
    [maxY]; the x axis is categorical, one colour per dataset when none
    are given.  What [BoxplotGraph.draw] then adds to the picture is
    the frame and the marks of [Graph.draw] followed by the boxes, and,
    the series being as their constructor leaves them and the plot area
    of non-negative height, the boxes are placed by the plot area:
    every line end and every circle centre lies between its top and its
    bottom, and every rectangle edge at most 2 pixels outside (the fill
    of a box is inset by 2 pixels).  When [Graph.draw] does not return,
    no box is drawn. *)
Theorem boxplot_default_range (b : BoxplotGraph.t) :
  BoxplotGraph.init data None None labels x0 y0 w h border size title0 showX
    showY xLabel yLabel bg primary cols borderC font density = inr b ->
  Forall (fun s => median (dd_data s) = inr (dd_median s)) data ->
  BoxplotGraph.data b = data /\
  BoxplotGraph.numDatasets b = List.length data /\
  (cols = None -> List.length (BoxplotGraph.colours b) = List.length data) /\
  categoricalXAxis (BoxplotGraph.graph b) = true /\
  (forall s v, In s data -> In v (dd_data s) ->
     minY (BoxplotGraph.graph b) <= v /\ v <= maxY (BoxplotGraph.graph b)) /\
  (forall fuel window log, exists frame boxes,
     fst (draw fuel (BoxplotGraph.graph b) window log) = log ++ frame /\
     fst (BoxplotGraph.draw fuel b window log) = log ++ frame ++ boxes /\
     match snd (draw fuel (BoxplotGraph.graph b) window log) with
     | Some (inr (_, d)) =>
         0 <= graphHeight d -> Forall (box_cmd_placed d) boxes
     | _ => boxes = []
     end).
Proof.
  intros Hinit Hmed.
  destruct (boxplot_init_range _ _ _ _ _ _ _ _ _ _ _ _ _ _ _ _ _ _ _ _ Hinit)
    as (Hdata & Hnum & Hcols & Hcat & Hrange & Hdraw).
  split; [exact Hdata|]. split; [exact Hnum|]. split; [exact Hcols|].
  split; [exact Hcat|]. split; [exact Hrange|].
  intros fuel window log. unfold BoxplotGraph.draw, bindD.
  destruct (extends_draw fuel (BoxplotGraph.graph b) window log) as (frame & Hframe).
  specialize (Hdraw fuel window log).
  destruct (draw fuel (BoxplotGraph.graph b) window log) as [log1 r].
  simpl in Hframe, Hdraw. subst log1.
  destruct r as [[e|[g' d']]|].
  - exists frame, []. simpl. rewrite app_nil_r. repeat split.
  - destruct (extends_draw_boxes b g' d' (log ++ frame)) as (boxes & Hboxes).
    exists frame, boxes. simpl. split; [reflexivity|].
    split; [rewrite Hboxes; rewrite app_assoc; reflexivity|].
    intro Hh.
    destruct (Hdraw g' d' eq_refl) as (g0 & win & Hset & Hd' & HmaxY & HminY).
    assert (Hplaced : emits_only (box_cmd_placed d') (BoxplotGraph.draw_boxes b g' d')).
    { apply (draw_boxes_placed b g' d' (minY (BoxplotGraph.graph b))
               (maxY (BoxplotGraph.graph b))).
      - rewrite Hdata. exact Hmed.
      - intros s a Hs Ha. rewrite Hdata in Hs. apply (Hrange s a Hs Ha).
      - intros a Hlo Hhi. unfold in_rows.
        destruct (pixelY_inside g0 g' win d' a Hset Hd' Hh) as [P1 P2].
        + rewrite HminY. exact Hlo.
        + rewrite HmaxY. exact Hhi.
        + split; lra. }
    destruct (Hplaced (log ++ frame)) as (boxes' & Hboxes' & HP).
    rewrite Hboxes in Hboxes'. apply app_inv_head in Hboxes'. subst boxes'.
    exact HP.
  - exists frame, []. simpl. rewrite app_nil_r. repeat split.
Qed.

End Boxes.

Lemma boxplot_default_range_witness :
  exists b frame boxes,
    Sample.boxplot [Sample.series [1; 2; 2; 3; 4; 5; 50] 3] None None 400 400 = inr b /\
    fst (BoxplotGraph.draw 100 b Sample.window []) = [] ++ frame ++ boxes /\
    (minY (BoxplotGraph.graph b) <= 50 /\ 50 <= maxY (BoxplotGraph.graph b)).
Proof.
  destruct (Sample.boxplot [Sample.series [1; 2; 2; 3; 4; 5; 50] 3] None None 400 400)
    as [e|b] eqn:E; [vm_compute in E; discriminate|].
  unfold Sample.boxplot in E.
  assert (Hmed : Forall (fun s => median (dd_data s) = inr (dd_median s))
                   [Sample.series [1; 2; 2; 3; 4; 5; 50] 3]).
  { constructor; [reflexivity | constructor]. }
  destruct (boxplot_default_range _ _ _ _ _ _ _ _ _ _ _ _ _ _ _ _ _ _ _ _ E Hmed)
    as (_ & _ & _ & _ & Hr & Hd).
  destruct (Hd 100%nat Sample.window []) as (frame & boxes & _ & Hb & _).
  exists b, frame, boxes. split; [reflexivity|]. split; [exact Hb|].
  apply (Hr (Sample.series [1; 2; 2; 3; 4; 5; 50] 3) 50).
  - left. reflexivity.
  - simpl. tauto.
Defined.

Lemma mapM_inv_out {A B} (f : A -> result B) (l : list A) (bs : list B) :
  mapM f l = inr bs ->
  forall b, In b bs -> exists a, In a l /\ f a = inr b.
Proof.
  revert bs. induction l as [|a l IH]; intros bs H b Hb; simpl in H.
  - apply inr_inj in H. subst bs. destruct Hb.
  - destruct (f a) as [e|b0] eqn:Ea; [discriminate|]. cbn [bind] in H.
    destruct (mapM f l) as [e|bs'] eqn:El; [discriminate|]. cbn [bind ret] in H.
    apply inr_inj in H. subst bs. destruct Hb as [<-|Hb].
    + exists a. split; [left; reflexivity | exact Ea].
    + destruct (IH bs' eq_refl b Hb) as (a' & Ha' & Hf).
      exists a'. split; [right; exact Ha' | exact Hf].
Qed.

(** A point of a two-dimensional dataset pairs a value of its first
    series with a value of its second. *)
Lemma get_points_list_in (m : MultivariableDiscreteData) (points : list (list Q)) :
  numDimensions m = 2%nat ->
  get_points_list m = inr points ->
  forall point, In point points ->
    exists sx sy vx vy,
      point = [vx; vy] /\
      index (mdd_data m) 0 = inr sx /\ index (mdd_data m) 1 = inr sy /\
      In vx (dd_data sx) /\ In vy (dd_data sy).
Proof.
  intros Hdim Hpts point Hin. unfold get_points_list in Hpts. rewrite Hdim in Hpts.
  destruct (mapM_inv_out _ _ _ Hpts point Hin) as (j & _ & Hj).
  change (range 2) with [0%Z; 1%Z] in Hj. cbn [mapM] in Hj.
  destruct (index (mdd_data m) 0) as [e|sx]; [discriminate|]. cbn [bind] in Hj.
  destruct (getValue sx j) as [e|vx] eqn:Evx; [discriminate|]. cbn [bind] in Hj.
  destruct (index (mdd_data m) 1) as [e|sy]; [discriminate|]. cbn [bind] in Hj.
  destruct (getValue sy j) as [e|vy] eqn:Evy; [discriminate|]. cbn [bind ret] in Hj.
  apply inr_inj in Hj. subst point.
  exists sx, sy, vx, vy. split; [reflexivity|]. split; [reflexivity|].
  split; [reflexivity|]. unfold getValue in Evx, Evy.
  split; eapply index_In; eassumption.
Qed.

Lemma num_returns (o : option Q) (q : Q) (log : list cmd) :
  snd (lift (num o) log) = Some (inr q) -> o = Some q.
Proof.
  intro H. apply lift_returns in H. destruct o as [q'|]; [|discriminate].
  apply inr_inj in H. subst q'. reflexivity.
Qed.

Ltac lines_tac :=
  repeat first
    [ apply emits_only_ret
    | apply emits_only_lift
    | (apply emits_only_emit; exact I)
    | (apply emits_only_bind; [|intros ? ? ?])
    | match goal with
      | |- emits_only _ (if ?b then _ else _) => destruct b
      end ].

(** The points of a scatterplot whose values map into the plot area are
    drawn inside it. *)
Lemma draw_points_placed (s : Scatterplot.t) (g : t) (d : Dimensions) :
  (forall m, In m (Scatterplot.datasets s) -> numDimensions m = 2%nat) ->
  (forall m sx sy vx vy ox xs,
     In m (Scatterplot.datasets s) ->
     index (mdd_data m) 0 = inr sx -> index (mdd_data m) 1 = inr sy ->
     In vx (dd_data sx) -> In vy (dd_data sy) ->
     originX d = Some ox -> xScale d = Some xs ->
     in_columns d (pixelX ox xs vx) /\
     in_rows d 0 (pixelY (originY d) (yScale d) vy)) ->
  emits_only (point_cmd_placed d) (Scatterplot.draw_points s g d).
Proof.
  intros Hdim Hin. unfold Scatterplot.draw_points, draw_line.
  apply emits_only_bind; [|intros _ _ _; lines_tac].
  apply emits_only_for_enumerate_in. intros i dataset Hdataset.
  apply emits_only_bind; [apply emits_only_lift|]. intros colour _ _.
  apply emits_only_bind; [apply emits_only_lift|]. intros ps _ _.
  apply emits_only_bind; [apply emits_only_lift|]. intros points log Hpoints.
  apply lift_returns in Hpoints.
  apply emits_only_bind; [|intros _ _ _; lines_tac].
  apply emits_only_for_enumerate_in. intros j point Hpoint.
  destruct (get_points_list_in dataset points (Hdim dataset Hdataset) Hpoints
              point Hpoint) as (sx & sy & vx & vy & -> & Hsx & Hsy & Hvx & Hvy).
  apply emits_only_bind; [apply emits_only_lift|]. intros ox log1 Hox.
  apply num_returns in Hox.
  apply emits_only_bind; [apply emits_only_lift|]. intros xs log2 Hxs.
  apply num_returns in Hxs.
  apply emits_only_emit. cbn [point_cmd_placed].
  apply (Hin dataset sx sy vx vy ox xs); assumption.
Qed.

Section Points.

Variables (data : list MultivariableDiscreteData) (x0 y0 : Q) (w h : option Q)
  (size border : Q) (bg : colour) (primary borderC : option colour)
  (cols : option (list colour)) (title0 : string) (showX showY : bool)
  (xLabel yLabel font : string) (density : Q) (fits : option (list bool))
  (mainFit : bool) (sizes : option (list (option Q))).

(** X16.  A scatterplot takes two-dimensional datasets only and its x
    axis is numeric, which the base constructor accepts only with a
    maximum other than 0.  Built without any of the four bounds, it
    takes them from the data: every x value lies between [minX] and
    [maxX], every y value between [minY] and [maxY].  What
    [Scatterplot.draw] then adds to the picture is the frame and the
    marks of [Graph.draw] followed by circles and lines, and on a plot
    area of non-negative width and height every circle, a point of the
    data, is centred inside the plot area (the lines are the best-fit
    lines).  When [Graph.draw] does not return, no point is drawn. *)
Theorem scatterplot_default_range (s : Scatterplot.t) :
  Scatterplot.init data None None None None x0 y0 w h size border bg primary
    borderC cols title0 showX showY xLabel yLabel font density fits mainFit sizes
  = inr s ->
  Scatterplot.datasets s = data /\
  (forall m, In m data -> numDimensions m = 2%nat) /\
  categoricalXAxis (Scatterplot.graph s) = false /\
  ~ maxX (Scatterplot.graph s) == 0 /\
  (forall m sx sy vx vy,
     In m data ->
     index (mdd_data m) 0 = inr sx -> index (mdd_data m) 1 = inr sy ->
     In vx (dd_data sx) -> In vy (dd_data sy) ->
     (minX (Scatterplot.graph s) <= vx /\ vx <= maxX (Scatterplot.graph s)) /\
     (minY (Scatterplot.graph s) <= vy /\ vy <= maxY (Scatterplot.graph s))) /\
  (forall fuel window log, exists frame points,
     fst (draw fuel (Scatterplot.graph s) window log) = log ++ frame /\
     fst (Scatterplot.draw fuel s window log) = log ++ frame ++ points /\
     match snd (draw fuel (Scatterplot.graph s) window log) with
     | Some (inr (_, d)) =>
         0 <= graphWidth d -> 0 <= graphHeight d ->
         Forall (point_cmd_placed d) points
     | _ => points = []
     end).
Proof.
  intro Hinit.
  destruct (scatterplot_init_range _ _ _ _ _ _ _ _ _ _ _ _ _ _ _ _ _ _ _ _ _ _ Hinit)
    as (Hdata & Hdim & Hcat & Hmax & Hdraw & Hrange).
  split; [exact Hdata|]. split; [exact Hdim|]. split; [exact Hcat|].
  split; [exact Hmax|]. split; [exact Hrange|].
  intros fuel window log. unfold Scatterplot.draw, bindD.
  destruct (extends_draw fuel (Scatterplot.graph s) window log) as (frame & Hframe).
  specialize (Hdraw fuel window log).
  destruct (draw fuel (Scatterplot.graph s) window log) as [log1 r].
  simpl in Hframe, Hdraw. subst log1.
  destruct r as [[e|[g' d']]|].
  - exists frame, []. simpl. rewrite app_nil_r. repeat split.
  - destruct (extends_draw_points s g' d' (log ++ frame)) as (points & Hpoints).
    exists frame, points. simpl. split; [reflexivity|].
    split; [rewrite Hpoints; rewrite app_assoc; reflexivity|].
    intros Hw Hh.
    destruct (Hdraw g' d' eq_refl)
      as (g0 & win & Hset & Hd' & HmaxY & HminY & HmaxX & HminX & Hcat0).
    assert (Hplaced : emits_only (point_cmd_placed d') (Scatterplot.draw_points s g' d')).
    { apply draw_points_placed.
      - intros m Hm. rewrite Hdata in Hm. apply Hdim, Hm.
      - intros m sx sy vx vy ox xs Hm Hsx Hsy Hvx Hvy Hox Hxs.
        rewrite Hdata in Hm.
        destruct (Hrange m sx sy vx vy Hm Hsx Hsy Hvx Hvy) as ([X1 X2] & [Y1 Y2]).
        destruct (pixelX_inside g0 g' win d' vx ox xs Hset Hd' Hcat0 Hox Hxs Hw)
          as [P1 P2].
        { rewrite HminX. exact X1. }
        { rewrite HmaxX. exact X2. }
        destruct (pixelY_inside g0 g' win d' vy Hset Hd' Hh) as [P3 P4].
        { rewrite HminY. exact Y1. }
        { rewrite HmaxY. exact Y2. }
        unfold in_columns, in_rows. repeat split; lra. }
    destruct (Hplaced (log ++ frame)) as (points' & Hpoints' & HP).
    rewrite Hpoints in Hpoints'. apply app_inv_head in Hpoints'. subst points'.
    exact HP.
  - exists frame, []. simpl. rewrite app_nil_r. repeat split.
Qed.

End Points.

Lemma scatterplot_default_range_witness :
  exists s frame points,
    Sample.scatterplot 400 400 = inr s /\
    fst (Scatterplot.draw 100 s Sample.window []) = [] ++ frame ++ points /\
    categoricalXAxis (Scatterplot.graph s) = false /\
    ~ maxX (Scatterplot.graph s) == 0.
Proof.
  destruct (Sample.scatterplot 400 400) as [e|s] eqn:E;
    [vm_compute in E; discriminate|].
  unfold Sample.scatterplot in E.
  destruct (MultivariableDiscreteData_init _ _) as [e|m]; [discriminate|].
  cbn [bind] in E.
  destruct (scatterplot_default_range _ _ _ _ _ _ _ _ _ _ _ _ _ _ _ _ _ _ _ _ _ _ E)
    as (_ & _ & Hc & Hm & _ & Hd).
  destruct (Hd 100%nat Sample.window []) as (frame & points & _ & Hp & _).
  exists s, frame, points. split; [reflexivity|]. split; [exact Hp|].
  split; assumption.
Defined.

End Placement.
